(** * narwhal: casts and cast collections

    A shallow embedding of [narwhal/cast.py]: the [Cast] class, its CTD
    specialisation and [CastCollection], over an explicit object store,
    and of the type tests of [narwhal/plotting.py].

    - float64 values are Rocq's primitive binary64 floats;
    - numpy arrays are mutable objects: they live in the store and are
      named by their location, so that two names of one array see each
      other's writes;
    - Python tuples and lists of numbers are immutable sequences
      ([Seq]); a list would differ only in being mutable by its owner;
    - a container that holds no numbers (a dict, a set) is kept by its
      number of entries ([Bag]): the type tests, [len], [np.asarray] and
      [copy.deepcopy] are followed on it, and a step that needs its
      entries ends the run with [Unmodelled];
    - a Python [dict] is an insertion-ordered association list;
    - a method is a state transformer that returns a value or raises.  *)

From Stdlib Require Import ZArith Floats Lia Sorted.
From stdpp Require Import base option list strings pretty.

Set Warnings "-inexact-float".

(** ** Exceptions and the execution monad *)

(** The Python exceptions the modelled code can raise.  [SystemError]
    stands for a reference to an object that is not in the store, and
    [RecursionError] for a loop that used up its iteration budget;
    neither can happen in a store built by the constructors below.
    [Unmodelled] is no exception of the program: it ends a run at a step
    that needs the entries of a container of which the embedding keeps
    none, where the program may go on, or raise what the entries and the
    version of numpy decide. *)
Inductive exn : Set :=
| IndexError | KeyError | ValueError | TypeError | NameError
| SystemError | RecursionError | Unmodelled.

Inductive outcome (A : Type) : Type :=
| Ok (a : A)
| Raise (e : exn).
Arguments Ok {A} a.
Arguments Raise {A} e.

Definition loc := nat.

(** A value that [data] can hold.  A vector of numbers is an immutable
    sequence or a reference to an ndarray.  [Bag n] is a container of [n]
    entries that numpy takes for a scalar: a dict, a set or a frozenset.
    [Arr0 n] is the 0-d array of objects that [np.asarray] makes of such
    a container.  The code writes to neither, so that they are values and
    not objects of the store. *)
Inductive vec : Type :=
| Seq (xs : list float)
| Arr (l : loc)
| Bag (n : nat)
| Arr0 (n : nat).

(** The Python values that occur as properties and keyword arguments. *)
Inductive pyval : Type :=
| PNone
| PNum (x : float)
| PStr (s : string)
| PVec (v : vec).

Definition dict (V : Type) := list (string * V).

Record Cast : Type := mkCast {
  properties : dict pyval;
  primarykey : string;
  data : dict vec;
  _fields : list string;
  _len : Z
}.

Record store : Type := mkStore {
  ndarrays : list (list float);
  objects : list Cast
}.

Definition M (A : Type) : Type := store -> store * outcome A.

Definition ret {A} (a : A) : M A := fun st => (st, Ok a).
Definition raise {A} (e : exn) : M A := fun st => (st, Raise e).
Definition bind {A B} (m : M A) (f : A -> M B) : M B :=
  fun st => match m st with
            | (st', Ok a) => f a st'
            | (st', Raise e) => (st', Raise e)
            end.

Notation "'let*' x ':=' m 'in' k" := (bind m (fun x => k))
  (at level 10, x pattern, m at level 100, k at level 200).

(** Lifting a pure computation that may raise. *)
Definition lift {A} (o : outcome A) : M A := fun st => (st, o).

(** ** Dictionaries *)

Fixpoint dget {V} (d : dict V) (k : string) : option V :=
  match d with
  | [] => None
  | (k', v) :: d' => if decide (k = k') then Some v else dget d' k
  end.

(** [k in d] *)
Definition dmem {V} (d : dict V) (k : string) : bool :=
  match dget d k with Some _ => true | None => false end.

(** [d[k] = v]: an existing key keeps its place, a new one goes last. *)
Fixpoint dset {V} (d : dict V) (k : string) (v : V) : dict V :=
  match d with
  | [] => [(k, v)]
  | (k', v') :: d' =>
      if decide (k = k') then (k', v) :: d' else (k', v') :: dset d' k v
  end.

Definition keys {V} (d : dict V) : list string := map fst d.

(** [d[k]], raising [KeyError] *)
Definition dlookup {V} (d : dict V) (k : string) : outcome V :=
  match dget d k with Some v => Ok v | None => Raise KeyError end.

(** ** Store primitives *)

Definition alloc_array (xs : list float) : M loc :=
  fun st => (mkStore (ndarrays st ++ [xs]) (objects st), Ok (length (ndarrays st))).

Definition read_array (l : loc) : M (list float) :=
  fun st => match ndarrays st !! l with
            | Some xs => (st, Ok xs)
            | None => (st, Raise SystemError)
            end.

Definition write_array (l : loc) (xs : list float) : M unit :=
  fun st => match ndarrays st !! l with
            | Some _ => (mkStore (<[l := xs]> (ndarrays st)) (objects st), Ok tt)
            | None => (st, Raise SystemError)
            end.

Definition new_cast (c : Cast) : M loc :=
  fun st => (mkStore (ndarrays st) (objects st ++ [c]), Ok (length (objects st))).

Definition get_cast (self : loc) : M Cast :=
  fun st => match objects st !! self with
            | Some c => (st, Ok c)
            | None => (st, Raise SystemError)
            end.

Definition put_cast (self : loc) (c : Cast) : M unit :=
  fun st => match objects st !! self with
            | Some _ => (mkStore (ndarrays st) (<[self := c]> (objects st)), Ok tt)
            | None => (st, Raise SystemError)
            end.

(** ** Vectors *)

(** The numbers of a vector value, where the code indexes it, iterates
    over it or hands it to a numeric routine. *)
Definition elems (v : vec) : M (list float) :=
  match v with
  | Seq xs => ret xs
  | Arr l => read_array l
  | Bag _ | Arr0 _ => raise Unmodelled
  end.

(** [len(v)]; a 0-d array has no length. *)
Definition len (v : vec) : M Z :=
  match v with
  | Bag n => ret (Z.of_nat n)
  | Arr0 _ => raise TypeError
  | _ => let* xs := elems v in ret (Z.of_nat (length xs))
  end.

(** [np.asarray(v)]: an ndarray is returned as it is, not copied; a
    container that numpy takes for a scalar becomes a 0-d array. *)
Definition np_asarray (v : vec) : M vec :=
  match v with
  | Arr l => ret (Arr l)
  | Seq xs => let* l := alloc_array xs in ret (Arr l)
  | Bag n => ret (Arr0 n)
  | Arr0 n => ret (Arr0 n)
  end.

(** [xs[i]] with Python's negative indices. *)
Definition py_index {A} (xs : list A) (i : Z) : outcome A :=
  let n := Z.of_nat (length xs) in
  let j := (if i <? 0 then i + n else i)%Z in
  if (j <? 0)%Z then Raise IndexError
  else match xs !! Z.to_nat j with
       | Some x => Ok x
       | None => Raise IndexError
       end.

(** [isinstance(val, collections.Container)]: whatever has a
    [__contains__] method, that is strings, sequences, arrays of any
    shape, dicts and sets, but neither [None] nor a number. *)
Definition is_container (val : pyval) : bool :=
  match val with PStr _ | PVec _ => true | _ => false end.

Definition is_str (val : pyval) : bool :=
  match val with PStr _ => true | _ => false end.

(** [len(val)] of an arbitrary value. *)
Definition py_len (val : pyval) : M Z :=
  match val with
  | PVec v => len v
  | PStr s => ret (Z.of_nat (String.length s))
  | _ => raise TypeError
  end.

(** A value used where the code takes it out of [data] or puts it there:
    anything but a scalar. *)
Definition as_vec (val : pyval) : outcome vec :=
  match val with PVec v => Ok v | _ => Raise TypeError end.

(** ** The Cast class *)

Definition set_properties (c : Cast) (p : dict pyval) : Cast :=
  mkCast p (primarykey c) (data c) (_fields c) (_len c).
Definition set_data (c : Cast) (d : dict vec) : Cast :=
  mkCast (properties c) (primarykey c) d (_fields c) (_len c).
Definition set_fields (c : Cast) (f : list string) : Cast :=
  mkCast (properties c) (primarykey c) (data c) f (_len c).
Definition set_len (c : Cast) (n : Z) : Cast :=
  mkCast (properties c) (primarykey c) (data c) (_fields c) n.

(** A key of [__getitem__]/[__setitem__]: an integer or a string. *)
Inductive key : Type :=
| KInt (i : Z)
| KStr (s : string).

(** What [Cast.__getitem__] returns: the tuple of (field, value) pairs of
    one observation, or the value stored under a name. *)
Inductive item : Type :=
| Row (cells : list (string * float))
| Val (v : pyval).

(** The test of [__init__] and [__setitem__] that sends a value to [data]:
    [isinstance(val, Container) and not isinstance(val, str) and
    len(val) == n], where [n] is only evaluated after the first two. *)
Definition is_field_value (val : pyval) (n : M Z) : M bool :=
  if is_container val && negb (is_str val)
  then let* lv := py_len val in let* ln := n in ret (lv =? ln)%Z
  else ret false.

(** The loop of [Cast.__init__] over the keyword arguments. *)
Fixpoint populate (p : vec) (items : dict pyval) (c : Cast) : M Cast :=
  match items with
  | [] => ret c
  | (kw, val) :: rest =>
      let* isf := is_field_value val (len p) in
      if isf : bool then
        let* w := lift (as_vec val) in
        let* a := np_asarray w in
        populate p rest
          (set_fields (set_data c (dset (data c) kw a)) (_fields c ++ [kw]))
      else
        populate p rest (set_properties c (dset (properties c) kw val))
  end.

(** [Cast.__init__(p, coords, properties, primarykey, **kwargs)].  The
    [properties] argument is [None] or a dictionary, which is the only
    case that does not raise [TypeError]. *)
Definition Cast__init__ (p : vec) (coords : pyval)
    (props : option (dict pyval)) (pk : string) (kwargs : dict pyval) : M loc :=
  let props0 := match props with None => [] | Some d => d end in
  let props1 := dset props0 "coordinates" coords in
  let* a := np_asarray p in
  let c0 := mkCast props1 pk (dset [] pk a) [pk] 0 in
  let* c1 := populate p kwargs c0 in
  let* n := len p in
  new_cast (set_len c1 n).

Definition Cast__len__ (self : loc) : M Z :=
  let* c := get_cast self in ret (_len c).

(** The generator of [__getitem__] for an integer key: every name of
    [_fields] is looked up in [data] and indexed at [i]. *)
Fixpoint row (d : dict vec) (fields : list string) (i : Z)
  : M (list (string * float)) :=
  match fields with
  | [] => ret []
  | a :: rest =>
      let* v := lift (dlookup d a) in
      let* xs := elems v in
      let* x := lift (py_index xs i) in
      let* cells := row d rest i in
      ret ((a, x) :: cells)
  end.

Definition Cast__getitem__ (self : loc) (k : key) : M item :=
  let* c := get_cast self in
  match k with
  | KInt i =>
      if (i <? _len c)%Z
      then let* cells := row (data c) (_fields c) i in ret (Row cells)
      else raise IndexError
  | KStr s =>
      match dget (data c) s with
      | Some v => ret (Val (PVec v))
      | None =>
          match dget (properties c) s with
          | Some v => ret (Val v)
          | None => raise KeyError
          end
      end
  end.

(** [len(it)] of what [__getitem__] returned. *)
Definition item_len (it : item) : M Z :=
  match it with
  | Row cells => ret (Z.of_nat (length cells))
  | Val v => py_len v
  end.

(** What [__getitem__] returned, used as a field. *)
Definition item_vec (it : item) : outcome vec :=
  match it with
  | Row _ => Raise TypeError
  | Val v => as_vec v
  end.

Definition Cast__setitem__ (self : loc) (k : key) (val : pyval) : M unit :=
  match k with
  | KStr s =>
      let* c := get_cast self in
      let* isf := is_field_value val
                    (let* pk := Cast__getitem__ self (KStr (primarykey c)) in
                     item_len pk) in
      if isf : bool then
        let* w := lift (as_vec val) in
        let c1 := set_data c (dset (data c) s w) in
        put_cast self
          (if bool_decide (s ∈ _fields c) then c1
           else set_fields c1 (_fields c ++ [s]))
      else
        put_cast self (set_properties c (dset (properties c) s val))
  | KInt _ => raise KeyError
  end.

(** [key + "_" + str(i)] *)
Definition suffixed (key : string) (i : Z) : string :=
  key +:+ "_" +:+ pretty i.

(** The [while key_ in self.data] loop of [_addkeydata]: [key_] is the
    candidate being tested and [i] the next suffix. *)
Fixpoint unused_key (fuel : nat) (d : dict vec) (key key_ : string) (i : Z)
  : option string :=
  match fuel with
  | O => None
  | S fuel' =>
      if dmem d key_
      then unused_key fuel' d key (suffixed key i) (i + 1)%Z
      else Some key_
  end.

(** [_addkeydata(key, data, overwrite)].  The loop tests at most one
    candidate more than [data] has keys. *)
Definition _addkeydata (self : loc) (key : string) (dat : vec)
    (overwrite : bool) : M string :=
  let* c := get_cast self in
  let* key_ :=
    if overwrite then ret key
    else match unused_key (S (length (data c))) (data c) key key 2 with
         | Some k => ret k
         | None => raise RecursionError
         end in
  let c1 := if bool_decide (key_ ∈ _fields c) then c
            else set_fields c (_fields c ++ [key_]) in
  let* _ := put_cast self (set_data c1 (dset (data c1) key_ dat)) in
  ret key_.

(** ** numpy on vectors *)

Definition NaN : float := PrimFloat.nan.

(** [np.diff(a)], that is [a[1:] - a[:-1]] *)
Definition np_diff (xs : list float) : list float :=
  zip_with PrimFloat.sub (tail xs) xs.

(** [np.cumsum(a)] *)
Fixpoint cumsum_from (acc : float) (xs : list float) : list float :=
  match xs with
  | [] => []
  | x :: rest => let s := PrimFloat.add acc x in s :: cumsum_from s rest
  end.

Definition np_cumsum (xs : list float) : list float :=
  match xs with
  | [] => []
  | x :: rest => x :: cumsum_from x rest
  end.

(** An elementwise operation on two 1-d arrays, with numpy's broadcasting:
    the lengths agree, or one of them is 1. *)
Definition broadcast1 (op : float -> float -> float) (xs ys : list float)
  : outcome (list float) :=
  if bool_decide (length xs = length ys) then Ok (zip_with op xs ys)
  else match xs, ys with
       | [x], _ => Ok (map (op x) ys)
       | _, [y] => Ok (map (fun x => op x y) xs)
       | _, _ => Raise ValueError
       end.

(** A 2-d float array by its shape and rows. *)
Record matrix : Type := mkMatrix {
  nrows : nat;
  ncols : nat;
  mrows : list (list float)
}.

Definition mtab (r c : nat) (f : nat -> nat -> float) : matrix :=
  mkMatrix r c (map (fun i => map (fun j => f i j) (seq 0 c)) (seq 0 r)).

(** [m[i, j]]; the default is never read inside the shape. *)
Definition mget (m : matrix) (i j : nat) : float :=
  match mrows m !! i with
  | Some row => match row !! j with Some x => x | None => NaN end
  | None => NaN
  end.

(** [m[:, j]] *)
Definition mcol (m : matrix) (j : nat) : list float :=
  map (fun i => mget m i j) (seq 0 (nrows m)).

(** The collaborators of the module that are not part of it: numpy's
    uninitialised memory and point-wise kernels, the thermodynamic
    functions of [gsw], the difference and integration routines of [util],
    and karta's points and geodetic distance. *)
Class Externals : Type := {
  (** the cell contents [np.empty] happens to return *)
  uninit : nat -> float;
  (** [np.interp] at one point: sample points, values, left, right, x *)
  np_interp_point : list float -> list float -> float -> float -> float -> float;
  np_sin : float -> float;
  (** [util.force_monotonic] *)
  force_monotonic : list float -> list float;
  (** [util.diff2_inner] and [util.uintegrate] *)
  diff2_inner : matrix -> list float -> outcome matrix;
  uintegrate : matrix -> matrix -> outcome matrix;
  (** [gsw.sa_from_sp], [gsw.ct_from_t], [gsw.rho] *)
  gsw_sa_from_sp :
    list float -> list float -> list float -> list float -> outcome (list float);
  gsw_ct_from_t : list float -> list float -> list float -> outcome (list float);
  gsw_rho : list float -> list float -> list float -> outcome (list float);
  (** [karta.Point(coords, crs=LONLAT)] and [a.distance(b)] *)
  Point : Type;
  mkPoint : pyval -> outcome Point;
  distance : Point -> Point -> float
}.

Section CastMethods.
Context `{E : Externals}.

(** [np.empty(n)]: an array of [n] cells that nothing has written. *)
Definition np_empty (n : nat) : list float := map uninit (seq 0 n).

(** [np.interp(x, xp, fp, left, right)] *)
Definition np_interp (x xp fp : list float) (left right : option float)
  : outcome (list float) :=
  if bool_decide (length xp = 0) then Raise ValueError
  else if bool_decide (length fp = length xp) then
    Ok (map (np_interp_point xp fp
               (default (default NaN (head fp)) left)
               (default (default NaN (last fp)) right)) x)
  else Raise ValueError.

(** The numeric contents of [self[k]]. *)
Definition cast_vector (self : loc) (k : string) : M (list float) :=
  let* it := Cast__getitem__ self (KStr k) in
  let* w := lift (item_vec it) in
  elems w.

(** The loop of [extend]: [self.data[key] = np.hstack([self.data[key],
    empty_array])] for every key, each [hstack] a new array. *)
Fixpoint extend_fields (empty_array : list float) (d : dict vec) : M (dict vec) :=
  match d with
  | [] => ret []
  | (k, v) :: rest =>
      let* xs := elems v in
      let* l := alloc_array (xs ++ empty_array) in
      let* rest' := extend_fields empty_array rest in
      ret ((k, Arr l) :: rest')
  end.

Definition extend (self : loc) (n : Z) (padvalue : float) : M unit :=
  if (n =? 0)%Z then raise ValueError
  else if (n <? 0)%Z then raise ValueError
  else
    let empty_array := map (PrimFloat.mul padvalue) (np_empty (Z.to_nat n)) in
    let* c := get_cast self in
    let* d := extend_fields empty_array (data c) in
    put_cast self (set_len (set_data c d) (_len c + n)).

Definition interpolate (self : loc) (y x : string) (v : vec) (force : bool)
  : M vec :=
  let* c := get_cast self in
  if negb (dmem (data c) y) then raise KeyError
  else if negb (dmem (data c) x) then raise KeyError
  else
    let* xs := cast_vector self x in
    if forallb (fun d => PrimFloat.ltb 0 d) (np_diff xs) then
      let* vs := elems v in
      let* xp := cast_vector self x in
      let* fp := cast_vector self y in
      let* r := lift (np_interp vs xp fp None None) in
      let* l := alloc_array r in
      ret (Arr l)
    else if force then
      let* vs := elems v in
      let* xp := cast_vector self x in
      let* fp := cast_vector self y in
      let* r := lift (np_interp vs (force_monotonic xp) fp None None) in
      let* l := alloc_array r in
      ret (Arr l)
    else raise ValueError.

(** [copy.deepcopy]: an ndarray is copied once, whatever the number of
    references to it ([memo] maps the copied arrays to their copies); an
    immutable sequence is shared, and so is a value of which only the
    number of entries is kept. *)
Fixpoint memo_get (memo : list (loc * loc)) (l : loc) : option loc :=
  match memo with
  | [] => None
  | (a, b) :: rest => if decide (l = a) then Some b else memo_get rest l
  end.

Definition deepcopy_vec (memo : list (loc * loc)) (v : vec)
  : M (list (loc * loc) * vec) :=
  match v with
  | Seq xs => ret (memo, Seq xs)
  | Bag n => ret (memo, Bag n)
  | Arr0 n => ret (memo, Arr0 n)
  | Arr l =>
      match memo_get memo l with
      | Some l' => ret (memo, Arr l')
      | None =>
          let* xs := read_array l in
          let* l' := alloc_array xs in
          ret ((l, l') :: memo, Arr l')
      end
  end.

Fixpoint deepcopy_props (memo : list (loc * loc)) (d : dict pyval)
  : M (list (loc * loc) * dict pyval) :=
  match d with
  | [] => ret (memo, [])
  | (k, PVec v) :: rest =>
      let* (memo1, v') := deepcopy_vec memo v in
      let* (memo2, rest') := deepcopy_props memo1 rest in
      ret (memo2, (k, PVec v') :: rest')
  | (k, val) :: rest =>
      let* (memo2, rest') := deepcopy_props memo rest in
      ret (memo2, (k, val) :: rest')
  end.

Fixpoint deepcopy_data (memo : list (loc * loc)) (d : dict vec)
  : M (list (loc * loc) * dict vec) :=
  match d with
  | [] => ret (memo, [])
  | (k, v) :: rest =>
      let* (memo1, v') := deepcopy_vec memo v in
      let* (memo2, rest') := deepcopy_data memo1 rest in
      ret (memo2, (k, v') :: rest')
  end.

Definition deepcopy (self : loc) : M loc :=
  let* c := get_cast self in
  let* (memo1, props) := deepcopy_props [] (properties c) in
  let* (_, d) := deepcopy_data memo1 (data c) in
  new_cast (mkCast props (primarykey c) d (_fields c) (_len c)).

(** The loop of [regrid] over the keys of [self.data]. *)
Fixpoint regrid_fields (self ret_ : loc) (levels : vec) (pk : string)
    (ks : list string) : M unit :=
  match ks with
  | [] => ret tt
  | k :: rest =>
      let* _ :=
        if bool_decide (k <> pk) then
          let* x := elems levels in
          let* xp := cast_vector self pk in
          let* fp := cast_vector self k in
          let* r := lift (np_interp x xp fp (Some NaN) (Some NaN)) in
          let* l := alloc_array r in
          let* rc := get_cast ret_ in
          put_cast ret_ (set_data rc (dset (data rc) k (Arr l)))
        else ret tt in
      regrid_fields self ret_ levels pk rest
  end.

Definition regrid (self : loc) (levels : vec) : M loc :=
  let* ret_ := deepcopy self in
  let* n := len levels in
  let* rc := get_cast ret_ in
  let* _ := put_cast ret_ (set_len rc n) in
  let* c := get_cast self in
  let* _ := regrid_fields self ret_ levels (primarykey c) (keys (data c)) in
  let* rc := get_cast ret_ in
  let* _ := put_cast ret_ (set_data rc (dset (data rc) (primarykey c) levels)) in
  ret ret_.

(** ** The CTDCast class *)

Definition G : float := 9.8%float.
Definition np_pi : float := 3.141592653589793%float.
Definition OMEGA : float := (2 * np_pi / 86400.0)%float.

(** [CTDCast.__init__]: [sal] and [temp] are passed on as the first two
    keyword arguments; [primarykey] can only come in through [kwargs]. *)
Definition CTDCast__init__ (p : vec) (sal temp : pyval) (coords : pyval)
    (props : option (dict pyval)) (pk : option string) (kwargs : dict pyval)
  : M loc :=
  Cast__init__ p coords props (default "pres" pk)
               (("sal", sal) :: ("temp", temp) :: kwargs).

(** [self.coords[i]] *)
Definition coords_at (self : loc) (i : Z) : M float :=
  let* c := get_cast self in
  let* cv := lift (dlookup (properties c) "coordinates") in
  let* w := lift (as_vec cv) in
  let* xs := elems w in
  lift (py_index xs i).

(** [[e for _ in xs]] *)
Fixpoint for_each {A B} (e : M B) (xs : list A) : M (list B) :=
  match xs with
  | [] => ret []
  | _ :: rest =>
      let* b := e in
      let* bs := for_each e rest in
      ret (b :: bs)
  end.

Definition add_density (self : loc) : M string :=
  let* sal := cast_vector self "sal" in
  let* pres := cast_vector self "pres" in
  let* sal1 := cast_vector self "sal" in
  let* lon := for_each (coords_at self 0) sal1 in
  let* sal2 := cast_vector self "sal" in
  let* lat := for_each (coords_at self 1) sal2 in
  let* SA := lift (gsw_sa_from_sp sal pres lon lat) in
  let* temp := cast_vector self "temp" in
  let* pres1 := cast_vector self "pres" in
  let* CT := lift (gsw_ct_from_t SA temp pres1) in
  let* pres2 := cast_vector self "pres" in
  let* rho := lift (gsw_rho SA CT pres2) in
  let* l := alloc_array rho in
  _addkeydata self "rho" (Arr l) false.

(** The loop of [add_depth] that counts the leading NaNs: [r = rho[0]],
    then [nnans += 1; r = rho[nnans]] while [r] is NaN.  Reading past the
    end raises [IndexError]. *)
Fixpoint leading_nans (rho : list float) : outcome nat :=
  match rho with
  | [] => Raise IndexError
  | r :: rest =>
      if PrimFloat.is_nan r
      then match leading_nans rest with
           | Ok nnans => Ok (S nnans)
           | Raise e => Raise e
           end
      else Ok 0
  end.

(** [v[:n] = x], which only an ndarray supports. *)
Definition slice_fill (v : vec) (n : nat) (x : float) : M unit :=
  match v with
  | Arr l =>
      let* xs := read_array l in
      write_array l (replicate (min n (length xs)) x ++ drop n xs)
  | Seq _ => raise TypeError
  | Bag _ | Arr0 _ => raise Unmodelled
  end.

(** The second half of [add_depth]: the hydrostatic integration of
    pressure into depth with the density [rho], stored as a new field. *)
Definition hydrostatic_depth (self : loc) (rho : vec) : M string :=
  let* pres := cast_vector self "pres" in
  let* p0 := lift (py_index pres 0) in
  let* pres1 := cast_vector self "pres" in
  let dp := p0 :: np_diff pres1 in
  let* rho1 := elems rho in
  let* q := lift (broadcast1 PrimFloat.div dp
                    (map (fun r => PrimFloat.mul r G) rho1)) in
  let dz := map (fun d => PrimFloat.mul d 1e4%float) q in
  let depth := np_cumsum dz in
  let* l := alloc_array depth in
  _addkeydata self "depth" (Arr l) false.

Definition add_depth (self : loc) (rhokey : option string) : M string :=
  let* rhokey :=
    match rhokey with
    | None => add_density self
    | Some k => ret k
    end in
  let* it := Cast__getitem__ self (KStr rhokey) in
  let* rho := lift (item_vec it) in
  (* remove initial NaNs by replacing them with the first non-NaN *)
  let* xs := elems rho in
  let* nnans := lift (leading_nans xs) in
  let* x := lift (py_index xs (Z.of_nat nnans + 1)) in
  let* _ := slice_fill rho nnans x in
  hydrostatic_depth self rho.

End CastMethods.

(** ** numpy on matrices *)

(** [np.vstack(rows)] of 1-d arrays: one row per array. *)
Definition np_vstack (rows : list (list float)) : outcome matrix :=
  match rows with
  | [] => Raise ValueError
  | r :: rest =>
      if forallb (fun r' => bool_decide (length r' = length r)) rest
      then Ok (mkMatrix (length rows) (length r) rows)
      else Raise ValueError
  end.

(** [m.T] *)
Definition transpose (m : matrix) : matrix :=
  mtab (ncols m) (nrows m) (fun i j => mget m j i).

Definition mmap (f : float -> float) (m : matrix) : matrix :=
  mtab (nrows m) (ncols m) (fun i j => f (mget m i j)).

(** An elementwise operation on two 2-d arrays, with numpy's broadcasting
    along every axis: the sizes agree, or one of them is 1. *)
Definition broadcast_dim (a b : nat) : option nat :=
  if bool_decide (a = b) then Some a
  else if bool_decide (a = 1) then Some b
  else if bool_decide (b = 1) then Some a
  else None.

Definition mbroadcast (op : float -> float -> float) (a b : matrix)
  : outcome matrix :=
  match broadcast_dim (nrows a) (nrows b), broadcast_dim (ncols a) (ncols b) with
  | Some r, Some c =>
      Ok (mtab r c (fun i j =>
            op (mget a (if bool_decide (nrows a = 1) then 0 else i)
                       (if bool_decide (ncols a = 1) then 0 else j))
               (mget b (if bool_decide (nrows b = 1) then 0 else i)
                       (if bool_decide (ncols b = 1) then 0 else j))))
  | _, _ => Raise ValueError
  end.

(** A 1-d array as an operand of a 2-d operation: one row. *)
Definition as_row (xs : list float) : matrix := mkMatrix 1 (length xs) [xs].

(** [m[:n, j] = vals], where [vals] has [n] elements or just one. *)
Definition set_column (m : matrix) (n j : nat) (vals : list float)
  : outcome matrix :=
  if bool_decide (length vals = n) then
    Ok (mtab (nrows m) (ncols m) (fun i j' =>
          if bool_decide (j' = j /\ i < n)
          then default NaN (vals !! i) else mget m i j'))
  else match vals with
       | [x] => Ok (mtab (nrows m) (ncols m) (fun i j' =>
                      if bool_decide (j' = j /\ i < n) then x else mget m i j'))
       | _ => Raise ValueError
       end.

(** [[f(x) for x in xs]] *)
Fixpoint mapM {A B} (f : A -> M B) (xs : list A) : M (list B) :=
  match xs with
  | [] => ret []
  | x :: rest =>
      let* b := f x in
      let* bs := mapM f rest in
      ret (b :: bs)
  end.

(** ** Python slices *)

(** The positions that [slice(start, stop, step)] selects in a sequence of
    [n] elements: the range that [slice.indices(n)] describes. *)
Definition slice_indices (start stop step : option Z) (n : Z) : outcome (list nat) :=
  let step := default 1%Z step in
  if (step =? 0)%Z then Raise ValueError
  else
    let clamp (x : Z) : Z :=
      let x := (if x <? 0 then x + n else x)%Z in
      if (x <? 0)%Z then (if step <? 0 then -1 else 0)%Z
      else if (n <=? x)%Z then (if step <? 0 then n - 1 else n)%Z
      else x in
    let start := match start with
                 | Some x => clamp x
                 | None => (if step <? 0 then n - 1 else 0)%Z
                 end in
    let stop := match stop with
                | Some x => clamp x
                | None => (if step <? 0 then -1 else n)%Z
                end in
    let count :=
      (if step <? 0
       then (if stop <? start then (start - stop - 1) / (- step) + 1 else 0)
       else (if start <? stop then (stop - start - 1) / step + 1 else 0))%Z in
    Ok (map (fun k => Z.to_nat (start + Z.of_nat k * step))
            (seq 0 (Z.to_nat count))).

(** [xs[start:stop:step]] *)
Definition py_slice {A} (xs : list A) (start stop step : option Z)
  : outcome (list A) :=
  match slice_indices start stop step (Z.of_nat (length xs)) with
  | Ok idx => Ok (omap (fun i => xs !! i) idx)
  | Raise e => Raise e
  end.

(** ** The CastCollection class *)

Record CastCollection : Type := mkColl { casts : list loc }.

Inductive ckey : Type :=
| CInt (i : Z)
| CSlice (start stop step : option Z)
| CStr (s : string).

(** What [CastCollection.__getitem__] returns. *)
Inductive citem : Type :=
| ICast (c : loc)
| IColl (cc : CastCollection)
| IMatrix (m : matrix)
| IList (vals : list pyval).

(** [cast.coords], the property ["coordinates"] *)
Definition coords (self : loc) : M pyval :=
  let* c := get_cast self in
  lift (dlookup (properties c) "coordinates").

(** [cast.properties[key]] *)
Definition property (self : loc) (k : string) : M pyval :=
  let* c := get_cast self in
  lift (dlookup (properties c) k).

Section Projdist.
(** The along-track distance is written over any numbers [R] with a zero
    and an addition, and any points [P] with a distance. *)
Context {R P : Type} (zero : R) (add : R -> R -> R).
Context (point : pyval -> outcome P) (dist : P -> P -> R).

(** The loop of [projdist]: [a] is the previous point and [last] the
    value of [cumulative[-1]]. *)
Fixpoint projdist_loop (a : P) (last : R) (cs : list loc) : M (list R) :=
  match cs with
  | [] => ret []
  | cast :: rest =>
      let* cv := coords cast in
      let* b := lift (point cv) in
      let d := add last (dist a b) in
      let* tl := projdist_loop b d rest in
      ret (d :: tl)
  end.

Definition projdist (self : CastCollection) : M (list R) :=
  let* c0 := lift (py_index (casts self) 0) in
  let* cv := coords c0 in
  let* a := lift (point cv) in
  let* tl := projdist_loop a zero (tail (casts self)) in
  ret (zero :: tl).

End Projdist.

Section CollectionMethods.
Context `{E : Externals}.

Definition CastCollection__getitem__ (self : CastCollection) (k : ckey) : M citem :=
  match k with
  | CInt i =>
      let* c := lift (py_index (casts self) i) in
      ret (ICast c)
  | CSlice start stop step =>
      let* l := lift (py_slice (casts self) start stop step) in
      ret (IColl (mkColl l))
  | CStr s =>
      let* cs := mapM get_cast (casts self) in
      if forallb (fun c => dmem (data c) s) cs then
        let* rows := mapM (fun a => cast_vector a s) (casts self) in
        let* m := lift (np_vstack rows) in
        ret (IMatrix (transpose m))
      else if forallb (fun c => dmem (properties c) s) cs then
        let* vals := mapM (fun a => property a s) (casts self) in
        ret (IList vals)
      else raise KeyError
  end.

(** The number of rows that [arr[:n]] selects among [nrows]. *)
Definition rows_upto (n : Z) (nrows : nat) : nat :=
  Z.to_nat (if n <? 0 then Z.max (Z.of_nat nrows + n) 0
            else Z.min n (Z.of_nat nrows))%Z.

(** The loop of [asarray]: [arr[:cast._len, i] = cast[key]]. *)
Fixpoint asarray_loop (key : string) (i : nat) (cs : list loc) (arr : matrix)
  : M matrix :=
  match cs with
  | [] => ret arr
  | cast :: rest =>
      let* c := get_cast cast in
      let* it := Cast__getitem__ cast (KStr key) in
      let* vals :=
        match it with
        | Val (PVec v) => elems v
        | Val (PNum x) => ret [x]
        | Val (PStr _) => raise ValueError
        | _ => raise TypeError
        end in
      let* arr' := lift (set_column arr (rows_upto (_len c) (nrows arr)) i vals) in
      asarray_loop key (S i) rest arr'
  end.

Definition asarray (self : CastCollection) (key : string) : M matrix :=
  let* cs := mapM get_cast (casts self) in
  match cs with
  | [] => raise ValueError
  | c0 :: rest =>
      let nrows := foldr (fun c m => Z.max (_len c) m) (_len c0) rest in
      if (nrows <? 0)%Z then raise ValueError
      else
        let n := length cs in
        let arr := mtab (Z.to_nat nrows) n
                     (fun i j => PrimFloat.mul NaN (uninit (i * n + j))) in
        asarray_loop key 0 (casts self) arr
  end.

(** [avgcolumns(a, b)] of [thermal_wind_inner]: the argument with more
    values that are not NaN, [b] on a tie; the result is one of the two
    arrays, not a copy. *)
Definition avgcolumns (a b : vec) : M vec :=
  match a, b with
  | Arr _, Arr _ =>
      let* xs := elems a in
      let* ys := elems b in
      let valid (l : list float) :=
        length (filter (fun x => PrimFloat.is_nan x = false) l) in
      ret (if bool_decide (valid ys < valid xs) then a else b)
  | _, _ => raise TypeError
  end.

(** [self[i][k]] for a cast of the collection *)
Definition cast_field (self : CastCollection) (i : Z) (k : string) : M vec :=
  let* it := CastCollection__getitem__ self (CInt i) in
  match it with
  | ICast c =>
      let* x := Cast__getitem__ c (KStr k) in
      lift (item_vec x)
  | _ => raise TypeError
  end.

(** [self[i]] for an integer [i] *)
Definition cast_at (self : CastCollection) (i : Z) : M loc :=
  let* it := CastCollection__getitem__ self (CInt i) in
  match it with
  | ICast c => ret c
  | _ => raise TypeError
  end.

(** [cv[i]] for a coordinate pair *)
Definition coord_index (cv : pyval) (i : Z) : M float :=
  let* w := lift (as_vec cv) in
  let* xs := elems w in
  lift (py_index xs i).

(** A scalar property used as a number. *)
Definition as_num (val : pyval) : outcome float :=
  match val with PNum x => Ok x | _ => Raise TypeError end.

(** One turn of the loop of [thermal_wind_inner] that builds the casts
    between the stations [i] and [i+1]. *)
Definition midcast (self : CastCollection) (bottomkey : string) (i : Z) : M loc :=
  let* a := cast_at self i in
  let* c1 := coords a in
  let* b := cast_at self (i + 1) in
  let* c2 := coords b in
  let* x1 := coord_index c1 0 in
  let* x2 := coord_index c2 0 in
  let* y1 := coord_index c1 1 in
  let* y2 := coord_index c2 1 in
  let cmid := PVec (Seq [PrimFloat.mul 0.5 (PrimFloat.add x1 x2);
                         PrimFloat.mul 0.5 (PrimFloat.add y1 y2)]%float) in
  let* p1 := cast_field self i "pres" in
  let* p2 := cast_field self (i + 1) "pres" in
  let* p := avgcolumns p1 p2 in
  let* t1 := cast_field self i "temp" in
  let* t2 := cast_field self (i + 1) "temp" in
  let* t := avgcolumns t1 t2 in
  let* s1 := cast_field self i "sal" in
  let* s2 := cast_field self (i + 1) "sal" in
  let* s := avgcolumns s1 s2 in
  let* cast := CTDCast__init__ p (PVec s) (PVec t) cmid None (Some "pres") [] in
  let* _ := add_depth cast None in
  let* a1 := cast_at self i in
  let* b1v := property a1 bottomkey in
  let* a2 := cast_at self (i + 1) in
  let* b2v := property a2 bottomkey in
  let* b1 := lift (as_num b1v) in
  let* b2 := lift (as_num b2v) in
  let* c := get_cast cast in
  let* _ := put_cast cast
              (set_properties c
                 (dset (properties c) bottomkey
                       (PNum (PrimFloat.mul 0.5 (PrimFloat.add b1 b2))))) in
  ret cast.

(** The last loop of [thermal_wind_inner]: the columns of [dudz] and [u]
    become fields of the new casts. *)
Fixpoint store_columns (dudzkey ukey : string) (overwrite : bool)
    (dudz u : matrix) (ic : nat) (cs : list loc) : M unit :=
  match cs with
  | [] => ret tt
  | cast :: rest =>
      let* _ := if bool_decide (ic < ncols dudz) then ret tt else raise IndexError in
      let* l1 := alloc_array (mcol dudz ic) in
      let* _ := _addkeydata cast dudzkey (Arr l1) overwrite in
      let* _ := if bool_decide (ic < ncols u) then ret tt else raise IndexError in
      let* l2 := alloc_array (mcol u ic) in
      let* _ := _addkeydata cast ukey (Arr l2) overwrite in
      store_columns dudzkey ukey overwrite dudz u (S ic) rest
  end.

(** [rho[:, :-1]] and [rho[:, 1:]] *)
Definition drop_last_col (m : matrix) : matrix :=
  mtab (nrows m) (ncols m - 1) (fun i j => mget m i j).
Definition drop_first_col (m : matrix) : matrix :=
  mtab (nrows m) (ncols m - 1) (fun i j => mget m i (S j)).

Definition thermal_wind_inner (self : CastCollection) (rhokey : option string)
    (dudzkey ukey bottomkey : string) (overwrite : bool) : M CastCollection :=
  let* rhokey :=
    match rhokey with
    | Some k => ret k
    | None =>
        let* rhokeys := mapM add_density (casts self) in
        match rhokeys with
        | [] => raise IndexError
        | r0 :: rest =>
            if existsb (fun r => bool_decide (r <> r0)) rest
            then raise NameError
            else ret r0
        end
    end in
  let* rho := asarray self rhokey in
  (* Add casts in intermediate positions *)
  let* midcasts :=
    mapM (fun i => midcast self bottomkey (Z.of_nat i))
         (seq 0 (length (casts self) - 1)) in
  let coll := mkColl midcasts in
  let* pd := projdist 0%float PrimFloat.add mkPoint distance self in
  let* drho := lift (diff2_inner rho pd) in
  let* lats := mapM (fun c => coords_at c 1) midcasts in
  let sinphi :=
    map (fun lat => np_sin (PrimFloat.div (PrimFloat.mul lat np_pi) 180.0%float)) lats in
  let* rhosum := lift (mbroadcast PrimFloat.add (drop_last_col rho) (drop_first_col rho)) in
  let rhoavg := mmap (PrimFloat.mul 0.5%float) rhosum in
  let* num := lift (mbroadcast PrimFloat.mul (mmap (PrimFloat.div G) rhoavg) drho) in
  let den := as_row (map (PrimFloat.mul (PrimFloat.mul 2%float OMEGA)) sinphi) in
  let* dudz := lift (mbroadcast PrimFloat.div num den) in
  let* depth := asarray coll "depth" in
  let* u := lift (uintegrate dudz depth) in
  let* _ := store_columns dudzkey ukey overwrite dudz u 0 midcasts in
  ret coll.

End CollectionMethods.

(** ** Masks and counts of missing values *)

(** The [fields] argument of [nanmask] and [nvalid], when it is given: a
    string, or a tuple or list of names. *)
Inductive fieldsel : Type :=
| FStr (s : string)
| FSeq (ks : list string).

(** [k in fields]: membership in a sequence, the substring test on a
    string. *)
Definition py_in (k : string) (fields : fieldsel) : bool :=
  match fields with
  | FSeq ks => bool_decide (k ∈ ks)
  | FStr s => match String.index 0 k s with Some _ => true | None => false end
  end.

(** [np.isnan(a)] *)
Definition np_isnan (xs : list float) : list bool := map PrimFloat.is_nan xs.

(** [m.sum(axis=0)]: the rows are added up one after the other, starting
    from the first; without rows the sums are zero. *)
Definition sum_axis0 (m : matrix) : list float :=
  match mrows m with
  | [] => replicate (ncols m) 0%float
  | r :: rest => foldl (zip_with PrimFloat.add) r rest
  end.

(** The selection of [nanmask]: [self._fields] by default. *)
Definition nanmask_fields (c : Cast) (fields : option fieldsel) : fieldsel :=
  match fields with None => FSeq (_fields c) | Some f => f end.

Definition nanmask (self : loc) (fields : option fieldsel) : M (list bool) :=
  let* c := get_cast self in
  let fields := nanmask_fields c fields in
  let* vectors :=
    mapM (fun kv : string * vec => elems kv.2)
         (filter (fun kv : string * vec => py_in kv.1 fields = true) (data c)) in
  let* m := lift (np_vstack vectors) in
  ret (np_isnan (sum_axis0 m)).

(** [~np.isnan(a)] for an array of floats *)
Definition not_nan (xs : list float) : list bool :=
  map (fun x => negb (PrimFloat.is_nan x)) xs.

(** [~np.isnan(a)] for an array of booleans: no boolean is NaN *)
Definition not_nan_mask (bs : list bool) : list bool := map (fun _ => true) bs.

(** [a & b] on two boolean arrays, with numpy's broadcasting. *)
Definition broadcast_and (xs ys : list bool) : outcome (list bool) :=
  if bool_decide (length xs = length ys) then Ok (zip_with andb xs ys)
  else match xs, ys with
       | [x], _ => Ok (map (andb x) ys)
       | _, [y] => Ok (map (fun x => andb x y) xs)
       | _, _ => Raise ValueError
       end.

(** [sum(mask)]: the number of cells that are [True] *)
Definition count_true (bs : list bool) : Z :=
  foldl (fun n (b : bool) => if b then (n + 1)%Z else n) 0%Z bs.

(** [reduce(lambda a, b: (~np.isnan(a)) & (~np.isnan(b)), vectors)] from
    its second call on: the first argument of the lambda is then the mask
    that the call before returned, and the second the next vector. *)
Fixpoint reduce_masks (acc : list bool) (vectors : list (list float))
  : outcome (list bool) :=
  match vectors with
  | [] => Ok acc
  | b :: rest =>
      match broadcast_and (not_nan_mask acc) (not_nan b) with
      | Ok m => reduce_masks m rest
      | Raise e => Raise e
      end
  end.

(** The names that [nvalid] looks up: [self._fields] by default, and a
    string as the tuple of that one name. *)
Definition nvalid_fields (c : Cast) (fields : option fieldsel) : list string :=
  match fields with
  | None => _fields c
  | Some (FStr s) => [s]
  | Some (FSeq ks) => ks
  end.

(** [nvalid(fields)].  With one vector the lambda is not used; with more,
    [reduce] calls it first on the first two vectors; without any,
    [reduce] raises [TypeError]. *)
Definition nvalid (self : loc) (fields : option fieldsel) : M Z :=
  let* c := get_cast self in
  let fields := nvalid_fields c fields in
  let* vectors :=
    mapM (fun k => let* v := lift (dlookup (data c) k) in elems v) fields in
  match vectors with
  | [] => raise TypeError
  | [v] => ret (count_true (not_nan v))
  | a :: b :: rest =>
      let* m := lift (broadcast_and (not_nan a) (not_nan b)) in
      let* r := lift (reduce_masks m rest) in
      ret (count_true r)
  end.

(** ** Padding a collection *)

Section Defray.
Context `{E : Externals}.

(** [len(cast)]: the builtin refuses a negative [__len__]. *)
Definition builtin_len (self : loc) : M Z :=
  let* n := Cast__len__ self in
  if (n <? 0)%Z then raise ValueError else ret n.

(** The loop of [defray]: every cast is copied, and the copy extended
    when it is shorter than [n]. *)
Fixpoint defray_loop (n : Z) (padvalue : float) (cs : list loc) : M (list loc) :=
  match cs with
  | [] => ret []
  | cast_ :: rest =>
      let* cast := deepcopy cast_ in
      let* l := builtin_len cast in
      let* _ :=
        if (l <? n)%Z then
          let* l' := builtin_len cast in
          extend cast (n - l') padvalue
        else ret tt in
      let* casts := defray_loop n padvalue rest in
      ret (cast :: casts)
  end.

(** [defray(padvalue)]; [max] of no lengths raises [ValueError]. *)
Definition defray (self : CastCollection) (padvalue : float) : M CastCollection :=
  let* lens := mapM builtin_len (casts self) in
  match lens with
  | [] => raise ValueError
  | l0 :: rest =>
      let n := foldl Z.max l0 rest in
      let* casts := defray_loop n padvalue (casts self) in
      ret (mkColl casts)
  end.

End Defray.

(** ** The classes and their type tags *)

(** The classes of [cast.py]. *)
Inductive narwhal_class : Set :=
| ClassCast | ClassCTDCast | ClassLADCP | ClassXBTCast | ClassCastCollection.

(** The class attribute [_type] *)
Definition _type (k : narwhal_class) : string :=
  match k with
  | ClassCast => "cast"
  | ClassCTDCast => "ctdcast"
  | ClassLADCP => "ladcpcast"
  | ClassXBTCast => "xbtcast"
  | ClassCastCollection => "castcollection"
  end.

(** ** [plotting.plot_ts_average] *)

Section Plotting.
(** The arguments are objects [O] with a [_type]; what is plotted are
    casts [A].  The averaging of [util] and the drawing of [plot_ts] are
    not part of the module. *)
Context {O A : Type}.
Context (obj_type : O -> string).
Context (as_cast : O -> A).
Context (ccmeanp : list O -> outcome A) (ccmeanp1 : O -> outcome A).
Context (plot_ts : list A -> outcome unit).

(** The loop of [plot_ts_average] over its arguments. *)
Fixpoint avgcasts_loop (casts : list O) : outcome (list A) :=
  match casts with
  | [] => Ok []
  | cast :: rest =>
      let continue (a : A) :=
        match avgcasts_loop rest with
        | Ok avgcasts => Ok (a :: avgcasts)
        | Raise e => Raise e
        end in
      if bool_decide (obj_type cast = "ctd_cast") then continue (as_cast cast)
      else if bool_decide (obj_type cast = "ctd_collection") then
        match ccmeanp1 cast with
        | Ok a => continue a
        | Raise e => Raise e
        end
      else Raise TypeError
  end.

Definition plot_ts_average (casts : list O) : outcome unit :=
  if forallb (fun c => bool_decide (obj_type c = "ctd_cast")) casts then
    match ccmeanp casts with
    | Ok a => plot_ts [a]
    | Raise e => Raise e
    end
  else
    match avgcasts_loop casts with
    | Ok avgcasts => plot_ts avgcasts
    | Raise e => Raise e
    end.

End Plotting.

(** ** [CastCollection.thermal_wind] *)

Section ThermalWind.
Context `{E : Externals}.
(** [util.diff2_dinterp] *)
Context (diff2_dinterp : matrix -> list float -> outcome matrix).

(** The loop of [thermal_wind] that gives a depth to the casts that have
    none: [if "depth" not in cast.data.keys(): cast.add_depth()]. *)
Fixpoint add_depths (cs : list loc) : M unit :=
  match cs with
  | [] => ret tt
  | cast :: rest =>
      let* c := get_cast cast in
      let* _ :=
        if dmem (data c) "depth" then ret tt
        else let* _ := add_depth cast None in ret tt in
      add_depths rest
  end.

Definition thermal_wind (self : CastCollection) (rhokey : option string)
    (dudzkey ukey : string) (overwrite : bool) : M unit :=
  let* rhokey :=
    match rhokey with
    | Some k => ret k
    | None =>
        let* rhokeys := mapM add_density (casts self) in
        match rhokeys with
        | [] => raise IndexError
        | r0 :: rest =>
            if existsb (fun r => bool_decide (r <> r0)) rest
            then raise NameError
            else ret r0
        end
    end in
  let* rho := asarray self rhokey in
  let* _ := add_depths (casts self) in
  let* pd := projdist 0%float PrimFloat.add mkPoint distance self in
  let* drho := lift (diff2_dinterp rho pd) in
  let* lats := mapM (fun c => coords_at c 1) (casts self) in
  let sinphi :=
    map (fun lat => np_sin (PrimFloat.div (PrimFloat.mul lat np_pi) 180.0%float)) lats in
  let* num := lift (mbroadcast PrimFloat.mul (mmap (PrimFloat.div G) rho) drho) in
  let den := as_row (map (PrimFloat.mul (PrimFloat.mul 2%float OMEGA)) sinphi) in
  let* dudz := lift (mbroadcast PrimFloat.div num den) in
  let* depth := asarray self "depth" in
  let* u := lift (uintegrate dudz depth) in
  store_columns dudzkey ukey overwrite dudz u 0 (casts self).

End ThermalWind.

(** ** Equality of casts *)

(** The elementwise [a != b] of numpy on two 1-d arrays, when their
    shapes broadcast. *)
Definition np_not_equal (xs ys : list float) : option (list bool) :=
  let ne (x y : float) := negb (PrimFloat.eqb x y) in
  if bool_decide (length xs = length ys) then Some (zip_with ne xs ys)
  else match xs, ys with
       | [x], _ => Some (map (ne x) ys)
       | _, [y] => Some (map (fun x => ne x y) xs)
       | _, _ => None
       end.

Section Equality.
(** What the embedding does not hold of Python and numpy: the comparison
    [!=] of the property dictionaries and of the coordinates of two
    casts and of two sequences, which go by the identity of the objects
    before their values, and the result of [!=] on two arrays whose
    shapes do not broadcast, which depends on the version of numpy. *)
Context (properties_ne coords_ne : loc -> loc -> M bool).
Context (sequence_ne : list float -> list float -> M bool).
Context (mismatch_ne : M bool).

(** [np.any(a != b)]: numpy compares by value as soon as one operand is
    an ndarray. *)
Definition any_ne (a b : vec) : M bool :=
  match a, b with
  | Seq xs, Seq ys => sequence_ne xs ys
  | _, _ =>
      let* xs := elems a in
      let* ys := elems b in
      match np_not_equal xs ys with
      | Some ne => ret (existsb (fun t : bool => t) ne)
      | None => mismatch_ne
      end
  end.

(** [any(np.any(self.data[k] != other.data[k]) for k in self._fields)] *)
Fixpoint any_field_ne (d d' : dict vec) (fields : list string) : M bool :=
  match fields with
  | [] => ret false
  | k :: rest =>
      let* a := lift (dlookup d k) in
      let* b := lift (dlookup d' k) in
      let* ne := any_ne a b in
      if ne : bool then ret true else any_field_ne d d' rest
  end.

Definition Cast__eq__ (self other : loc) : M bool :=
  let* c := get_cast self in
  let* c' := get_cast other in
  if negb (bool_decide (_fields c = _fields c')) then ret false
  else
    let* pne := properties_ne self other in
    if pne : bool then ret false
    else
      let* cne := coords_ne self other in
      if cne : bool then ret false
      else
        let* dne := any_field_ne (data c) (data c') (_fields c) in
        ret (negb dne).

(** [Cast.__ne__] *)
Definition Cast__ne__ (self other : loc) : M bool :=
  let* e := Cast__eq__ self other in ret (negb e).

(** The loop of [CastCollection.__eq__] over [zip(self, other)]. *)
Fixpoint casts_equal (cs cs' : list loc) : M bool :=
  match cs, cs' with
  | ca :: rest, cb :: rest' =>
      let* ne := Cast__ne__ ca cb in
      if ne : bool then ret false else casts_equal rest rest'
  | _, _ => ret true
  end.

(** [CastCollection.__eq__] on two collections. *)
Definition CastCollection__eq__ (self other : CastCollection) : M bool :=
  if negb (bool_decide (length (casts self) = length (casts other))) then ret false
  else casts_equal (casts self) (casts other).

End Equality.

(** ** A concrete world and concrete casts

    One choice of the collaborators, to run the methods on concrete
    inputs: [np.empty] returns zeroed memory, [np.interp] is a step
    function, [gsw] computes a density that only depends on salinity, and
    a point is its pair of coordinates with the taxicab distance. *)

Fixpoint cummax (m : float) (xs : list float) : list float :=
  match xs with
  | [] => []
  | x :: rest => let m' := if PrimFloat.ltb m x then x else m in m' :: cummax m' rest
  end.

Fixpoint step_interp (xp fp : list float) (left right x : float) : float :=
  match xp, fp with
  | a :: xp', b :: fp' =>
      if PrimFloat.ltb x a then left else step_interp xp' fp' b right x
  | _, _ => left
  end.

Definition world : Externals := {|
  uninit := fun _ => 0%float;
  np_interp_point := step_interp;
  np_sin := fun x => x;
  force_monotonic := fun xs => match xs with [] => [] | x :: rest => x :: cummax x rest end;
  diff2_inner := fun m d =>
    Ok (mtab (nrows m) (ncols m - 1)
             (fun i j => PrimFloat.sub (mget m i (S j)) (mget m i j)));
  uintegrate := fun dudz z => Ok dudz;
  gsw_sa_from_sp := fun sal pres lon lat => Ok sal;
  gsw_ct_from_t := fun SA t pres => Ok t;
  gsw_rho := fun SA CT pres => Ok (map (PrimFloat.add 1000%float) SA);
  Point := float * float;
  mkPoint := fun v =>
    match v with
    | PVec (Seq [x; y]) => Ok (x, y)
    | _ => Raise TypeError
    end;
  distance := fun a b =>
    PrimFloat.add (PrimFloat.abs (PrimFloat.sub b.1 a.1))
                  (PrimFloat.abs (PrimFloat.sub b.2 a.2))
|}.

(** A cast with a pressure and a density field, alone in its store. *)
Definition ex_cast : Cast :=
  mkCast [("coordinates", PNone)] "pres"
         [("pres", Arr 0); ("rho", Arr 1)] ["pres"; "rho"] 2.

Definition ex_store : store :=
  mkStore [[0%float; 10%float]; [1025%float; 1026%float]] [ex_cast].

(** A cast whose density anomaly is not monotonic in pressure. *)
Definition nm_cast : Cast :=
  mkCast [("coordinates", PNone)] "pres"
         [("pres", Arr 0); ("sigma", Arr 1)] ["pres"; "sigma"] 3.

Definition nm_store : store :=
  mkStore [[0%float; 10%float; 20%float]; [27%float; 26%float; 28%float]] [nm_cast].

(** Three stations on the equator, one degree apart, sampled at the same
    two pressures. *)
Definition station (lon : float) (p t s : loc) : Cast :=
  mkCast [("coordinates", PVec (Seq [lon; 0%float])); ("depth", PNum 100%float)]
         "pres" [("pres", Arr p); ("sal", Arr s); ("temp", Arr t)]
         ["pres"; "sal"; "temp"] 2.

Definition track_store : store :=
  mkStore [[0%float; 10%float]; [12%float; 11%float]; [35%float; 35%float]]
          [station 0%float 0 1 2; station 1%float 0 1 2; station 2%float 0 1 2].

Definition track : CastCollection := mkColl [0; 1; 2].

(** Points without a metric: every hop between two stations counts 1. *)
Definition hop_point (cv : pyval) : outcome unit :=
  match cv with
  | PVec (Seq [_; _]) => Ok tt
  | _ => Raise TypeError
  end.

(** A CTD cast whose density has one leading NaN. *)
Definition gappy_cast : Cast :=
  mkCast [("coordinates", PVec (Seq [0%float; 0%float]))] "pres"
         [("pres", Arr 0); ("rho", Arr 1)] ["pres"; "rho"] 3.

Definition gappy_store : store :=
  mkStore [[0%float; 10%float; 20%float]; [NaN; 1025%float; 1026%float]] [gappy_cast].

(** A CTD cast of three levels whose salinity misses the first value. *)
Definition ctd_cast : Cast :=
  mkCast [("coordinates", PVec (Seq [0%float; 0%float]))] "pres"
         [("pres", Arr 0); ("sal", Arr 1); ("temp", Arr 2)]
         ["pres"; "sal"; "temp"] 3.

Definition ctd_store : store :=
  mkStore [[0%float; 10%float; 20%float]; [NaN; 35%float; 35%float];
           [4%float; 3%float; 2%float]] [ctd_cast].

(** Two casts of different lengths that only hold a pressure. *)
Definition short_cast : Cast :=
  mkCast [("coordinates", PNone)] "pres" [("pres", Arr 0)] ["pres"] 2.

Definition long_cast : Cast :=
  mkCast [("coordinates", PNone)] "pres" [("pres", Arr 1)] ["pres"] 3.

Definition ragged_store : store :=
  mkStore [[0%float; 10%float]; [0%float; 10%float; 20%float]]
          [short_cast; long_cast].

Definition ragged : CastCollection := mkColl [0; 1].

(** A cast of a single level. *)
Definition single_cast : Cast :=
  mkCast [("coordinates", PVec (Seq [0%float; 0%float]))] "pres"
         [("pres", Arr 0); ("rho", Arr 1)] ["pres"; "rho"] 1.

Definition single_store : store :=
  mkStore [[5%float]; [1025%float]] [single_cast].

(** * The vocabulary of the specification *)

(** ** Field names *)

(** The [j]-th name that [_addkeydata] tries for [key]. *)
Definition candidate (key : string) (j : nat) : string :=
  match j with
  | O => key
  | S _ => suffixed key (Z.of_nat j + 1)
  end.

(** The cast that [_addkeydata] leaves behind when it stores [dat] under
    the new name [k]. *)
Definition with_field (c : Cast) (k : string) (dat : vec) : Cast :=
  set_data (if bool_decide (k ∈ _fields c) then c
            else set_fields c (_fields c ++ [k]))
           (data c ++ [(k, dat)]).

(** The cast that [_addkeydata] writes when it stores [dat] under [k]. *)
Definition stored (c : Cast) (k : string) (dat : vec) : Cast :=
  set_data (if bool_decide (k ∈ _fields c) then c
            else set_fields c (_fields c ++ [k]))
           (dset (data c) k dat).

(** ** Reading the store *)

(** The elements of a vector of numbers in a store, when its reference
    is valid; a container that holds no numbers has none. *)
Definition vec_elems (st : store) (v : vec) : option (list float) :=
  match v with
  | Seq xs => Some xs
  | Arr l => ndarrays st !! l
  | Bag _ | Arr0 _ => None
  end.

(** [v] is a vector of [n] elements in [st]. *)
Definition has_len (st : store) (v : vec) (n : Z) : Prop :=
  exists xs, vec_elems st v = Some xs /\ Z.of_nat (length xs) = n.

(** A scalar, or a vector of numbers whose reference, if any, is
    valid. *)
Definition val_ok (st : store) (val : pyval) : Prop :=
  match val with
  | PVec w => is_Some (vec_elems st w)
  | _ => True
  end.

(** [val] is a vector of [n] numbers: among the values of [val_ok], the
    ones that [__init__] and [__setitem__] store in [data]. *)
Definition vector_of_len (st : store) (val : pyval) (n : Z) : Prop :=
  exists w, val = PVec w /\ has_len st w n.

(** ** The data model *)

(** [data] is a dictionary that holds the primary key, and every vector in
    it has exactly [len(cast)] elements. *)
Definition cast_inv (st : store) (c : Cast) : Prop :=
  NoDup (keys (data c)) /\
  is_Some (dget (data c) (primarykey c)) /\
  forall k v, dget (data c) k = Some v -> has_len st v (_len c).

(** Every name of [fields] is a key of [data]. *)
Definition fields_in_data (c : Cast) : Prop :=
  forall a, a ∈ _fields c -> is_Some (dget (data c) a).

(** The state of the constructor's loop: the invariant without the
    length attribute, which is only set at the end. *)
Definition fields_have_len (st : store) (c : Cast) (n : Z) : Prop :=
  NoDup (keys (data c)) /\
  is_Some (dget (data c) (primarykey c)) /\
  forall k v, dget (data c) k = Some v -> has_len st v n.

(** [cells] is the observation at position [j]: one pair for every name of
    [fields], with the [j]-th element of that field's vector. *)
Definition observation_at (st : store) (d : dict vec) (fields : list string)
    (j : nat) (cells : list (string * float)) : Prop :=
  Forall2 (fun a cell =>
             cell.1 = a /\
             exists v xs, dget d a = Some v /\ vec_elems st v = Some xs /\
                          xs !! j = Some cell.2)
          fields cells.

(** The test of [interpolate]: [np.all(np.diff(x) > 0.0)]. *)
Definition strictly_increasing (xs : list float) : bool :=
  forallb (fun d => PrimFloat.ltb 0 d) (np_diff xs).

(** [c'] is [c] with more fields: what a cast may become when fields are
    added to it without overwriting. *)
Definition cast_grows (c c' : Cast) : Prop :=
  properties c' = properties c /\
  primarykey c' = primarykey c /\
  _len c' = _len c /\
  data c `prefix_of` data c' /\
  _fields c `prefix_of` _fields c'.

(** ** Distances along the track *)

Section ProjdistSpec.
Context {R P : Type} (add : R -> R -> R).
Context (point : pyval -> outcome P) (dist : P -> P -> R).

(** The cast at [o] has coordinates, and they make the point [p]. *)
Definition located (st : store) (o : loc) (p : P) : Prop :=
  exists c cv, objects st !! o = Some c /\
               dget (properties c) "coordinates" = Some cv /\ point cv = Ok p.

(** [d] continues a cumulated distance: from [last] at the point [a], each
    entry adds the distance to the next point of [ps]. *)
Fixpoint cumulates (a : P) (last : R) (ps : list P) (d : list R) : Prop :=
  match ps, d with
  | [], [] => True
  | b :: ps', x :: d' => x = add last (dist a b) /\ cumulates b x ps' d'
  | _, _ => False
  end.

(** What the order of the cumulated distances needs of the numbers:
    adding a distance that is not negative to a cumulated distance does
    not decrease it.  This holds of the reals, and of binary64 floats
    with [<=], where [0 <= x] excludes NaN. *)
Definition sum_grows (zero : R) (le : R -> R -> Prop) : Prop :=
  le zero zero /\
  (forall x y z, le x y -> le y z -> le x z) /\
  (forall x d, le zero x -> le zero d -> le x (add x d)).

(** The distance between every two consecutive points of [ps] is not
    negative. *)
Definition hops_nonneg (zero : R) (le : R -> R -> Prop) (ps : list P) : Prop :=
  forall i a b, ps !! i = Some a -> ps !! S i = Some b -> le zero (dist a b).

End ProjdistSpec.

(** ** What a method may write

    A method is run from a store of [na] arrays and [no] cast objects.
    [framed] relates a later store to an earlier one: the arrays below
    [na] are unchanged, and a cast below [no] is related to what it was by
    [Rc] (equality, when old casts must not change at all).  A triple
    [hoare P m Q] says that [m], started in a store that satisfies [P],
    ends in a store framed by the one it started from, and with a result
    and store that satisfy [Q] when it does not raise. *)

Section FrameSpec.
Context (Rc : Cast -> Cast -> Prop) (na no : nat).

Definition framed (st st' : store) : Prop :=
  (forall l, l < na -> ndarrays st' !! l = ndarrays st !! l) /\
  (forall o c, o < no -> objects st !! o = Some c ->
               exists c', objects st' !! o = Some c' /\ Rc c c') /\
  length (ndarrays st) <= length (ndarrays st') /\
  length (objects st) <= length (objects st').

Definition within (st : store) : Prop :=
  na <= length (ndarrays st) /\ no <= length (objects st).

Definition hoare {A} (P : store -> Prop) (m : M A) (Q : A -> store -> Prop) : Prop :=
  forall st, within st -> P st ->
    framed st (m st).1 /\ forall a, (m st).2 = Ok a -> Q a (m st).1.

(** A method that only writes new objects, with a fact about its result. *)
Definition frames {A} (m : M A) (phi : A -> Prop) : Prop :=
  hoare (fun _ => True) m (fun a _ => phi a).

(** [Rc] lets a cast gain a field under a name that was free. *)
Definition grows_ok : Prop :=
  forall c k d, dget (data c) k = None -> Rc c (with_field c k d).

End FrameSpec.

(** A method that reads the store and leaves it as it is. *)
Definition pure_read {A} (m : M A) : Prop := forall st, (m st).1 = st.

(** ** Copies *)

(** Every array that [memo] records as copied has a copy with the same
    elements. *)
Definition memo_ok (st : store) (memo : list (loc * loc)) : Prop :=
  forall a b, memo_get memo a = Some b ->
    exists xs, ndarrays st !! a = Some xs /\ ndarrays st !! b = Some xs.

(** The cast [c'] holds, in the store [st'], the vectors that [c] holds
    in [st], each followed by [pad]. *)
Definition padded_copy (st st' : store) (c c' : Cast) (pad : list float) : Prop :=
  keys (data c') = keys (data c) /\
  forall k v xs, dget (data c) k = Some v -> vec_elems st v = Some xs ->
    exists v', dget (data c') k = Some v' /\ vec_elems st' v' = Some (xs ++ pad).

(** ** Failure *)

(** A computation that raises from every store. *)
Definition always_raises {A} (m : M A) : Prop :=
  forall st, exists st' e, m st = (st', Raise e).

(** ** Field names and data *)

(** The names of [fields] are the keys of [data]. *)
Definition fields_sync (c : Cast) : Prop :=
  forall a, a ∈ _fields c <-> a ∈ keys (data c).

(** ** Complete observations *)

(** The cell of [xs] at row [j] exists and is not NaN. *)
Definition valid_at (j : nat) (xs : list float) : bool :=
  match xs !! j with
  | Some x => negb (PrimFloat.is_nan x)
  | None => false
  end.

(** The number of rows below [n] where not one of the vectors holds a
    NaN: the complete observations. *)
Definition complete_rows (n : nat) (vectors : list (list float)) : Z :=
  Z.of_nat (length (filter (fun j => forallb (valid_at j) vectors = true) (seq 0 n))).

(** The vectors of the cast [c] under the names [ks], in order. *)
Definition field_vectors (st : store) (c : Cast) (ks : list string)
    (vectors : list (list float)) : Prop :=
  Forall2 (fun k xs => exists v, dget (data c) k = Some v /\ vec_elems st v = Some xs)
          ks vectors.
(** * Properties *)

(** ** Dictionaries *)

Section DictFacts.
Context {V : Type}.
Implicit Types (d : dict V) (k : string) (v : V).

Lemma dget_dset_eq d k v : dget (dset d k v) k = Some v.
Proof.
  induction d as [|[k' v'] d IH]; simpl.
  - by rewrite decide_True.
  - destruct (decide (k = k')) as [->|Hne]; simpl.
    + by rewrite decide_True.
    + by rewrite decide_False.
Qed.

Lemma dget_dset_ne d k k' v : k <> k' -> dget (dset d k v) k' = dget d k'.
Proof.
  intros Hne. induction d as [|[k0 v0] d IH]; simpl.
  - by rewrite decide_False.
  - destruct (decide (k = k0)) as [->|Hk]; simpl.
    + by rewrite !decide_False.
    + destruct (decide (k' = k0)); [done|apply IH].
Qed.

Lemma dget_None_keys d k : dget d k = None <-> k ∉ keys d.
Proof.
  induction d as [|[k' v'] d IH]; simpl.
  - split; [intros _; apply not_elem_of_nil|done].
  - rewrite not_elem_of_cons. destruct (decide (k = k')) as [->|Hne].
    + split; [done|]. by intros [? _].
    + rewrite IH. split; [by intros ?|by intros [_ ?]].
Qed.

Lemma dmem_true_keys d k : dmem d k = true <-> k ∈ keys d.
Proof.
  unfold dmem. destruct (dget d k) eqn:E.
  - split; [intros _|done]. destruct (decide (k ∈ keys d)) as [|Hn]; [done|].
    apply dget_None_keys in Hn. congruence.
  - split; [done|]. intros Hin. by apply dget_None_keys in E.
Qed.

Lemma dmem_false d k : dmem d k = false <-> dget d k = None.
Proof. unfold dmem. destruct (dget d k); naive_solver. Qed.

(** Assigning to a new key appends it and touches nothing else. *)
Lemma dset_fresh d k v : dget d k = None -> dset d k v = d ++ [(k, v)].
Proof.
  induction d as [|[k' v'] d IH]; simpl; [done|].
  destruct (decide (k = k')); [done|]. intros H. by rewrite IH.
Qed.

Lemma keys_dset_fresh d k v : dget d k = None -> keys (dset d k v) = keys d ++ [k].
Proof. intros H. rewrite dset_fresh by done. unfold keys. by rewrite map_app. Qed.

Lemma keys_dset_old d k v : is_Some (dget d k) -> keys (dset d k v) = keys d.
Proof.
  induction d as [|[k' v'] d IH]; simpl.
  - by intros [? ?].
  - destruct (decide (k = k')); simpl; [done|]. intros H. by rewrite IH.
Qed.

End DictFacts.

(** ** Field names: [key], [key_2], [key_3], ... *)

Lemma string_length_app (s1 s2 : string) :
  String.length (s1 +:+ s2) = String.length s1 + String.length s2.
Proof. induction s1; simpl; [done|]. by rewrite IHs1. Qed.

Lemma suffixed_inj key : Inj (=) (=) (suffixed key).
Proof.
  intros i j H. unfold suffixed in H.
  apply (inj (String.append key)), (inj (String.append "_")) in H.
  by apply (inj pretty) in H.
Qed.

Lemma suffixed_neq key i : suffixed key i <> key.
Proof.
  intros H. apply (f_equal String.length) in H.
  unfold suffixed in H. rewrite !string_length_app in H. simpl in H. lia.
Qed.

Lemma candidate_inj key : Inj (=) (=) (candidate key).
Proof.
  intros [|a] [|b] H; simpl in H; try done.
  - by apply symmetry, suffixed_neq in H.
  - by apply suffixed_neq in H.
  - apply suffixed_inj in H. lia.
Qed.

Lemma candidate_S key j : candidate key (S j) = suffixed key (Z.of_nat j + 2).
Proof. simpl. f_equal. lia. Qed.

(** What the loop computes from its [j]-th candidate on. *)
Lemma unused_key_spec fuel (d : dict vec) key j :
  match unused_key fuel d key (candidate key j) (Z.of_nat j + 2) with
  | Some k => exists t, t < fuel /\ k = candidate key (j + t) /\ dget d k = None /\
                        forall t', t' < t -> candidate key (j + t') ∈ keys d
  | None => forall t, t < fuel -> candidate key (j + t) ∈ keys d
  end.
Proof.
  revert j. induction fuel as [|fuel IH]; intros j; simpl.
  - intros t Ht. lia.
  - destruct (dmem d (candidate key j)) eqn:E.
    + specialize (IH (S j)). rewrite candidate_S in IH.
      replace (Z.of_nat (S j) + 2)%Z with (Z.of_nat j + 2 + 1)%Z in IH by lia.
      apply dmem_true_keys in E.
      destruct (unused_key fuel d key _ _) as [k|].
      * destruct IH as (t & Ht & -> & Hk & Hall). exists (S t).
        replace (j + S t) with (S j + t) by lia. repeat split; [lia|done|].
        intros [|t'] Ht'; [by rewrite Nat.add_0_r|].
        replace (j + S t') with (S j + t') by lia. apply Hall. lia.
      * intros [|t] Ht; [by rewrite Nat.add_0_r|].
        replace (j + S t) with (S j + t) by lia. apply IH. lia.
    + apply dmem_false in E. exists 0. rewrite Nat.add_0_r.
      repeat split; [lia|done|]. intros t' Ht'. lia.
Qed.

(** The candidates are pairwise distinct, so a dictionary cannot hold one
    more of them than it has keys: the loop of [_addkeydata] ends. *)
Lemma candidates_exhaust (d : dict vec) key :
  ~ (forall t, t < S (length d) -> candidate key t ∈ keys d).
Proof.
  intros Hall.
  assert (Hsub : candidate key <$> seq 0 (S (length d)) ⊆+ keys d).
  { apply NoDup_submseteq.
    - pose proof (candidate_inj key). apply (NoDup_fmap_2 (candidate key)), NoDup_seq.
    - intros x (t & -> & Ht)%list_elem_of_fmap. apply Hall.
      apply elem_of_seq in Ht. lia. }
  apply submseteq_length in Hsub.
  rewrite length_fmap, length_seq in Hsub. unfold keys in Hsub.
  rewrite length_map in Hsub. lia.
Qed.

Lemma unused_key_total (d : dict vec) key :
  exists j, unused_key (S (length d)) d key key 2 = Some (candidate key j) /\
            dget d (candidate key j) = None /\
            forall j', j' < j -> candidate key j' ∈ keys d.
Proof.
  pose proof (unused_key_spec (S (length d)) d key 0) as H.
  change (candidate key 0) with key in H. change (Z.of_nat 0 + 2)%Z with 2%Z in H.
  destruct (unused_key (S (length d)) d key key 2) as [k|].
  - destruct H as (t & _ & -> & Hk & Hall). exists t. by repeat split.
  - by apply candidates_exhaust in H.
Qed.

(** ** [_addkeydata] *)

Lemma addkeydata_run (st : store) (self : loc) (c : Cast) (key : string) (dat : vec) :
  objects st !! self = Some c ->
  exists j,
    _addkeydata self key dat false st =
      (mkStore (ndarrays st) (<[self := with_field c (candidate key j) dat]> (objects st)),
       Ok (candidate key j)) /\
    (forall j', j' < j -> candidate key j' ∈ keys (data c)) /\
    dget (data c) (candidate key j) = None.
Proof.
  intros Hc. destruct (unused_key_total (data c) key) as (j & Hj & Hfree & Hall).
  exists j. split; [|done].
  unfold _addkeydata, bind, get_cast, put_cast, ret. rewrite Hc, Hj. simpl. rewrite Hc.
  unfold with_field. destruct (bool_decide _); simpl; by rewrite dset_fresh.
Qed.

(** C4: with [overwrite=False], [_addkeydata] never replaces an existing
    field.  The names [key], [key_2], [key_3], ... are tried in this order,
    the first one that is not a key of [data] is used and returned, and the
    data dictionary only gains that one entry.  A second call with the same
    base name uses a different name, and that name is suffixed. *)
Theorem addkeydata_never_overwrites
    (st : store) (self : loc) (c : Cast) (key : string) (d1 d2 : vec) :
  objects st !! self = Some c ->
  exists j1 st1 c1,
    _addkeydata self key d1 false st = (st1, Ok (candidate key j1)) /\
    (forall j, j < j1 -> candidate key j ∈ keys (data c)) /\
    dget (data c) (candidate key j1) = None /\
    objects st1 !! self = Some c1 /\
    data c1 = data c ++ [(candidate key j1, d1)] /\
    exists j2 st2 c2,
      _addkeydata self key d2 false st1 = (st2, Ok (candidate key j2)) /\
      0 < j2 /\
      candidate key j2 <> candidate key j1 /\
      objects st2 !! self = Some c2 /\
      data c2 = data c ++ [(candidate key j1, d1); (candidate key j2, d2)].
Proof.
  intros Hc.
  destruct (addkeydata_run st self c key d1 Hc) as (j1 & Hrun1 & Hall1 & Hfree1).
  set (c1 := with_field c (candidate key j1) d1) in *.
  set (st1 := mkStore (ndarrays st) (<[self := c1]> (objects st))) in *.
  assert (Hc1 : objects st1 !! self = Some c1).
  { simpl. apply list_lookup_insert_eq. by eapply lookup_lt_Some. }
  assert (Hd1 : data c1 = data c ++ [(candidate key j1, d1)]) by done.
  exists j1, st1, c1. repeat split; try done.
  destruct (addkeydata_run st1 self c1 key d2 Hc1) as (j2 & Hrun2 & Hall2 & Hfree2).
  assert (Hin1 : candidate key j1 ∈ keys (data c1)).
  { rewrite Hd1. unfold keys. rewrite map_app. apply elem_of_app. right.
    simpl. apply list_elem_of_singleton. done. }
  assert (Hne : j2 <> j1).
  { intros ->. apply dget_None_keys in Hfree2. done. }
  assert (Hkey : key ∈ keys (data c1)).
  { destruct j1 as [|j1]; [done|].
    rewrite Hd1. unfold keys. rewrite map_app. apply elem_of_app. left.
    apply (Hall1 0). lia. }
  eexists j2, _, _. split; [exact Hrun2|]. repeat split.
  - destruct j2 as [|j2]; [|lia]. apply dget_None_keys in Hfree2. done.
  - intros Heq. by apply candidate_inj in Heq.
  - simpl. rewrite list_insert_insert_eq. apply list_lookup_insert_eq.
    by eapply lookup_lt_Some.
  - simpl. by rewrite <-app_assoc.
Qed.

Lemma addkeydata_never_overwrites_witness :
  objects ex_store !! 0 = Some ex_cast /\
  exists j1 st1 j2 st2,
    _addkeydata 0 "rho" (Arr 0) false ex_store = (st1, Ok (candidate "rho" j1)) /\
    _addkeydata 0 "rho" (Arr 0) false st1 = (st2, Ok (candidate "rho" j2)) /\
    candidate "rho" j2 <> candidate "rho" j1.
Proof.
  split; [reflexivity|].
  destruct (addkeydata_never_overwrites ex_store 0 ex_cast "rho" (Arr 0) (Arr 0) eq_refl)
    as (j1 & st1 & c1 & H1 & _ & _ & _ & _ & j2 & st2 & c2 & H2 & _ & Hne & _).
  exists j1, st1, j2, st2. auto.
Defined.

(** ** Reading the store *)

Lemma elems_Some st v xs : vec_elems st v = Some xs -> elems v st = (st, Ok xs).
Proof.
  destruct v; simpl; unfold ret, read_array; [congruence| |done|done]. by intros ->.
Qed.

Lemma elems_None st v :
  vec_elems st v = None -> exists e, elems v st = (st, Raise e).
Proof.
  destruct v; simpl; [done| |by eexists..]. unfold read_array. intros ->. by eexists.
Qed.

Lemma elems_store st v : (elems v st).1 = st.
Proof.
  destruct (vec_elems st v) eqn:E.
  - by rewrite (elems_Some _ _ _ E).
  - by destruct (elems_None _ _ E) as [e ->].
Qed.

Lemma len_elems st v xs :
  vec_elems st v = Some xs -> len v st = (st, Ok (Z.of_nat (length xs))).
Proof.
  intros Hxs. destruct v; try done; unfold len, bind; by rewrite (elems_Some _ _ _ Hxs).
Qed.

Lemma len_has_len st v n : has_len st v n -> len v st = (st, Ok n).
Proof. intros (xs & Hxs & <-). by apply len_elems. Qed.

Lemma vec_elems_prefix st st' v xs :
  ndarrays st `prefix_of` ndarrays st' ->
  vec_elems st v = Some xs -> vec_elems st' v = Some xs.
Proof.
  intros Hp. destruct v; simpl; [done| |done|done]. intros H. by eapply prefix_lookup_Some.
Qed.

Lemma has_len_prefix st st' v n :
  ndarrays st `prefix_of` ndarrays st' -> has_len st v n -> has_len st' v n.
Proof. intros Hp (xs & Hxs & Hn). exists xs. eauto using vec_elems_prefix. Qed.

Lemma py_index_nonneg {A} (xs : list A) (i : nat) x :
  xs !! i = Some x -> py_index xs (Z.of_nat i) = Ok x.
Proof.
  intros H. unfold py_index.
  destruct (Z.ltb_spec (Z.of_nat i) 0); [lia|].
  destruct (Z.ltb_spec (Z.of_nat i) 0); [lia|].
  by rewrite Nat2Z.id, H.
Qed.

(** Python's negative index [i] names the element [len + i]. *)
Lemma py_index_negative {A} (xs : list A) (i : Z) :
  (- Z.of_nat (length xs) <= i < 0)%Z ->
  py_index xs i = py_index xs (Z.of_nat (length xs) + i) /\
  exists x, xs !! Z.to_nat (Z.of_nat (length xs) + i) = Some x /\ py_index xs i = Ok x.
Proof.
  intros Hi. unfold py_index.
  destruct (Z.ltb_spec i 0); [|lia].
  destruct (Z.ltb_spec (Z.of_nat (length xs) + i) 0); [lia|].
  replace (i + Z.of_nat (length xs))%Z with (Z.of_nat (length xs) + i)%Z by lia.
  destruct (Z.ltb_spec (Z.of_nat (length xs) + i) 0); [lia|].
  split; [done|].
  destruct (lookup_lt_is_Some_2 xs (Z.to_nat (Z.of_nat (length xs) + i))) as [x Hx]; [lia|].
  exists x. by rewrite Hx.
Qed.

(** ** The data model invariant *)

Lemma dget_elem_of {V} (d : dict V) k v : dget d k = Some v -> (k, v) ∈ d.
Proof.
  induction d as [|[k' v'] d IH]; simpl; [done|].
  destruct (decide (k = k')) as [->|]; [intros [= ->]; left|right; auto].
Qed.

Lemma elem_of_dget {V} (d : dict V) k v :
  NoDup (keys d) -> (k, v) ∈ d -> dget d k = Some v.
Proof.
  induction d as [|[k' v'] d IH]; simpl; [by intros _ ?%elem_of_nil|].
  intros [Hk Hnd]%NoDup_cons [[= -> ->]|Hin]%elem_of_cons.
  - by rewrite decide_True.
  - destruct (decide (k = k')) as [->|]; [|auto].
    exfalso. apply Hk. unfold keys. apply list_elem_of_fmap. by exists (k', v).
Qed.

Lemma keys_dset_NoDup {V} (d : dict V) k v : NoDup (keys d) -> NoDup (keys (dset d k v)).
Proof.
  intros Hnd. destruct (dget d k) eqn:E.
  - rewrite keys_dset_old; eauto.
  - rewrite keys_dset_fresh by done. apply NoDup_app. repeat split; [done| |apply NoDup_singleton].
    intros x Hx ->%list_elem_of_singleton. by apply dget_None_keys in E.
Qed.

Lemma dget_dset {V} (d : dict V) k k' v :
  dget (dset d k v) k' = if decide (k = k') then Some v else dget d k'.
Proof.
  destruct (decide (k = k')) as [->|]; [apply dget_dset_eq|by apply dget_dset_ne].
Qed.

(** ** [extend] *)

Section Extend.
Context `{E : Externals}.

Lemma extend_nonpositive (self : loc) (n : Z) (padvalue : float) (st : store) :
  (n <= 0)%Z -> extend self n padvalue st = (st, Raise ValueError).
Proof.
  intros Hn. unfold extend.
  destruct (Z.eqb_spec n 0); [done|]. destruct (Z.ltb_spec n 0); [done|lia].
Qed.

(** The loop of [extend]: every vector is replaced by a new array that
    holds the old elements followed by [empty_array]. *)
Lemma extend_fields_spec (ea : list float) (d : dict vec) (st : store) :
  (forall kv, kv ∈ d -> is_Some (vec_elems st kv.2)) ->
  exists st' d',
    extend_fields ea d st = (st', Ok d') /\
    objects st' = objects st /\
    ndarrays st `prefix_of` ndarrays st' /\
    keys d' = keys d /\
    forall k v, dget d k = Some v ->
      exists xs l, vec_elems st v = Some xs /\ dget d' k = Some (Arr l) /\
                   ndarrays st' !! l = Some (xs ++ ea) /\ length (ndarrays st) <= l.
Proof.
  revert st. induction d as [|[k0 v0] d IH]; intros st Hok; simpl.
  - exists st, []. by repeat split.
  - destruct (Hok (k0, v0)) as [xs0 Hxs0]; [by left|]. simpl in Hxs0.
    unfold bind at 1. rewrite (elems_Some _ _ _ Hxs0).
    unfold bind at 1, alloc_array at 1.
    set (st1 := mkStore (ndarrays st ++ [xs0 ++ ea]) (objects st)).
    assert (Hp1 : ndarrays st `prefix_of` ndarrays st1) by (by apply prefix_app_r).
    destruct (IH st1) as (st' & d' & Hrun & Hobj & Hp & Hkeys & Hget).
    { intros kv Hkv. destruct (Hok kv) as [xs Hxs]; [by right|].
      exists xs. by eapply vec_elems_prefix. }
    unfold bind. rewrite Hrun. exists st', ((k0, Arr (length (ndarrays st))) :: d').
    unfold ret. repeat split; [done| by etrans | by simpl; rewrite Hkeys |].
    intros k v. simpl. destruct (decide (k = k0)) as [->|Hne].
    + intros [= <-]. exists xs0, (length (ndarrays st)). repeat split; [done| |done].
      eapply prefix_lookup_Some; [|exact Hp]. simpl. by apply list_lookup_middle.
    + intros Hk. destruct (Hok (k, v)) as [xs Hxs]; [right; by apply dget_elem_of|].
      simpl in Hxs.
      destruct (Hget k v Hk) as (xs' & l & Hxs' & Hd' & Hl & Hfresh).
      rewrite (vec_elems_prefix _ _ _ _ Hp1 Hxs) in Hxs'. injection Hxs' as <-.
      exists xs, l. repeat split; [done..|].
      simpl in Hfresh. rewrite length_app in Hfresh. lia.
Qed.

(** What [extend] does for [n > 0]: it succeeds, the length grows by [n],
    no array that existed is written, and every vector of [data] is a new
    array, the old one followed by [padvalue * np.empty(n)]. *)
Lemma extend_spec (self : loc) (n : Z) (padvalue : float) (st : store) (c : Cast) :
  objects st !! self = Some c ->
  cast_inv st c ->
  (0 < n)%Z ->
  exists st' c',
    extend self n padvalue st = (st', Ok tt) /\
    ndarrays st `prefix_of` ndarrays st' /\
    objects st' = <[self := c']> (objects st) /\
    _len c' = (_len c + n)%Z /\
    keys (data c') = keys (data c) /\
    primarykey c' = primarykey c /\
    _fields c' = _fields c /\
    properties c' = properties c /\
    forall k v, dget (data c) k = Some v ->
      exists xs l, vec_elems st v = Some xs /\ dget (data c') k = Some (Arr l) /\
        length (ndarrays st) <= l /\
        ndarrays st' !! l =
          Some (xs ++ map (PrimFloat.mul padvalue) (np_empty (Z.to_nat n))).
Proof.
  intros Hc (Hnd & Hpk & Hlen) Hn. unfold extend.
  destruct (Z.eqb_spec n 0); [lia|]. destruct (Z.ltb_spec n 0); [lia|].
  set (ea := map (PrimFloat.mul padvalue) (np_empty (Z.to_nat n))).
  destruct (extend_fields_spec ea (data c) st) as (st1 & d' & Hrun & Hobj & Hp & Hkeys & Hget).
  { intros [k v] Hkv. apply elem_of_dget in Hkv; [|done].
    destruct (Hlen k v Hkv) as (xs & Hxs & _). by exists xs. }
  unfold bind, get_cast. rewrite Hc, Hrun. unfold put_cast. rewrite Hobj, Hc.
  eexists _, _. split; [reflexivity|]. simpl. repeat split; [done..|].
  intros k v Hk. destruct (Hget k v Hk) as (xs & l & ? & ? & ? & ?).
  by exists xs, l.
Qed.

Lemma length_np_empty (n : nat) : length (np_empty n) = n.
Proof. unfold np_empty. by rewrite length_map, length_seq. Qed.

(** A NaN operand makes a product NaN, whatever the other operand. *)
Lemma mul_nan_l (x : float) : PrimFloat.mul NaN x = NaN.
Proof.
  rewrite <-(SF2Prim_Prim2SF (PrimFloat.mul NaN x)), FloatAxioms.mul_spec.
  reflexivity.
Qed.

(** With the default [padvalue], NaN, the appended cells are all NaN. *)
Lemma extend_nan_cells (n : nat) :
  map (PrimFloat.mul NaN) (np_empty n) = replicate n NaN.
Proof.
  unfold np_empty. rewrite <-(length_seq n 0) at 2.
  induction (seq 0 n) as [|i l IH]; simpl; [done|]. by rewrite mul_nan_l, IH.
Qed.

(** X6: with the default fill value, NaN, [extend] does what its docstring
    says: it fails for [n <= 0], and for [n > 0] the length grows by [n]
    and every vector is followed by [n] NaN cells. *)
Theorem extend_default_fill (st : store) (self : loc) (c : Cast) (n : Z) :
  objects st !! self = Some c ->
  cast_inv st c ->
  ((n <= 0)%Z -> extend self n NaN st = (st, Raise ValueError)) /\
  ((0 < n)%Z ->
     exists st' c',
       extend self n NaN st = (st', Ok tt) /\
       objects st' !! self = Some c' /\
       _len c' = (_len c + n)%Z /\
       keys (data c') = keys (data c) /\
       forall k v xs, dget (data c) k = Some v -> vec_elems st v = Some xs ->
         exists v', dget (data c') k = Some v' /\
                    vec_elems st' v' = Some (xs ++ replicate (Z.to_nat n) NaN)).
Proof.
  intros Hc Hinv. split; [apply extend_nonpositive|]. intros Hn.
  destruct (extend_spec self n NaN st c Hc Hinv Hn)
    as (st' & c' & Hrun & _ & Hobj & Hlen & Hkeys & _ & _ & _ & Hget).
  exists st', c'. split_and!; [done| |done|done|].
  - rewrite Hobj. apply list_lookup_insert_eq. by eapply lookup_lt_Some.
  - intros k v xs Hk Hxs. destruct (Hget k v Hk) as (xs' & l & Hxs' & Hd & _ & Hnew).
    assert (xs' = xs) as -> by congruence.
    exists (Arr l). split; [done|]. simpl. by rewrite Hnew, extend_nan_cells.
Qed.

End Extend.

(** C3, on a concrete input: a cast of length 2 is extended by one cell
    with [padvalue = 1.0] while [np.empty] returns zeroed memory.  The call
    succeeds, the length becomes 3 and every vector gains one cell, but the
    new cell holds [1.0 * 0.0 = 0.0], not the fill value. *)
Theorem extend_fill_value_lost :
  exists st' c',
    @extend world 0 1 1%float ex_store = (st', Ok tt) /\
    objects st' !! 0 = Some c' /\
    _len c' = 3%Z /\
    dget (data c') "pres" = Some (Arr 2) /\
    ndarrays st' !! 2 = Some [0%float; 10%float; 0%float] /\
    dget (data c') "rho" = Some (Arr 3) /\
    ndarrays st' !! 3 = Some [1025%float; 1026%float; 0%float].
Proof. eexists _, _. vm_compute. repeat split. Qed.

(** ** [Cast.__getitem__] with an integer key *)

Lemma row_negative (st : store) (d : dict vec) (fields : list string) (n i : Z) :
  (forall a, a ∈ fields -> exists v, dget d a = Some v /\ has_len st v n) ->
  (- n <= i < 0)%Z ->
  row d fields i st = row d fields (n + i) st /\
  exists cells, row d fields i st = (st, Ok cells) /\
                observation_at st d fields (Z.to_nat (n + i)) cells.
Proof.
  intros Hf Hi. induction fields as [|a fields IH]; simpl.
  - split; [done|]. exists []. split; [done|constructor].
  - destruct (Hf a) as (v & Hv & xs & Hxs & Hn); [by left|].
    destruct IH as (IH1 & cells & IH2 & IH3); [intros; apply Hf; by right|].
    destruct (py_index_negative xs i) as (Hidx & x & Hx & Hix); [lia|].
    rewrite Hn in Hidx, Hx.
    unfold bind, lift, dlookup. rewrite Hv, (elems_Some _ _ _ Hxs), <-Hidx, Hix.
    rewrite <-IH1, IH2. split; [done|].
    exists ((a, x) :: cells). split; [done|].
    constructor; [|done]. split; [done|]. by exists v, xs.
Qed.



(** ** Construction *)

Lemma has_len_inj st v n m : has_len st v n -> has_len st v m -> n = m.
Proof. intros (xs & H1 & <-) (ys & H2 & <-). congruence. Qed.

Lemma is_field_value_spec (st : store) (val : pyval) (nm : M Z) (n : Z) :
  nm st = (st, Ok n) ->
  val_ok st val ->
  exists b, is_field_value val nm st = (st, Ok b) /\
            (b = true <-> vector_of_len st val n).
Proof.
  intros Hnm Hok. unfold is_field_value.
  destruct val as [| x | s | w]; simpl.
  - exists false. split; [done|]. split; [done|]. by intros (w & ? & _).
  - exists false. split; [done|]. split; [done|]. by intros (w & ? & _).
  - exists false. split; [done|]. split; [done|]. by intros (w & ? & _).
  - destruct Hok as [xs Hxs]. exists (Z.of_nat (length xs) =? n)%Z.
    unfold bind.
    rewrite (len_has_len st w (Z.of_nat (length xs))) by (by exists xs).
    rewrite Hnm. split; [done|]. rewrite Z.eqb_eq. split.
    + intros <-. exists w. split; [done|]. by exists xs.
    + intros (w' & [= <-] & Hl). eapply has_len_inj; [|exact Hl]. by exists xs.
Qed.

Lemma np_asarray_spec (st : store) (w : vec) (xs : list float) :
  vec_elems st w = Some xs ->
  exists st' a,
    np_asarray w st = (st', Ok a) /\
    objects st' = objects st /\
    ndarrays st `prefix_of` ndarrays st' /\
    vec_elems st' a = Some xs.
Proof.
  destruct w as [ys|l| |]; simpl; [| |done|done].
  - intros [= ->]. eexists _, _. unfold bind, alloc_array, ret. split; [done|].
    simpl. repeat split; [by apply prefix_app_r|]. by apply list_lookup_middle.
  - intros H. exists st, (Arr l). by repeat split.
Qed.

Lemma populate_spec (p : vec) (items : dict pyval) (c : Cast) (st : store) (n : Z) :
  has_len st p n ->
  fields_have_len st c n ->
  Forall (fun kv => val_ok st kv.2) items ->
  exists st' c',
    populate p items c st = (st', Ok c') /\
    objects st' = objects st /\
    ndarrays st `prefix_of` ndarrays st' /\
    fields_have_len st' c' n /\
    primarykey c' = primarykey c /\
    (forall k, k ∉ keys items ->
       dget (data c') k = dget (data c) k /\
       dget (properties c') k = dget (properties c) k) /\
    (NoDup (keys items) -> forall kw val, (kw, val) ∈ items ->
       ~ vector_of_len st val n ->
       dget (properties c') kw = Some val /\ dget (data c') kw = dget (data c) kw).
Proof.
  revert c st. induction items as [|[kw val] items IH]; intros c st Hp Hc Hok; simpl.
  - exists st, c. split_and!; try done. intros _ kw val H. by apply elem_of_nil in H.
  - apply Forall_cons in Hok as [Hval Hok]. simpl in Hval.
    destruct (is_field_value_spec st val (len p) n) as (b & Hb & Hbn);
      [by apply len_has_len|done|].
    unfold bind at 1. rewrite Hb. destruct b.
    + destruct Hbn as [Hbn _]. destruct (Hbn eq_refl) as (w & -> & xs & Hxs & Hn).
      destruct (np_asarray_spec st w xs Hxs) as (st1 & a & Ha & Hobj1 & Hp1 & Hxa).
      unfold bind at 1, lift at 1. simpl. unfold bind at 1. rewrite Ha.
      set (c1 := set_fields (set_data c (dset (data c) kw a)) (_fields c ++ [kw])).
      destruct (IH c1 st1) as (st' & c' & Hrun & Hobj & Hp' & Hinv & Hpk & Hout & Hin).
      { by eapply has_len_prefix. }
      { destruct Hc as (Hnd & Hpkc & Hl). split_and!; simpl.
        - by apply keys_dset_NoDup.
        - rewrite dget_dset. case_decide; [by eexists|done].
        - intros k v. rewrite dget_dset. case_decide.
          + intros [= <-]. by exists xs.
          + intros Hk. eapply has_len_prefix; eauto. }
      { eapply Forall_impl; [exact Hok|]. intros [k v] Hv. simpl in *.
        destruct v; try done. destruct Hv as [ys Hys]. exists ys.
        by eapply vec_elems_prefix. }
      exists st', c'. split_and!; [done|congruence|by etrans|done|done| |].
      * intros k Hk. apply not_elem_of_cons in Hk as [Hne Hk].
        destruct (Hout k Hk) as [-> ->]. simpl. by rewrite dget_dset_ne.
      * intros [Hkw Hnd]%NoDup_cons kw' val' [[= -> ->]|Hin']%elem_of_cons Hnv.
        -- exfalso. apply Hnv. exists w. split; [done|]. by exists xs.
        -- assert (kw' <> kw).
           { intros ->. apply Hkw. unfold keys. apply list_elem_of_fmap. by exists (kw, val'). }
           destruct (Hin Hnd kw' val' Hin') as [-> ->].
           { intros (w' & -> & Hl'). apply Hnv. exists w'. split; [done|].
             destruct Hl' as (ys & Hys & Hyn). exists ys. split; [|done].
             destruct (Forall_forall (fun kv => val_ok st kv.2) items) as [Hall _].
             destruct (Hall Hok (kw', PVec w') Hin') as [zs Hzs]. simpl in Hzs.
             rewrite (vec_elems_prefix _ _ _ _ Hp1 Hzs) in Hys. congruence. }
           simpl. by rewrite dget_dset_ne.
    + set (c1 := set_properties c (dset (properties c) kw val)).
      destruct (IH c1 st) as (st' & c' & Hrun & Hobj & Hp' & Hinv & Hpk & Hout & Hin);
        [done|done|done|].
      exists st', c'. split_and!; [done..| |].
      * intros k Hk. apply not_elem_of_cons in Hk as [Hne Hk].
        destruct (Hout k Hk) as [-> ->]. simpl. by rewrite dget_dset_ne.
      * intros [Hkw Hnd]%NoDup_cons kw' val' [[= -> ->]|Hin']%elem_of_cons Hnv.
        -- destruct (Hout kw Hkw) as [-> ->]. simpl. by rewrite dget_dset_eq.
        -- by destruct (Hin Hnd kw' val' Hin' Hnv) as [-> ->].
Qed.

(** [Cast.__init__] returns a new cast that satisfies the invariant; a
    keyword value that is not a vector of the primary vector's length is
    a property and not a field. *)
Lemma init_spec (p : vec) (coords : pyval) (props : option (dict pyval))
    (pk : string) (kwargs : dict pyval) (st : store) (n : Z) :
  has_len st p n ->
  Forall (fun kv => val_ok st kv.2) kwargs ->
  exists st' c,
    Cast__init__ p coords props pk kwargs st = (st', Ok (length (objects st))) /\
    objects st' = objects st ++ [c] /\
    ndarrays st `prefix_of` ndarrays st' /\
    cast_inv st' c /\
    _len c = n /\
    primarykey c = pk /\
    (NoDup (keys kwargs) -> forall kw val, (kw, val) ∈ kwargs ->
       ~ vector_of_len st val n ->
       dget (properties c) kw = Some val /\ (kw <> pk -> dget (data c) kw = None)).
Proof.
  intros (xs & Hxs & Hn) Hok. unfold Cast__init__.
  destruct (np_asarray_spec st p xs Hxs) as (st1 & a & Ha & Hobj1 & Hp1 & Hxa).
  unfold bind at 1. rewrite Ha.
  set (c0 := mkCast _ pk (dset [] pk a) [pk] 0).
  assert (Hp : has_len st1 p n) by (exists xs; eauto using vec_elems_prefix).
  destruct (populate_spec p kwargs c0 st1 n Hp) as
    (st2 & c1 & Hrun & Hobj2 & Hp2 & (Hnd & Hpk & Hl) & Hpk1 & _ & Hin).
  { split_and!; simpl.
    - apply NoDup_singleton.
    - rewrite decide_True by done. by eexists.
    - intros k v. case_decide; [|done]. intros [= <-]. by exists xs. }
  { eapply Forall_impl; [exact Hok|]. intros [k v] Hv. simpl in *.
    destruct v; try done. destruct Hv as [ys Hys]. exists ys.
    by eapply vec_elems_prefix. }
  unfold bind at 1. rewrite Hrun. unfold bind.
  rewrite (len_has_len st2 p n) by (by eapply has_len_prefix).
  unfold new_cast. rewrite Hobj2, Hobj1.
  eexists _, _. split; [reflexivity|]. simpl.
  split; [reflexivity|]. split; [by etrans|].
  split; [by split_and!|]. split; [done|]. split; [done|].
  intros Hndk kw val Hkw Hnv. simpl.
  destruct (Hin Hndk kw val Hkw) as [-> ->].
  { intros (w & -> & Hl'). apply Hnv. exists w. split; [done|].
    destruct Hl' as (ys & Hys & Hyn). exists ys. split; [|done].
    destruct (Forall_forall (fun kv => val_ok st kv.2) kwargs) as [Hall _].
    destruct (Hall Hok (kw, PVec w) Hkw) as [zs Hzs]. simpl in Hzs.
    rewrite (vec_elems_prefix _ _ _ _ Hp1 Hzs) in Hys. congruence. }
  split; [done|]. intros Hne. simpl. by rewrite decide_False.
Qed.

(** ** Assignment by name *)

Lemma getitem_str_data (st : store) (self : loc) (c : Cast) (s : string) (v : vec) :
  objects st !! self = Some c ->
  dget (data c) s = Some v ->
  Cast__getitem__ self (KStr s) st = (st, Ok (Val (PVec v))).
Proof.
  intros Hc Hv. unfold Cast__getitem__, bind, get_cast. by rewrite Hc, Hv.
Qed.

Lemma setitem_spec (st : store) (self : loc) (c : Cast) (s : string) (val : pyval) :
  objects st !! self = Some c ->
  cast_inv st c ->
  val_ok st val ->
  exists c',
    Cast__setitem__ self (KStr s) val st =
      (mkStore (ndarrays st) (<[self := c']> (objects st)), Ok tt) /\
    cast_inv st c' /\
    _len c' = _len c /\
    (vector_of_len st val (_len c) -> exists w, val = PVec w /\ dget (data c') s = Some w) /\
    (~ vector_of_len st val (_len c) ->
       data c' = data c /\ dget (properties c') s = Some val).
Proof.
  intros Hc (Hnd & [v Hv] & Hl) Hok. unfold Cast__setitem__.
  unfold bind at 1, get_cast at 1. rewrite Hc.
  destruct (is_field_value_spec st val
              (let* pk := Cast__getitem__ self (KStr (primarykey c)) in item_len pk)
              (_len c)) as (b & Hb & Hbn); [|done|].
  { unfold bind. rewrite (getitem_str_data st self c _ v Hc Hv). simpl.
    apply len_has_len. eauto. }
  unfold bind at 1. rewrite Hb. destruct b.
  - destruct Hbn as [Hbn _]. destruct (Hbn eq_refl) as (w & -> & Hw).
    unfold bind, lift. simpl. unfold put_cast. rewrite Hc.
    eexists. split; [reflexivity|].
    assert (Hinv : cast_inv st (set_data c (dset (data c) s w))).
    { split_and!; simpl.
      - by apply keys_dset_NoDup.
      - rewrite dget_dset. case_decide; [by eexists|by rewrite Hv].
      - intros k v'. rewrite dget_dset. case_decide; [by intros [= <-]|apply Hl]. }
    split_and!.
    + by destruct (bool_decide _).
    + by destruct (bool_decide _).
    + intros _. exists w. split; [done|]. destruct (bool_decide _); simpl; apply dget_dset_eq.
    + intros Hn. by destruct Hn; exists w.
  - unfold put_cast. rewrite Hc. eexists. split; [reflexivity|].
    split_and!; simpl.
    + by split_and!.
    + done.
    + intros Hvec. apply Hbn in Hvec. done.
    + intros _. split; [done|]. apply dget_dset_eq.
Qed.

(** ** [extend] keeps the invariant *)

Lemma extend_inv `{E : Externals} (self : loc) (n : Z) (padvalue : float)
    (st : store) (c : Cast) :
  objects st !! self = Some c ->
  cast_inv st c ->
  (0 < n)%Z ->
  exists st' c',
    extend self n padvalue st = (st', Ok tt) /\
    objects st' !! self = Some c' /\
    _len c' = (_len c + n)%Z /\
    cast_inv st' c'.
Proof.
  intros Hc Hinv Hn.
  destruct (extend_spec self n padvalue st c Hc Hinv Hn)
    as (st' & c' & Hrun & Hp & Hobj & Hlen & Hkeys & Hpk & _ & _ & Hget).
  destruct Hinv as (Hnd & Hpkc & Hl).
  exists st', c'. split_and!; [done| |done|].
  - rewrite Hobj. apply list_lookup_insert_eq. by eapply lookup_lt_Some.
  - split_and!.
    + by rewrite Hkeys.
    + rewrite Hpk. destruct Hpkc as [v Hv].
      destruct (Hget _ _ Hv) as (xs & l & _ & Hd & _). by eexists.
    + intros k v' Hk.
      destruct (dget (data c) k) as [v|] eqn:Hv.
      * destruct (Hget _ _ Hv) as (xs & l & Hxs & Hd & _ & Hnew).
        rewrite Hd in Hk. injection Hk as <-.
        eexists. split; [exact Hnew|].
        destruct (Hl k v Hv) as (ys & Hys & Hyn).
        rewrite length_app, length_map, length_np_empty, Hlen. 
        assert (ys = xs) by congruence. subst. lia.
      * apply dget_None_keys in Hv. rewrite <-Hkeys in Hv.
        apply dget_None_keys in Hv. congruence.
Qed.

(** ** [regrid] *)

Lemma cast_inv_prefix (st st' : store) (c : Cast) :
  ndarrays st `prefix_of` ndarrays st' -> cast_inv st c -> cast_inv st' c.
Proof.
  intros Hp (? & ? & H). split_and!; [done..|]. eauto using has_len_prefix.
Qed.

Section Regrid.
Context `{E : Externals}.

Lemma deepcopy_vec_spec (memo : list (loc * loc)) (v : vec) (st : store) :
  is_Some (vec_elems st v) ->
  exists st' r,
    deepcopy_vec memo v st = (st', Ok r) /\
    objects st' = objects st /\
    ndarrays st `prefix_of` ndarrays st'.
Proof.
  intros [xs Hxs]. destruct v as [ys|l| |]; simpl; [| |done|done].
  - by eexists _, _.
  - destruct (memo_get memo l); [by eexists _, _|].
    unfold bind, read_array, alloc_array, ret. simpl in Hxs. rewrite Hxs.
    eexists _, _. split; [reflexivity|]. simpl. split; [done|]. by apply prefix_app_r.
Qed.

Lemma deepcopy_props_spec (memo : list (loc * loc)) (d : dict pyval) (st : store) :
  Forall (fun kv => val_ok st kv.2) d ->
  exists st' r,
    deepcopy_props memo d st = (st', Ok r) /\
    objects st' = objects st /\
    ndarrays st `prefix_of` ndarrays st'.
Proof.
  revert memo st. induction d as [|[k val] d IH]; intros memo st Hok; simpl.
  - by eexists _, _.
  - apply Forall_cons in Hok as [Hval Hok]. simpl in Hval.
    assert (Hstep : forall st1, ndarrays st `prefix_of` ndarrays st1 ->
                      Forall (fun kv : string * pyval => val_ok st1 kv.2) d).
    { intros st1 Hp1. eapply Forall_impl; [exact Hok|]. intros [k' v'] Hv. simpl in *.
      destruct v'; try done. destruct Hv as [ys Hys]. exists ys.
      by eapply vec_elems_prefix. }
    destruct val as [| x | s | w].
    1-3: destruct (IH memo st Hok) as (st' & [memo2 rest'] & Hrun & Hobj & Hp);
         unfold bind; rewrite Hrun; by eexists _, _.
    destruct (deepcopy_vec_spec memo w st Hval) as (st1 & [memo1 v'] & Hrun1 & Hobj1 & Hp1).
    destruct (IH memo1 st1 (Hstep st1 Hp1)) as (st' & [memo2 rest'] & Hrun & Hobj & Hp).
    unfold bind. rewrite Hrun1, Hrun. eexists _, _. split; [reflexivity|].
    split; [congruence|by etrans].
Qed.

Lemma deepcopy_data_spec (memo : list (loc * loc)) (d : dict vec) (st : store) :
  Forall (fun kv => is_Some (vec_elems st kv.2)) d ->
  exists st' memo' d',
    deepcopy_data memo d st = (st', Ok (memo', d')) /\
    objects st' = objects st /\
    ndarrays st `prefix_of` ndarrays st' /\
    keys d' = keys d.
Proof.
  revert memo st. induction d as [|[k v] d IH]; intros memo st Hok; simpl.
  - by eexists _, _, _.
  - apply Forall_cons in Hok as [Hval Hok]. simpl in Hval.
    destruct (deepcopy_vec_spec memo v st Hval) as (st1 & [memo1 v'] & Hrun1 & Hobj1 & Hp1).
    destruct (IH memo1 st1) as (st' & memo2 & rest' & Hrun & Hobj & Hp & Hk).
    { eapply Forall_impl; [exact Hok|]. intros [k' w] [ys Hys]. exists ys.
      by eapply vec_elems_prefix. }
    unfold bind. rewrite Hrun1, Hrun. eexists _, _, _. split; [reflexivity|].
    simpl. split; [congruence|]. split; [by etrans|]. by rewrite Hk.
Qed.

Lemma cast_inv_data_ok (st : store) (c : Cast) :
  cast_inv st c -> Forall (fun kv => is_Some (vec_elems st kv.2)) (data c).
Proof.
  intros (Hnd & _ & Hl). apply Forall_forall. intros [k v] Hkv.
  apply elem_of_dget in Hkv; [|done]. destruct (Hl k v Hkv) as (xs & Hxs & _).
  by exists xs.
Qed.

Lemma deepcopy_spec (self : loc) (st : store) (c : Cast) :
  objects st !! self = Some c ->
  cast_inv st c ->
  Forall (fun kv => val_ok st kv.2) (properties c) ->
  exists st' rc,
    deepcopy self st = (st', Ok (length (objects st))) /\
    objects st' = objects st ++ [rc] /\
    ndarrays st `prefix_of` ndarrays st' /\
    keys (data rc) = keys (data c) /\
    primarykey rc = primarykey c /\
    _fields rc = _fields c.
Proof.
  intros Hc Hinv Hprops. unfold deepcopy, bind, get_cast. rewrite Hc.
  destruct (deepcopy_props_spec [] (properties c) st Hprops)
    as (st1 & [memo1 props] & Hrun1 & Hobj1 & Hp1).
  rewrite Hrun1.
  destruct (deepcopy_data_spec memo1 (data c) st1) as (st2 & memo2 & d & Hrun2 & Hobj2 & Hp2 & Hk).
  { eapply Forall_impl; [exact (cast_inv_data_ok st c Hinv)|].
    intros [k w] [ys Hys]. exists ys. by eapply vec_elems_prefix. }
  rewrite Hrun2. unfold new_cast. rewrite Hobj2, Hobj1.
  eexists _, _. split; [reflexivity|]. simpl. split; [done|]. split; [by etrans|done].
Qed.

Lemma cast_vector_data (st : store) (self : loc) (c : Cast) (k : string)
    (v : vec) (xs : list float) :
  objects st !! self = Some c ->
  dget (data c) k = Some v ->
  vec_elems st v = Some xs ->
  cast_vector self k st = (st, Ok xs).
Proof.
  intros Hc Hv Hxs. unfold cast_vector, bind.
  rewrite (getitem_str_data st self c k v Hc Hv). simpl.
  by rewrite (elems_Some _ _ _ Hxs).
Qed.

Lemma np_interp_ok (x xp fp : list float) (left right : option float) :
  length xp <> 0 -> length fp = length xp ->
  exists r, np_interp x xp fp left right = Ok r /\ length r = length x.
Proof.
  intros Hne Heq. unfold np_interp.
  rewrite bool_decide_false, bool_decide_true by done.
  eexists. split; [done|]. by rewrite length_map.
Qed.

(** The loop of [regrid]: every key but the primary one gets a new array
    of as many elements as [levels]; only the new cast is written. *)
Lemma regrid_fields_spec (self ret_ : loc) (levels : vec) (x : list float)
    (ks : list string) (st : store) (c rc : Cast) :
  objects st !! self = Some c ->
  objects st !! ret_ = Some rc ->
  self <> ret_ ->
  cast_inv st c ->
  vec_elems st levels = Some x ->
  (forall k, k ∈ ks -> is_Some (dget (data c) k) /\ is_Some (dget (data rc) k)) ->
  (forall k, k ∈ ks -> k <> primarykey c -> (0 < _len c)%Z) ->
  exists st' rc',
    regrid_fields self ret_ levels (primarykey c) ks st = (st', Ok tt) /\
    ndarrays st `prefix_of` ndarrays st' /\
    objects st' = <[ret_ := rc']> (objects st) /\
    keys (data rc') = keys (data rc) /\
    primarykey rc' = primarykey rc /\ _len rc' = _len rc /\
    (forall k, k ∈ ks -> k <> primarykey c ->
       exists v, dget (data rc') k = Some v /\ has_len st' v (Z.of_nat (length x))) /\
    (forall k, k ∉ ks \/ k = primarykey c -> dget (data rc') k = dget (data rc) k).
Proof.
  revert st rc. induction ks as [|k ks IH]; intros st rc Hc Hrc Hne Hinv Hx Hks Hpos; simpl.
  - exists st, rc. split; [done|]. split; [done|].
    split; [by rewrite list_insert_id|]. split_and!; try done.
    intros k Hk. by apply elem_of_nil in Hk.
  - destruct (decide (k = primarykey c)) as [->|Hk].
    + rewrite bool_decide_false by (by intros ?). unfold bind at 1, ret at 1.
      destruct (IH st rc) as (st' & rc' & Hrun & Hp & Hobj & Hkeys & Hpk & Hlen & Hnew & Hold);
        try done.
      { intros k' Hk'. apply Hks. by right. }
      { intros k' Hk'. apply Hpos. by right. }
      exists st', rc'. split; [done|]. split_and!; try done.
      * intros k' [->|Hk']%elem_of_cons Hne'; [done|]. by apply Hnew.
      * intros k' [Hk'| ->]; [|apply Hold; by right].
        apply not_elem_of_cons in Hk' as [_ Hk']. apply Hold. by left.
    + rewrite bool_decide_true by done.
      destruct (Hks k) as [[v Hv] Hrk]; [by left|].
      pose proof Hinv as (Hnd & [vp Hvp] & Hl).
      destruct (Hl _ _ Hvp) as (xp & Hxp & Hxpn).
      destruct (Hl _ _ Hv) as (fp & Hfp & Hfpn).
      assert (Hlenpos : (0 < _len c)%Z) by (apply (Hpos k); [by left|done]).
      destruct (np_interp_ok x xp fp (Some NaN) (Some NaN)) as (r & Hr & Hrlen); [lia|lia|].
      unfold bind at 1. unfold bind at 1. rewrite (elems_Some _ _ _ Hx).
      unfold bind at 1. rewrite (cast_vector_data st self c _ vp xp Hc Hvp Hxp).
      unfold bind at 1. rewrite (cast_vector_data st self c _ v fp Hc Hv Hfp).
      unfold bind at 1, lift at 1. rewrite Hr.
      unfold bind at 1, alloc_array at 1.
      unfold bind at 1, get_cast at 1. simpl. rewrite Hrc.
      unfold put_cast at 1. simpl. rewrite Hrc.
      set (st1 := mkStore (ndarrays st ++ [r]) _).
      set (rc1 := set_data rc (dset (data rc) k (Arr (length (ndarrays st))))).
      assert (Hp1 : ndarrays st `prefix_of` ndarrays st1) by (by apply prefix_app_r).
      destruct (IH st1 rc1) as (st' & rc' & Hrun & Hp & Hobj & Hkeys & Hpk & Hlen & Hnew & Hold).
      { simpl. by rewrite list_lookup_insert_ne. }
      { simpl. apply list_lookup_insert_eq. by eapply lookup_lt_Some. }
      { done. }
      { destruct Hinv as (? & ? & ?). split_and!; [done..|]. eauto using has_len_prefix. }
      { by eapply vec_elems_prefix. }
      { intros k' Hk'. destruct (Hks k') as [? ?]; [by right|]. split; [done|].
        simpl. rewrite dget_dset. case_decide; [by eexists|done]. }
      { intros k' Hk'. apply Hpos. by right. }
      exists st', rc'. split; [done|]. split; [by etrans|].
      split; [by rewrite Hobj; simpl; rewrite list_insert_insert_eq|].
      split; [by rewrite Hkeys; simpl; apply keys_dset_old|].
      split; [done|]. split; [done|]. split.
      * intros k' Hk' Hne'. destruct (decide (k' ∈ ks)) as [Hin|Hnin]; [by apply Hnew|].
        apply elem_of_cons in Hk' as [->|?]; [|done].
        rewrite Hold by (by left). simpl. rewrite dget_dset_eq.
        eexists. split; [done|]. eapply has_len_prefix; [exact Hp|].
        exists r. split; [|by rewrite Hrlen]. simpl. by apply list_lookup_middle.
      * intros k' Hk'. rewrite Hold.
        -- simpl. apply dget_dset_ne. destruct Hk' as [Hk'| ->]; [|done].
           apply not_elem_of_cons in Hk' as [? _]. done.
        -- destruct Hk' as [Hk'| ->]; [|by right].
           apply not_elem_of_cons in Hk' as [_ ?]. by left.
Qed.

Lemma insert_last {A} (l : list A) (x y : A) :
  <[length l := y]> (l ++ [x]) = l ++ [y].
Proof. rewrite insert_app_r_alt by lia. by rewrite Nat.sub_diag. Qed.

Lemma lookup_last {A} (l : list A) (x : A) : (l ++ [x]) !! length l = Some x.
Proof. by apply list_lookup_middle. Qed.

(** The start of [regrid]: the copy, with the new length, is the last
    object of the store when the loop begins. *)
Lemma regrid_start (self : loc) (levels : vec) (x : list float) (st : store) (c : Cast) :
  objects st !! self = Some c ->
  cast_inv st c ->
  Forall (fun kv => val_ok st kv.2) (properties c) ->
  vec_elems st levels = Some x ->
  exists st2 rc2,
    ndarrays st `prefix_of` ndarrays st2 /\
    objects st2 = objects st ++ [rc2] /\
    keys (data rc2) = keys (data c) /\
    primarykey rc2 = primarykey c /\
    _len rc2 = Z.of_nat (length x) /\
    regrid self levels st =
      (let* _ := regrid_fields self (length (objects st)) levels (primarykey c)
                   (keys (data c)) in
       let* rc := get_cast (length (objects st)) in
       let* _ := put_cast (length (objects st))
                   (set_data rc (dset (data rc) (primarykey c) levels)) in
       ret (length (objects st))) st2.
Proof.
  intros Hc Hinv Hprops Hx. unfold regrid.
  destruct (deepcopy_spec self st c Hc Hinv Hprops)
    as (st1 & rc & Hrun1 & Hobj1 & Hp1 & Hkeys1 & Hpk1 & _).
  assert (Hself : self < length (objects st)) by (by eapply lookup_lt_Some).
  unfold bind at 1. rewrite Hrun1.
  unfold bind at 1.
  rewrite (len_has_len st1 levels (Z.of_nat (length x)))
    by (exists x; eauto using vec_elems_prefix).
  unfold bind at 1, get_cast at 1. rewrite Hobj1, lookup_last.
  unfold bind at 1, put_cast at 1. rewrite Hobj1, lookup_last, insert_last.
  set (rc2 := set_len rc (Z.of_nat (length x))).
  set (st2 := mkStore (ndarrays st1) (objects st ++ [rc2])).
  assert (Hc2 : objects st2 !! self = Some c) by (simpl; by rewrite lookup_app_l).
  unfold bind at 1, get_cast at 1. rewrite Hc2.
  exists st2, rc2. by split_and!.
Qed.

(** On an empty cast that has a field besides its primary key, the loop
    raises: [np.interp] refuses an empty array of sample points. *)
Lemma regrid_fields_raises (self ret_ : loc) (levels : vec) (x : list float)
    (ks : list string) (st : store) (c : Cast) :
  objects st !! self = Some c ->
  cast_inv st c ->
  vec_elems st levels = Some x ->
  _len c = 0%Z ->
  Exists (fun k => k <> primarykey c) ks ->
  (forall k, k ∈ ks -> is_Some (dget (data c) k)) ->
  regrid_fields self ret_ levels (primarykey c) ks st = (st, Raise ValueError).
Proof.
  intros Hc Hinv Hx Hlen Hex Hks. induction ks as [|k ks IH]; simpl.
  - by apply Exists_nil in Hex.
  - destruct (decide (k = primarykey c)) as [->|Hk].
    + rewrite bool_decide_false by (by intros ?). unfold bind at 1, ret at 1.
      apply IH.
      * apply Exists_cons in Hex as [?|?]; [done|done].
      * intros k' Hk'. apply Hks. by right.
    + rewrite bool_decide_true by done.
      destruct (Hks k) as [v Hv]; [by left|].
      pose proof Hinv as (Hnd & [vp Hvp] & Hl).
      destruct (Hl _ _ Hvp) as (xp & Hxp & Hxpn).
      destruct (Hl _ _ Hv) as (fp & Hfp & Hfpn).
      assert (xp = []) as -> by (destruct xp; [done|simpl in Hxpn; lia]).
      unfold bind at 1. unfold bind at 1. rewrite (elems_Some _ _ _ Hx).
      unfold bind at 1. rewrite (cast_vector_data st self c _ vp [] Hc Hvp Hxp).
      unfold bind at 1. rewrite (cast_vector_data st self c _ v fp Hc Hv Hfp).
      by unfold bind, lift, np_interp.
Qed.

(** [regrid] returns a new cast on the given levels, and leaves every
    object that existed as it was. *)
Lemma regrid_spec (self : loc) (levels : vec) (x : list float) (st : store) (c : Cast) :
  objects st !! self = Some c ->
  cast_inv st c ->
  Forall (fun kv => val_ok st kv.2) (properties c) ->
  vec_elems st levels = Some x ->
  ((0 < _len c)%Z \/ forall k, k ∈ keys (data c) -> k = primarykey c) ->
  exists st' c',
    regrid self levels st = (st', Ok (length (objects st))) /\
    objects st' = objects st ++ [c'] /\
    ndarrays st `prefix_of` ndarrays st' /\
    cast_inv st' c' /\
    _len c' = Z.of_nat (length x) /\
    dget (data c') (primarykey c') = Some levels.
Proof.
  intros Hc Hinv Hprops Hx Hpos.
  destruct (regrid_start self levels x st c Hc Hinv Hprops Hx)
    as (st2 & rc2 & Hp1 & Hobj2 & Hkeys1 & Hpk1 & Hlen2 & ->).
  assert (Hself : self < length (objects st)) by (by eapply lookup_lt_Some).
  assert (Hc2 : objects st2 !! self = Some c) by (rewrite Hobj2; by rewrite lookup_app_l).
  destruct (regrid_fields_spec self (length (objects st)) levels x (keys (data c)) st2 c rc2)
    as (st3 & rc3 & Hrun3 & Hp3 & Hobj3 & Hkeys3 & Hpk3 & Hlen3 & Hnew & Hold).
  { done. }
  { rewrite Hobj2. apply lookup_last. }
  { lia. }
  { destruct Hinv as (? & ? & ?). split_and!; [done..|]. eauto using has_len_prefix. }
  { by eapply vec_elems_prefix. }
  { intros k Hk. split.
    - destruct (dget (data c) k) eqn:Hd; [by eexists|]. by apply dget_None_keys in Hd.
    - destruct (dget (data rc2) k) eqn:Hd; [by eexists|].
      apply dget_None_keys in Hd. by rewrite Hkeys1 in Hd. }
  { intros k Hk Hne. destruct Hpos as [?|Hpos]; [done|]. by destruct Hne; apply Hpos. }
  unfold bind at 1. rewrite Hrun3.
  unfold bind at 1, get_cast at 1. rewrite Hobj3, Hobj2, insert_last, lookup_last.
  unfold bind, put_cast. rewrite Hobj3, Hobj2. simpl.
  rewrite insert_last, lookup_last, insert_last.
  eexists _, _. split; [reflexivity|]. simpl.
  split; [done|]. split; [by etrans|].
  assert (Hpk : primarykey rc3 = primarykey c) by (by rewrite Hpk3).
  split; [|split; [simpl; congruence|simpl; by rewrite Hpk, dget_dset_eq]].
  split_and!; simpl.
  - apply keys_dset_NoDup. rewrite Hkeys3, Hkeys1. by destruct Hinv.
  - rewrite Hpk, dget_dset_eq. by eexists.
  - intros k v. rewrite dget_dset. case_decide as Hk.
    + intros [= <-]. rewrite Hlen3, Hlen2. exists x. split; [|done].
      eapply vec_elems_prefix; [exact Hp3|]. by eapply vec_elems_prefix.
    + intros Hv. destruct (Hnew k) as (v' & Hv' & Hl); [|done|].
      * rewrite <-Hkeys1, <-Hkeys3. destruct (decide (k ∈ keys (data rc3))) as [|Hn]; [done|].
        apply dget_None_keys in Hn. congruence.
      * rewrite Hlen3, Hlen2. assert (v = v') by congruence. by subst.
Qed.

(** On an empty cast with a field besides the primary key [regrid]
    raises; the cast it was called on is untouched. *)
Lemma regrid_empty_raises (self : loc) (levels : vec) (x : list float) (st : store) (c : Cast) :
  objects st !! self = Some c ->
  cast_inv st c ->
  Forall (fun kv => val_ok st kv.2) (properties c) ->
  vec_elems st levels = Some x ->
  _len c = 0%Z ->
  Exists (fun k => k <> primarykey c) (keys (data c)) ->
  exists st',
    regrid self levels st = (st', Raise ValueError) /\
    objects st `prefix_of` objects st' /\
    ndarrays st `prefix_of` ndarrays st'.
Proof.
  intros Hc Hinv Hprops Hx Hlen Hex.
  destruct (regrid_start self levels x st c Hc Hinv Hprops Hx)
    as (st2 & rc2 & Hp1 & Hobj2 & _ & _ & _ & ->).
  assert (Hself : self < length (objects st)) by (by eapply lookup_lt_Some).
  assert (Hc2 : objects st2 !! self = Some c) by (rewrite Hobj2; by rewrite lookup_app_l).
  exists st2. unfold bind at 1.
  rewrite (regrid_fields_raises self (length (objects st)) levels x (keys (data c)) st2 c);
    [|done|by eapply cast_inv_prefix|by eapply vec_elems_prefix|done|done|].
  - split; [done|]. split; [|done]. rewrite Hobj2. by apply prefix_app_r.
  - intros k Hk. destruct (dget (data c) k) eqn:Hd; [by eexists|].
    by apply dget_None_keys in Hd.
Qed.

(** Whatever the outcome of [regrid], the cast it was called on is as
    before, and a cast that is returned satisfies the invariant. *)
Lemma regrid_preserves (self : loc) (levels : vec) (x : list float) (st : store) (c : Cast) :
  objects st !! self = Some c ->
  cast_inv st c ->
  Forall (fun kv => val_ok st kv.2) (properties c) ->
  vec_elems st levels = Some x ->
  exists st' o,
    regrid self levels st = (st', o) /\
    objects st' !! self = Some c /\ cast_inv st' c /\
    forall r, o = Ok r ->
      exists c', objects st' !! r = Some c' /\ cast_inv st' c' /\
                 _len c' = Z.of_nat (length x).
Proof.
  intros Hc Hinv Hprops Hx.
  assert (Hself : self < length (objects st)) by (by eapply lookup_lt_Some).
  destruct (decide (Forall (fun k => k = primarykey c) (keys (data c)))) as [Hall|Hnot].
  { destruct (regrid_spec self levels x st c Hc Hinv Hprops Hx)
      as (st' & c' & Hrun & Hobj & Hp & Hinv' & Hlen & _).
    { right. by apply Forall_forall. }
    exists st', (Ok (length (objects st))). split_and!; [done| |by eapply cast_inv_prefix|].
    - rewrite Hobj. by rewrite lookup_app_l.
    - intros r [= <-]. exists c'. split_and!; [|done..]. rewrite Hobj. apply lookup_last. }
  destruct (Z.ltb_spec 0 (_len c)) as [Hpos|Hle].
  { destruct (regrid_spec self levels x st c Hc Hinv Hprops Hx)
      as (st' & c' & Hrun & Hobj & Hp & Hinv' & Hlen & _); [by left|].
    exists st', (Ok (length (objects st))). split_and!; [done| |by eapply cast_inv_prefix|].
    - rewrite Hobj. by rewrite lookup_app_l.
    - intros r [= <-]. exists c'. split_and!; [|done..]. rewrite Hobj. apply lookup_last. }
  assert (Hzero : _len c = 0%Z).
  { pose proof Hinv as (_ & [vp Hvp] & Hl). destruct (Hl _ _ Hvp) as (xp & _ & Hn). lia. }
  destruct (regrid_empty_raises self levels x st c Hc Hinv Hprops Hx Hzero)
    as (st' & Hrun & Hobj & Hp).
  { apply not_Forall_Exists in Hnot; [|apply _]. eapply Exists_impl; [exact Hnot|]. done. }
  exists st', (Raise ValueError). split_and!; [done| |by eapply cast_inv_prefix|done].
  by eapply prefix_lookup_Some.
Qed.

End Regrid.

Lemma ex_cast_inv : cast_inv ex_store ex_cast.
Proof.
  split; [|split].
  - compute_done.
  - by exists (Arr 0).
  - intros k v. simpl.
    repeat (case_decide; [intros [= <-]; eexists; split; [reflexivity|done]|]).
    done.
Qed.

Lemma extend_default_fill_witness :
  (objects ex_store !! 0 = Some ex_cast /\ (0 < 2)%Z) /\
  exists st' c',
    @extend world 0 2 NaN ex_store = (st', Ok tt) /\
    objects st' !! 0 = Some c' /\ _len c' = 4%Z /\
    exists v', dget (data c') "rho" = Some v' /\
               vec_elems st' v' = Some [1025%float; 1026%float; NaN; NaN].
Proof.
  split; [split; [reflexivity|lia]|].
  destruct (@extend_default_fill world ex_store 0 ex_cast 2 eq_refl ex_cast_inv) as [_ H].
  destruct (H ltac:(lia)) as (st' & c' & Hrun & Hobj & Hlen & _ & Hget).
  exists st', c'. split_and!; [done..|].
  by apply (Hget "rho" (Arr 1) [1025%float; 1026%float]).
Defined.

(** C5: the invariant of the data model, that every vector in [data] has
    exactly [len(cast)] elements (and [data] holds the primary key),
    - holds for the cast that [Cast.__init__] returns when the primary
      vector is a vector of numbers and every keyword value is a scalar
      or a vector of numbers, where a keyword value that is not a vector
      of the primary vector's length is stored as a property and not as
      a field;
    - is preserved by an assignment [cast[s] = val] of such a value with
      a string key;
    - is preserved by [extend(n)], which succeeds for [n > 0] and leaves
      the store as it was, raising [ValueError], for [n <= 0];
    - holds for the new cast that [regrid(levels)] returns, which it does
      for a cast that is not empty or has no field besides its primary
      key; and whatever the outcome of [regrid], the cast it was called
      on is as before and a cast that is returned satisfies the invariant.
    The casts are taken in a store where they satisfy the invariant and
    where the vectors passed in exist; [val_ok] leaves out the containers
    that hold no numbers. *)
Theorem cast_invariant `{E : Externals} :
  (forall (p : vec) (coords : pyval) (props : option (dict pyval)) (pk : string)
          (kwargs : dict pyval) (st : store) (n : Z),
      has_len st p n ->
      Forall (fun kv => val_ok st kv.2) kwargs ->
      exists st' c,
        Cast__init__ p coords props pk kwargs st = (st', Ok (length (objects st))) /\
        objects st' !! length (objects st) = Some c /\
        cast_inv st' c /\ _len c = n /\
        (NoDup (keys kwargs) -> forall kw val, (kw, val) ∈ kwargs ->
           ~ vector_of_len st val n ->
           dget (properties c) kw = Some val /\ (kw <> pk -> dget (data c) kw = None))) /\
  (forall (st : store) (self : loc) (c : Cast) (s : string) (val : pyval),
      objects st !! self = Some c -> cast_inv st c -> val_ok st val ->
      exists st' c',
        Cast__setitem__ self (KStr s) val st = (st', Ok tt) /\
        objects st' !! self = Some c' /\
        cast_inv st' c' /\ _len c' = _len c) /\
  (forall (st : store) (self : loc) (c : Cast) (n : Z) (padvalue : float),
      objects st !! self = Some c -> cast_inv st c -> (0 < n)%Z ->
      exists st' c',
        extend self n padvalue st = (st', Ok tt) /\
        objects st' !! self = Some c' /\
        cast_inv st' c' /\ _len c' = (_len c + n)%Z) /\
  (forall (st : store) (self : loc) (n : Z) (padvalue : float),
      (n <= 0)%Z -> extend self n padvalue st = (st, Raise ValueError)) /\
  (forall (st : store) (self : loc) (c : Cast) (levels : vec) (x : list float),
      objects st !! self = Some c -> cast_inv st c ->
      Forall (fun kv => val_ok st kv.2) (properties c) ->
      vec_elems st levels = Some x ->
      ((0 < _len c)%Z \/ forall k, k ∈ keys (data c) -> k = primarykey c) ->
      exists st' r c',
        regrid self levels st = (st', Ok r) /\
        objects st' !! r = Some c' /\
        cast_inv st' c' /\ _len c' = Z.of_nat (length x) /\
        objects st' !! self = Some c /\ cast_inv st' c) /\
  (forall (st : store) (self : loc) (c : Cast) (levels : vec) (x : list float),
      objects st !! self = Some c -> cast_inv st c ->
      Forall (fun kv => val_ok st kv.2) (properties c) ->
      vec_elems st levels = Some x ->
      exists st' o,
        regrid self levels st = (st', o) /\
        objects st' !! self = Some c /\ cast_inv st' c /\
        forall r, o = Ok r ->
          exists c', objects st' !! r = Some c' /\ cast_inv st' c' /\
                     _len c' = Z.of_nat (length x)).
Proof.
  split_and!.
  - intros p coords props pk kwargs st n Hp Hok.
    destruct (init_spec p coords props pk kwargs st n Hp Hok)
      as (st' & c & Hrun & Hobj & _ & Hinv & Hlen & _ & Hprop).
    exists st', c. split_and!; try done. rewrite Hobj. apply lookup_last.
  - intros st self c s val Hc Hinv Hok.
    destruct (setitem_spec st self c s val Hc Hinv Hok) as (c' & Hrun & Hinv' & Hlen & _).
    eexists _, c'. split; [exact Hrun|]. simpl. split_and!; try done.
    apply list_lookup_insert_eq. by eapply lookup_lt_Some.
  - intros st self c n padvalue Hc Hinv Hn.
    destruct (extend_inv self n padvalue st c Hc Hinv Hn) as (st' & c' & ? & ? & ? & ?).
    by exists st', c'.
  - intros st self n padvalue. apply extend_nonpositive.
  - intros st self c levels x Hc Hinv Hprops Hx Hpos.
    destruct (regrid_spec self levels x st c Hc Hinv Hprops Hx Hpos)
      as (st' & c' & Hrun & Hobj & Hp & Hinv' & Hlen & _).
    exists st', (length (objects st)), c'. split_and!; try done.
    + rewrite Hobj. apply lookup_last.
    + rewrite Hobj. rewrite lookup_app_l; [done|]. by eapply lookup_lt_Some.
    + by eapply cast_inv_prefix.
  - intros st self c levels x. apply regrid_preserves.
Qed.

Lemma cast_invariant_witness :
  (exists st' c,
      Cast__init__ (Seq [0%float; 10%float]) PNone None "pres"
        [("temp", PVec (Seq [4%float; 3%float])); ("station", PNum 7%float);
         ("short", PVec (Seq [1%float]))] (mkStore [] []) = (st', Ok 0) /\
      cast_inv st' c /\ _len c = 2%Z /\
      dget (properties c) "short" = Some (PVec (Seq [1%float])) /\
      dget (data c) "short" = None) /\
  (exists st' c',
      Cast__setitem__ 0 (KStr "oxy") (PVec (Seq [5%float; 6%float])) ex_store = (st', Ok tt) /\
      objects st' !! 0 = Some c' /\ cast_inv st' c') /\
  (exists st' c',
      @extend world 0 3 NaN ex_store = (st', Ok tt) /\
      objects st' !! 0 = Some c' /\ cast_inv st' c' /\ _len c' = 5%Z) /\
  @extend world 0 0 NaN ex_store = (ex_store, Raise ValueError) /\
  (exists st' r c',
      @regrid world 0 (Seq [2%float; 4%float; 6%float]) ex_store = (st', Ok r) /\
      objects st' !! r = Some c' /\ cast_inv st' c' /\ _len c' = 3%Z) /\
  (exists st' o,
      @regrid world 0 (Seq [2%float; 4%float; 6%float]) ex_store = (st', o) /\
      objects st' !! 0 = Some ex_cast /\ cast_inv st' ex_cast).
Proof.
  destruct (@cast_invariant world) as (Hinit & Hset & Hext & Hext0 & Hregrid & Hregrid').
  split_and!.
  - destruct (Hinit (Seq [0%float; 10%float]) PNone None "pres"
                [("temp", PVec (Seq [4%float; 3%float])); ("station", PNum 7%float);
                 ("short", PVec (Seq [1%float]))] (mkStore [] []) 2%Z)
      as (st' & c & Hrun & _ & Hinv & Hlen & Hprop).
    { by eexists. }
    { repeat constructor; by eexists. }
    exists st', c. split_and!; [done..| |].
    + apply (Hprop ltac:(compute_done) "short" (PVec (Seq [1%float]))).
      * right; right; left.
      * intros (w & [= <-] & xs & [= <-] & Hl). done.
    + apply (Hprop ltac:(compute_done) "short" (PVec (Seq [1%float]))).
      * right; right; left.
      * intros (w & [= <-] & xs & [= <-] & Hl). done.
      * done.
  - destruct (Hset ex_store 0 ex_cast "oxy" (PVec (Seq [5%float; 6%float])) eq_refl ex_cast_inv)
      as (st' & c' & ? & ? & ? & _); [by eexists|].
    by exists st', c'.
  - destruct (Hext ex_store 0 ex_cast 3%Z NaN eq_refl ex_cast_inv) as (st' & c' & ? & ? & ? & ?);
      [lia|]. by exists st', c'.
  - apply Hext0. lia.
  - destruct (Hregrid ex_store 0 ex_cast (Seq [2%float; 4%float; 6%float])
                [2%float; 4%float; 6%float] eq_refl ex_cast_inv)
      as (st' & r & c' & ? & ? & ? & ? & _).
    { repeat constructor. }
    { done. }
    { left. simpl. lia. }
    by exists st', r, c'.
  - destruct (Hregrid' ex_store 0 ex_cast (Seq [2%float; 4%float; 6%float])
                [2%float; 4%float; 6%float] eq_refl ex_cast_inv)
      as (st' & o & ? & ? & ? & _).
    { repeat constructor. }
    { done. }
    by exists st', o.
Defined.

(** C5 fails as stated: the test of [__init__] sends a keyword value to
    [data] as soon as it is a container, not a string, with as many
    entries as the primary vector, whatever it holds.  A dict of two
    entries, given with a pressure of two levels, becomes the field
    ["flags"]; [np.asarray] has made a 0-d array of it, which has no
    length: [len(cast["flags"])] raises [TypeError] while [len(cast)] is
    2, and the cast does not satisfy the invariant. *)
Theorem init_stores_container_without_length :
  exists st c,
    Cast__init__ (Seq [0%float; 10%float]) PNone None "pres"
      [("flags", PVec (Bag 2))] (mkStore [] []) = (st, Ok 0) /\
    objects st !! 0 = Some c /\
    _fields c = ["pres"; "flags"] /\
    dget (data c) "flags" = Some (Arr0 2) /\
    dget (properties c) "flags" = None /\
    Cast__len__ 0 st = (st, Ok 2%Z) /\
    (let* it := Cast__getitem__ 0 (KStr "flags") in item_len it) st =
      (st, Raise TypeError) /\
    ~ cast_inv st c.
Proof.
  eexists _, _. split; [vm_compute; reflexivity|].
  split_and!; try (vm_compute; reflexivity).
  intros (_ & _ & Hlen). by destruct (Hlen "flags" (Arr0 2) eq_refl) as (xs & Hxs & _).
Qed.

(** ** [interpolate] *)

Section Interpolate.
Context `{E : Externals}.

Lemma interpolate_run (st : store) (self : loc) (c : Cast) (y x : string)
    (vx vy v : vec) (xs ys vs : list float) (force : bool) :
  objects st !! self = Some c ->
  dget (data c) x = Some vx -> vec_elems st vx = Some xs ->
  dget (data c) y = Some vy -> vec_elems st vy = Some ys ->
  vec_elems st v = Some vs ->
  interpolate self y x v force st =
    if strictly_increasing xs then
      match np_interp vs xs ys None None with
      | Ok r => (mkStore (ndarrays st ++ [r]) (objects st), Ok (Arr (length (ndarrays st))))
      | Raise e => (st, Raise e)
      end
    else if force then
      match np_interp vs (force_monotonic xs) ys None None with
      | Ok r => (mkStore (ndarrays st ++ [r]) (objects st), Ok (Arr (length (ndarrays st))))
      | Raise e => (st, Raise e)
      end
    else (st, Raise ValueError).
Proof.
  intros Hc Hx Hxs Hy Hys Hv. unfold interpolate.
  unfold bind at 1, get_cast at 1. rewrite Hc.
  unfold dmem. rewrite Hx, Hy. simpl.
  unfold bind at 1. rewrite (cast_vector_data st self c x vx xs Hc Hx Hxs).
  fold (strictly_increasing xs).
  destruct (strictly_increasing xs); [|destruct force; [|done]].
  all: unfold bind; rewrite (elems_Some _ _ _ Hv),
         (cast_vector_data st self c x vx xs Hc Hx Hxs),
         (cast_vector_data st self c y vy ys Hc Hy Hys);
       unfold lift; by destruct (np_interp _ _ _ _ _).
Qed.

(** C6, as the code has it: [interpolate] raises [KeyError] when [y] or
    [x] is not a key of [data]; it raises [ValueError] when the consecutive
    differences of [x] are not all positive and [force] is [False]; and
    when [force] is [True], on a cast that is not empty and satisfies the
    data model, it succeeds and returns a new array with as many elements
    as the query [v] (the coercion by [force_monotonic] keeps the length
    of [x]). *)
Theorem interpolate_spec (st : store) (self : loc) (c : Cast) (y x : string)
    (v : vec) (force : bool) :
  objects st !! self = Some c ->
  cast_inv st c ->
  (dget (data c) y = None ->
     interpolate self y x v force st = (st, Raise KeyError)) /\
  (dget (data c) x = None ->
     interpolate self y x v force st = (st, Raise KeyError)) /\
  (forall vx xs,
     is_Some (dget (data c) y) ->
     dget (data c) x = Some vx -> vec_elems st vx = Some xs ->
     strictly_increasing xs = false -> force = false ->
     interpolate self y x v force st = (st, Raise ValueError)) /\
  (forall vx xs vs,
     is_Some (dget (data c) y) ->
     dget (data c) x = Some vx -> vec_elems st vx = Some xs ->
     vec_elems st v = Some vs ->
     (0 < _len c)%Z ->
     length (force_monotonic xs) = length xs ->
     force = true ->
     exists r,
       interpolate self y x v force st =
         (mkStore (ndarrays st ++ [r]) (objects st), Ok (Arr (length (ndarrays st)))) /\
       length r = length vs).
Proof.
  intros Hc (Hnd & Hpk & Hl). split_and!.
  - intros Hy. unfold interpolate, bind, get_cast, dmem. by rewrite Hc, Hy.
  - intros Hx. unfold interpolate, bind, get_cast, dmem. rewrite Hc, Hx.
    by destruct (dget (data c) y).
  - intros vx xs [vy Hy] Hx Hxs Hinc ->.
    unfold interpolate. unfold bind at 1, get_cast at 1. rewrite Hc.
    unfold dmem. rewrite Hx, Hy. simpl.
    unfold bind. rewrite (cast_vector_data st self c x vx xs Hc Hx Hxs).
    fold (strictly_increasing xs). by rewrite Hinc.
  - intros vx xs vs [vy Hy] Hx Hxs Hv Hpos Hfm ->.
    destruct (Hl _ _ Hy) as (ys & Hys & Hyn).
    destruct (Hl _ _ Hx) as (xs' & Hxs' & Hxn).
    assert (xs' = xs) by congruence. subst xs'.
    rewrite (interpolate_run st self c y x vx vy v xs ys vs true Hc Hx Hxs Hy Hys Hv).
    destruct (np_interp_ok vs xs ys None None) as (r1 & Hr1 & Hlen1); [lia|lia|].
    destruct (np_interp_ok vs (force_monotonic xs) ys None None) as (r2 & Hr2 & Hlen2);
      [lia|lia|].
    rewrite Hr1, Hr2. destruct (strictly_increasing xs); eauto.
Qed.

End Interpolate.

Lemma nm_cast_inv : cast_inv nm_store nm_cast.
Proof.
  split; [|split].
  - compute_done.
  - by exists (Arr 0).
  - intros k v. simpl.
    repeat (case_decide; [intros [= <-]; eexists; split; [reflexivity|done]|]).
    done.
Qed.

Lemma interpolate_spec_witness :
  (objects nm_store !! 0 = Some nm_cast /\ (0 < _len nm_cast)%Z) /\
  @interpolate world 0 "temp" "pres" (Seq [5%float]) true nm_store = (nm_store, Raise KeyError) /\
  @interpolate world 0 "pres" "sigma" (Seq [26.5%float]) false nm_store =
    (nm_store, Raise ValueError) /\
  exists r,
    @interpolate world 0 "pres" "sigma" (Seq [26.5%float; 27.5%float]) true nm_store =
      (mkStore (ndarrays nm_store ++ [r]) (objects nm_store), Ok (Arr 2)) /\
    length r = 2.
Proof.
  split; [split; [reflexivity|simpl; lia]|].
  split_and!.
  - destruct (@interpolate_spec world nm_store 0 nm_cast "temp" "pres" (Seq [5%float]) true
                eq_refl nm_cast_inv) as (H & _). by apply H.
  - destruct (@interpolate_spec world nm_store 0 nm_cast "pres" "sigma" (Seq [26.5%float])
                false eq_refl nm_cast_inv) as (_ & _ & H & _).
    apply (H (Arr 1) [27%float; 26%float; 28%float]); by eauto.
  - destruct (@interpolate_spec world nm_store 0 nm_cast "pres" "sigma"
                (Seq [26.5%float; 27.5%float]) true eq_refl nm_cast_inv) as (_ & _ & _ & H).
    apply (H (Arr 1) [27%float; 26%float; 28%float] [26.5%float; 27.5%float]);
      try done; by eauto.
Defined.

(** C6 fails as stated: a cast built from an empty pressure vector has
    the field ["pres"], yet [interpolate] with [force=True] raises
    [ValueError], because [np.interp] refuses an empty array of sample
    points. *)
Lemma interpolate_force_fails_on_empty_cast :
  exists st,
    Cast__init__ (Seq []) PNone None "pres" [] (mkStore [] []) = (st, Ok 0) /\
    @interpolate world 0 "pres" "pres" (Seq [1%float]) true st = (st, Raise ValueError).
Proof. eexists. split; [vm_compute; reflexivity|]. vm_compute. reflexivity. Qed.

(** * Cast collections *)

(** ** [projdist] *)

Lemma StronglySorted_lookup_lt {A} (R : A -> A -> Prop) (l : list A) i j x y :
  StronglySorted R l -> i < j -> l !! i = Some x -> l !! j = Some y -> R x y.
Proof.
  intros Hs. revert i j. induction Hs as [|a l Hs IH Hall]; intros i j Hij Hx Hy; [done|].
  destruct j as [|j]; [lia|]. destruct i as [|i]; simpl in *.
  - injection Hx as <-. rewrite List.Forall_forall in Hall. apply Hall.
    apply list_elem_of_In. by eapply list_elem_of_lookup_2.
  - apply (IH i j); [lia|done..].
Qed.

Section ProjdistFacts.
Context {R P : Type} (zero : R) (add : R -> R -> R).
Context (point : pyval -> outcome P) (dist : P -> P -> R).
Context (le : R -> R -> Prop).

Local Abbreviation located := (located point).
Local Abbreviation cumulates := (cumulates add dist).
Local Abbreviation hops_nonneg := (hops_nonneg dist zero le).
Local Abbreviation sum_grows := (sum_grows add zero le).

Lemma coords_located (st : store) (o : loc) (p : P) :
  located st o p ->
  exists cv, coords o st = (st, Ok cv) /\ point cv = Ok p.
Proof.
  intros (c & cv & Hc & Hcv & Hp). exists cv. split; [|done].
  unfold coords, bind, get_cast, lift, dlookup. by rewrite Hc, Hcv.
Qed.

(** The loop runs through when every cast has a point, whatever the
    numbers are. *)
Lemma projdist_loop_spec (st : store) (cs : list loc) (ps : list P) (a : P) (last : R) :
  Forall2 (located st) cs ps ->
  exists d,
    projdist_loop add point dist a last cs st = (st, Ok d) /\
    cumulates a last ps d.
Proof.
  intros Hloc. revert a last.
  induction Hloc as [|o p cs ps Ho Hloc IH]; intros a last.
  - by exists [].
  - destruct (coords_located st o p Ho) as (cv & Hcv & Hp).
    destruct (IH p (add last (dist a p))) as (d & Hrun & Hcum).
    exists (add last (dist a p) :: d). simpl.
    unfold bind. rewrite Hcv. unfold lift. by rewrite Hp, Hrun.
Qed.

Lemma cumulates_length a last ps d : cumulates a last ps d -> length d = length ps.
Proof.
  revert a last d. induction ps as [|b ps IH]; intros a last [|x d]; simpl; try done.
  intros [_ H]. f_equal. by eapply IH.
Qed.

Lemma cumulates_step a last ps d :
  cumulates a last ps d ->
  forall i pa pb x,
    (a :: ps) !! i = Some pa -> (a :: ps) !! S i = Some pb ->
    (last :: d) !! i = Some x ->
    (last :: d) !! S i = Some (add x (dist pa pb)).
Proof.
  revert a last d. induction ps as [|b ps IH]; intros a last d Hcum i pa pb x Ha Hb Hx.
  - destruct i; simpl in *; [done|]. by destruct i.
  - destruct d as [|y d]; [done|]. destruct Hcum as [-> Hcum].
    destruct i as [|i]; simpl in *.
    + by injection Ha as <-; injection Hb as <-; injection Hx as <-.
    + by apply (IH b _ d Hcum i pa pb x).
Qed.

Lemma cumulates_sorted a last ps d :
  sum_grows ->
  cumulates a last ps d ->
  hops_nonneg (a :: ps) ->
  le zero last ->
  Sorted le (last :: d).
Proof.
  intros (_ & le_trans & le_add).
  revert a last d. induction ps as [|b ps IH]; intros a last [|x d]; simpl; try done.
  - intros _ _ _. by repeat constructor.
  - intros [-> Hcum] Hhops Hlast.
    assert (Hhop : le zero (dist a b)) by (by apply (Hhops 0)).
    assert (Hstep : le last (add last (dist a b))) by (by apply le_add).
    constructor; [|by constructor]. apply (IH b); [done| |].
    + intros i x y Hx Hy. by apply (Hhops (S i)).
    + by apply (le_trans _ last).
Qed.


End ProjdistFacts.



(** ** [CastCollection.__getitem__] *)

Lemma mapM_reads {A B} (f : A -> M B) (st : store) (xs : list A) (bs : list B) :
  Forall2 (fun x b => f x st = (st, Ok b)) xs bs ->
  mapM f xs st = (st, Ok bs).
Proof.
  induction 1 as [|x b xs bs Hx _ IH]; simpl; [done|].
  unfold bind. by rewrite Hx, IH.
Qed.

Lemma mget_mtab (r c : nat) (f : nat -> nat -> float) (i j : nat) :
  i < r -> j < c -> mget (mtab r c f) i j = f i j.
Proof.
  intros Hi Hj. unfold mget, mtab. simpl.
  rewrite list_lookup_fmap, lookup_seq_lt by done. simpl.
  by rewrite list_lookup_fmap, lookup_seq_lt.
Qed.

Lemma np_vstack_same_length (rows : list (list float)) (m : nat) :
  rows <> [] -> Forall (fun r => length r = m) rows ->
  np_vstack rows = Ok (mkMatrix (length rows) m rows).
Proof.
  intros Hne Hall. destruct rows as [|r rest]; [done|].
  apply Forall_cons in Hall as [Hr Hrest]. unfold np_vstack.
  rewrite (proj2 (forallb_forall _ _)); [by rewrite Hr|].
  intros r' Hin. apply bool_decide_eq_true. rewrite Hr.
  rewrite Forall_forall in Hrest. apply Hrest. by apply list_elem_of_In.
Qed.

Lemma forallb_Exists_false {A} (f : A -> bool) (xs : list A) :
  Exists (fun x => f x = false) xs -> forallb f xs = false.
Proof.
  induction 1 as [x xs Hx|x xs _ IH]; simpl.
  - by rewrite Hx.
  - rewrite IH. by destruct (f x).
Qed.

Lemma forallb_Forall_true {A} (f : A -> bool) (xs : list A) :
  Forall (fun x => f x = true) xs -> forallb f xs = true.
Proof. induction 1 as [|x xs Hx _ IH]; simpl; [done|]. by rewrite Hx, IH. Qed.

Lemma omap_lookup_seq {A} (xs : list A) (a m : nat) :
  a + m <= length xs -> omap (fun i => xs !! i) (seq a m) = take m (drop a xs).
Proof.
  revert a. induction m as [|m IH]; intros a Hle; simpl; [done|].
  destruct (lookup_lt_is_Some_2 xs a) as [x Hx]; [lia|].
  rewrite Hx, (drop_S _ _ _ Hx). simpl. f_equal. apply IH. lia.
Qed.

Lemma slice_positions {A} (xs : list A) (s n : Z) (a m : nat) :
  s = Z.of_nat a -> Z.to_nat n = m -> a + m <= length xs ->
  omap (fun i => xs !! i)
       (map (fun k => Z.to_nat (s + Z.of_nat k * 1)) (seq 0 (Z.to_nat n))) =
    take m (drop a xs).
Proof.
  intros -> -> Hle. rewrite <-omap_lookup_seq by done. f_equal.
  replace (seq a m) with (seq (a + 0) m) by (f_equal; lia).
  rewrite <-(fmap_add_seq a 0). apply map_ext. intros k. lia.
Qed.

(** The plain slice [xs[a:b]] with [0 <= a <= b <= len(xs)]. *)
Lemma py_slice_range {A} (xs : list A) (a b : nat) :
  a <= b <= length xs ->
  py_slice xs (Some (Z.of_nat a)) (Some (Z.of_nat b)) None =
    Ok (take (b - a) (drop a xs)).
Proof.
  intros Hab. unfold py_slice, slice_indices. cbn [default].
  change (1 =? 0)%Z with false. change (1 <? 0)%Z with false. cbv iota zeta.
  repeat match goal with
         | H : context [Z.ltb ?x ?y] |- _ => destruct (Z.ltb_spec x y); try lia
         | H : context [Z.leb ?x ?y] |- _ => destruct (Z.leb_spec x y); try lia
         | |- context [Z.ltb ?x ?y] => destruct (Z.ltb_spec x y); try lia
         | |- context [Z.leb ?x ?y] => destruct (Z.leb_spec x y); try lia
         end.
  all: f_equal; apply slice_positions; rewrite ?Z.div_1_r; lia.
Qed.

(** C7, as the code has it.  For a collection whose casts are [cs]:
    - an integer key within the range returns the cast at that position,
      counted from the end when negative;
    - a slice returns a new collection over the selected casts; for
      [a:b] these are the casts from position [a] up to [b];
    - a string key that is a data field of every cast returns the matrix
      whose column [j] is that field of cast [j], provided the collection
      is not empty and the fields have one common length;
    - a string key that is not a data field of every cast, but a property
      of every cast, returns the list of the casts' properties in order;
    - a string key that is neither raises [KeyError]. *)
Theorem collection_getitem_spec (st : store) (self : CastCollection) (cs : list Cast) :
  Forall2 (fun o c => objects st !! o = Some c) (casts self) cs ->
  let n := Z.of_nat (length (casts self)) in
  (forall i c,
     (0 <= i < n)%Z -> casts self !! Z.to_nat i = Some c ->
     CastCollection__getitem__ self (CInt i) st = (st, Ok (ICast c))) /\
  (forall i c,
     (- n <= i < 0)%Z -> casts self !! Z.to_nat (n + i) = Some c ->
     CastCollection__getitem__ self (CInt i) st = (st, Ok (ICast c))) /\
  (forall start stop step l,
     py_slice (casts self) start stop step = Ok l ->
     CastCollection__getitem__ self (CSlice start stop step) st =
       (st, Ok (IColl (mkColl l)))) /\
  (forall a b,
     a <= b <= length (casts self) ->
     CastCollection__getitem__ self
         (CSlice (Some (Z.of_nat a)) (Some (Z.of_nat b)) None) st =
       (st, Ok (IColl (mkColl (take (b - a) (drop a (casts self))))))) /\
  (forall s cols m,
     casts self <> [] ->
     Forall2 (fun c col => exists v, dget (data c) s = Some v /\
                                     vec_elems st v = Some col /\ length col = m)
             cs cols ->
     exists mat,
       CastCollection__getitem__ self (CStr s) st = (st, Ok (IMatrix mat)) /\
       nrows mat = m /\ ncols mat = length (casts self) /\
       forall j col r x, cols !! j = Some col -> col !! r = Some x ->
                         mget mat r j = x) /\
  (forall s vals,
     Exists (fun c => dget (data c) s = None) cs ->
     Forall2 (fun c val => dget (properties c) s = Some val) cs vals ->
     CastCollection__getitem__ self (CStr s) st = (st, Ok (IList vals))) /\
  (forall s,
     Exists (fun c => dget (data c) s = None) cs ->
     Exists (fun c => dget (properties c) s = None) cs ->
     CastCollection__getitem__ self (CStr s) st = (st, Raise KeyError)).
Proof.
  intros Hcs n.
  assert (Hget : mapM get_cast (casts self) st = (st, Ok cs)).
  { apply mapM_reads. eapply Forall2_impl; [exact Hcs|].
    intros o c Ho. unfold get_cast. by rewrite Ho. }
  split_and!.
  - intros i c Hi Hc. simpl. unfold bind, lift.
    rewrite <-(Z2Nat.id i) by lia. by rewrite (py_index_nonneg _ _ _ Hc).
  - intros i c Hi Hc. simpl. unfold bind, lift.
    destruct (py_index_negative (casts self) i) as (_ & x & Hx & ->); [lia|].
    fold n in Hx. by assert (x = c) as -> by congruence.
  - intros start stop step l Hl. simpl. unfold bind, lift. by rewrite Hl.
  - intros a b Hab. simpl. unfold bind, lift. by rewrite py_slice_range.
  - intros s cols m Hne Hcols.
    assert (Hall : forallb (fun c => dmem (data c) s) cs = true).
    { apply forallb_Forall_true. eapply Forall2_Forall_l; [exact Hcols|].
      apply Forall_true. intros col c (v & Hv & _). unfold dmem. by rewrite Hv. }
    assert (Hrows : mapM (fun a => cast_vector a s) (casts self) st = (st, Ok cols)).
    { apply mapM_reads. clear Hget Hall Hne.
      revert cols Hcols. induction Hcs as [|o c os cs' Ho _ IH]; intros cols Hcols.
      - inversion Hcols. constructor.
      - inversion Hcols as [|? col ? cols' (v & Hv & Hcol & _) Hrest]; subst.
        constructor; [by eapply cast_vector_data|by apply IH]. }
    assert (Hlen : length cols = length (casts self)).
    { rewrite <-(Forall2_length _ _ _ Hcols). symmetry. by eapply Forall2_length. }
    assert (Hstack : np_vstack cols = Ok (mkMatrix (length cols) m cols)).
    { apply np_vstack_same_length.
      - intros ->. destruct (casts self); [done|]. done.
      - eapply Forall2_Forall_r; [exact Hcols|]. apply Forall_true.
        by intros c col (v & _ & _ & ?). }
    eexists. split.
    { simpl. unfold bind at 1. rewrite Hget, Hall.
      unfold bind at 1. rewrite Hrows. unfold bind, lift. rewrite Hstack. reflexivity. }
    simpl. split; [done|]. split; [done|].
    intros j col r x Hj Hr.
    assert (Hcolm : length col = m).
    { assert (Hin : Forall (fun col => length col = m) cols).
      { eapply Forall2_Forall_r; [exact Hcols|]. apply Forall_true.
        by intros c col' (v & _ & _ & ?). }
      rewrite Forall_forall in Hin. apply Hin. by eapply list_elem_of_lookup_2. }
    unfold transpose. simpl. rewrite mget_mtab.
    + unfold mget. simpl. by rewrite Hj, Hr.
    + apply lookup_lt_Some in Hr. lia.
    + by apply lookup_lt_Some in Hj.
  - intros s vals Hex Hvals.
    assert (Hall : forallb (fun c => dmem (data c) s) cs = false).
    { apply forallb_Exists_false. eapply Exists_impl; [exact Hex|].
      intros c Hc. unfold dmem. by rewrite Hc. }
    assert (Hprops : forallb (fun c => dmem (properties c) s) cs = true).
    { apply forallb_Forall_true. eapply Forall2_Forall_l; [exact Hvals|].
      apply Forall_true. intros val c Hv. unfold dmem. by rewrite Hv. }
    assert (Hrun : mapM (fun a => property a s) (casts self) st = (st, Ok vals)).
    { apply mapM_reads. clear Hget Hall Hprops Hex.
      revert vals Hvals. induction Hcs as [|o c os cs' Ho _ IH]; intros vals Hvals.
      - inversion Hvals. constructor.
      - inversion Hvals as [|? val ? vals' Hv Hrest]; subst.
        constructor; [|by apply IH].
        unfold property, bind, get_cast, lift, dlookup. by rewrite Ho, Hv. }
    simpl. unfold bind at 1. rewrite Hget, Hall, Hprops.
    unfold bind. by rewrite Hrun.
  - intros s Hd Hp. simpl. unfold bind. rewrite Hget.
    rewrite (forallb_Exists_false (fun c => dmem (data c) s)).
    + rewrite (forallb_Exists_false (fun c => dmem (properties c) s)); [done|].
      eapply Exists_impl; [exact Hp|]. intros c Hc. unfold dmem. by rewrite Hc.
    + eapply Exists_impl; [exact Hd|]. intros c Hc. unfold dmem. by rewrite Hc.
Qed.

Lemma collection_getitem_spec_witness :
  Forall2 (fun o c => objects track_store !! o = Some c) (casts track)
          [station 0%float 0 1 2; station 1%float 0 1 2; station 2%float 0 1 2] /\
  CastCollection__getitem__ track (CInt 1) track_store = (track_store, Ok (ICast 1)) /\
  CastCollection__getitem__ track (CInt (-1)) track_store = (track_store, Ok (ICast 2)) /\
  CastCollection__getitem__ track (CSlice (Some 1%Z) (Some 3%Z) None) track_store =
    (track_store, Ok (IColl (mkColl [1; 2]))) /\
  (exists mat,
     CastCollection__getitem__ track (CStr "temp") track_store =
       (track_store, Ok (IMatrix mat)) /\
     nrows mat = 2 /\ ncols mat = 3 /\ mget mat 1 2 = 11%float) /\
  CastCollection__getitem__ track (CStr "depth") track_store =
    (track_store, Ok (IList [PNum 100%float; PNum 100%float; PNum 100%float])) /\
  CastCollection__getitem__ track (CStr "oxygen") track_store =
    (track_store, Raise KeyError).
Proof.
  assert (Hcs : Forall2 (fun o c => objects track_store !! o = Some c) (casts track)
                  [station 0%float 0 1 2; station 1%float 0 1 2; station 2%float 0 1 2])
    by (by repeat constructor).
  split; [exact Hcs|].
  destruct (collection_getitem_spec track_store track _ Hcs)
    as (Hint & Hneg & _ & Hslice & Hmat & Hprop & Hkey).
  split_and!.
  - by apply Hint.
  - by apply Hneg.
  - apply (Hslice 1 3). simpl. lia.
  - destruct (Hmat "temp" [[12%float; 11%float]; [12%float; 11%float]; [12%float; 11%float]] 2)
      as (mat & Hrun & Hr & Hc & Hcell); [done| |].
    { repeat constructor; by exists (Arr 1). }
    exists mat. split_and!; [done..|]. by apply (Hcell 2 [12%float; 11%float] 1).
  - apply Hprop; [|by repeat constructor]. by left.
  - apply Hkey; by left.
Defined.

(** C7 fails as stated in three places.  Two casts of different lengths
    both have the field ["pres"], yet indexing their collection by ["pres"]
    raises [ValueError]: [np.vstack] needs rows of one length.  Every key
    is vacuously a field of every cast of the empty collection, and
    indexing it by a string raises [ValueError] too.  And a key that is a
    data field and a property of every cast returns the matrix, not the
    properties. *)
Lemma collection_getitem_ragged_or_empty :
  (exists st1 st2,
     Cast__init__ (Seq [0%float; 10%float]) PNone None "pres" [] (mkStore [] []) = (st1, Ok 0) /\
     Cast__init__ (Seq [0%float; 10%float; 20%float]) PNone None "pres" [] st1 = (st2, Ok 1) /\
     CastCollection__getitem__ (mkColl [0; 1]) (CStr "pres") st2 =
       (st2, Raise ValueError)) /\
  CastCollection__getitem__ (mkColl []) (CStr "pres") (mkStore [] []) =
    (mkStore [] [], Raise ValueError) /\
  (exists st c mat,
     Cast__init__ (Seq [0%float; 10%float]) PNone (Some [("depth", PNum 100%float)]) "pres"
       [("depth", PVec (Seq [0%float; 9.9%float]))] (mkStore [] []) = (st, Ok 0) /\
     objects st !! 0 = Some c /\
     dget (properties c) "depth" = Some (PNum 100%float) /\
     CastCollection__getitem__ (mkColl [0]) (CStr "depth") st =
       (st, Ok (IMatrix mat))).
Proof.
  split_and!.
  - eexists _, _. split; [vm_compute; reflexivity|].
    split; vm_compute; reflexivity.
  - vm_compute. reflexivity.
  - eexists _, _, _. split; [vm_compute; reflexivity|].
    split; [vm_compute; reflexivity|]. split; vm_compute; reflexivity.
Qed.

(** * Frames *)

Section Frame.
Context (Rc : Cast -> Cast -> Prop) `{!PreOrder Rc}.
Context (na no : nat).

Local Abbreviation framed := (framed Rc na no).
Local Abbreviation within := (within na no).
Local Abbreviation hoare := (hoare Rc na no).
Local Abbreviation frames := (frames Rc na no).

Lemma framed_refl st : framed st st.
Proof. split_and!; try done. intros o c _ Hc. exists c. split; [done|reflexivity]. Qed.

Lemma framed_trans st1 st2 st3 : framed st1 st2 -> framed st2 st3 -> framed st1 st3.
Proof.
  intros (Ha1 & Ho1 & Hl1 & Hm1) (Ha2 & Ho2 & Hl2 & Hm2). split_and!; [| |lia..].
  - intros l Hl. by rewrite Ha2, Ha1.
  - intros o c Ho Hc. destruct (Ho1 o c Ho Hc) as (c' & Hc' & Hr1).
    destruct (Ho2 o c' Ho Hc') as (c'' & Hc'' & Hr2).
    exists c''. split; [done|by etrans].
Qed.

Lemma framed_within st st' : within st -> framed st st' -> within st'.
Proof. intros [? ?] (_ & _ & ? & ?). split; lia. Qed.

Lemma hoare_bind {A B} (P : store -> Prop) (m : M A) (Q : A -> store -> Prop)
    (f : A -> M B) (S : B -> store -> Prop) :
  hoare P m Q -> (forall a, hoare (Q a) (f a) S) -> hoare P (bind m f) S.
Proof.
  intros Hm Hf st Hw HP. destruct (Hm st Hw HP) as [Hfr HQ].
  unfold bind. destruct (m st) as [st1 [a|e]]; simpl in *; [|by split].
  destruct (Hf a st1) as [Hfr2 HS]; [by eapply framed_within|by apply HQ|].
  split; [by eapply framed_trans|done].
Qed.

Lemma hoare_conseq {A} (P P' : store -> Prop) (m : M A) (Q Q' : A -> store -> Prop) :
  (forall st, P' st -> P st) -> (forall a st, Q a st -> Q' a st) ->
  hoare P m Q -> hoare P' m Q'.
Proof.
  intros HP HQ Hm st Hw HP'. destruct (Hm st Hw (HP _ HP')) as [Hfr Hpost].
  split; [done|]. intros a Ha. by apply HQ, Hpost.
Qed.

(** A fact that does not depend on the store can be taken out of the
    precondition. *)
Lemma hoare_pure {A} (phi : Prop) (m : M A) (Q : A -> store -> Prop) :
  (phi -> hoare (fun _ => True) m Q) -> hoare (fun _ => phi) m Q.
Proof. intros H st Hw Hphi. by apply H. Qed.

Lemma hoare_read {A} (P : store -> Prop) (m : M A) :
  pure_read m -> hoare P m (fun a st => P st /\ m st = (st, Ok a)).
Proof.
  intros Hm st Hw HP. specialize (Hm st). destruct (m st) as [st' r] eqn:E.
  simpl in *. subst st'. split; [apply framed_refl|]. by intros a ->.
Qed.

Lemma frames_bind {A B} (m : M A) (phi : A -> Prop) (f : A -> M B) (psi : B -> Prop) :
  frames m phi -> (forall a, phi a -> frames (f a) psi) -> frames (bind m f) psi.
Proof.
  intros Hm Hf. eapply hoare_bind; [exact Hm|].
  intros a. apply (hoare_pure (phi a)). apply Hf.
Qed.

Lemma frames_read {A} (m : M A) : pure_read m -> frames m (fun _ => True).
Proof.
  intros Hm. eapply hoare_conseq; [| |by apply (hoare_read (fun _ => True))]; done.
Qed.

Lemma frames_ret {A} (a : A) (phi : A -> Prop) : phi a -> frames (ret a) phi.
Proof. intros H st _ _. split; [apply framed_refl|]. by intros ? [= <-]. Qed.

Lemma frames_raise {A} (e : exn) (phi : A -> Prop) : frames (raise e) phi.
Proof. intros st _ _. split; [apply framed_refl|]. by intros ? [=]. Qed.

Lemma frames_lift {A} (o : outcome A) : frames (lift o) (fun a => o = Ok a).
Proof. intros st _ _. split; [apply framed_refl|]. by intros a. Qed.

Lemma frames_alloc (xs : list float) : frames (alloc_array xs) (fun l => na <= l).
Proof.
  intros st [Ha Ho] _. simpl. split; [|by intros l [= <-]].
  split_and!; simpl.
  - intros l Hl. apply lookup_app_l. lia.
  - intros o c _ Hc. exists c. split; [done|reflexivity].
  - rewrite length_app. lia.
  - done.
Qed.

Lemma frames_new_cast (c : Cast) : frames (new_cast c) (fun o => no <= o).
Proof.
  intros st [Ha Ho] _. simpl. split; [|by intros l [= <-]].
  split_and!; simpl.
  - done.
  - intros o c' Hlt Hc. exists c'. split; [|reflexivity]. rewrite lookup_app_l; [done|lia].
  - done.
  - rewrite length_app. lia.
Qed.

Lemma frames_write (l : loc) (xs : list float) :
  na <= l -> frames (write_array l xs) (fun _ => True).
Proof.
  intros Hl st [Ha Ho] _. unfold write_array.
  destruct (ndarrays st !! l); simpl; [|split; [apply framed_refl|done]].
  split; [|done]. split_and!; simpl.
  - intros l' Hl'. apply list_lookup_insert_ne. lia.
  - intros o c _ Hc. exists c. split; [done|reflexivity].
  - by rewrite length_insert.
  - done.
Qed.

(** Writing a cast: a new one may be written freely, an old one only in
    a way that [Rc] allows. *)
Lemma hoare_put_cast (o : loc) (c : Cast) :
  hoare (fun st => no <= o \/ exists c0, objects st !! o = Some c0 /\ Rc c0 c)
        (put_cast o c)
        (fun _ st' => objects st' !! o = Some c).
Proof.
  intros st [Ha Ho] HP. unfold put_cast.
  destruct (objects st !! o) as [c0|] eqn:Hc0; simpl; [|split; [apply framed_refl|done]].
  split.
  - split_and!; simpl; [done| |done|by rewrite length_insert].
    intros o' c' Hlt Hc'. destruct (decide (o' = o)) as [->|Hne].
    + destruct HP as [?|(c1 & Hc1 & Hr)]; [lia|].
      pose proof (eq_trans (eq_sym Hc0) Hc') as Heq.
      assert (c1 = c') as -> by congruence.
      exists c. split; [|done].
      apply list_lookup_insert_eq. by eapply lookup_lt_Some.
    + exists c'. split; [|reflexivity]. by rewrite list_lookup_insert_ne.
  - intros _ _. apply list_lookup_insert_eq. by eapply lookup_lt_Some.
Qed.

Lemma frames_put_new (o : loc) (c : Cast) :
  no <= o -> frames (put_cast o c) (fun _ => True).
Proof.
  intros Ho. eapply hoare_conseq; [| |apply hoare_put_cast]; [|done].
  intros st _. by left.
Qed.

(** ** Reads *)

Lemma pure_read_ret {A} (a : A) : pure_read (ret a).
Proof. done. Qed.

Lemma pure_read_raise {A} (e : exn) : pure_read (@raise A e).
Proof. done. Qed.

Lemma pure_read_lift {A} (o : outcome A) : pure_read (lift o).
Proof. done. Qed.

Lemma pure_read_bind {A B} (m : M A) (f : A -> M B) :
  pure_read m -> (forall a, pure_read (f a)) -> pure_read (bind m f).
Proof.
  intros Hm Hf st. unfold bind. specialize (Hm st).
  destruct (m st) as [st' [a|e]]; simpl in *; [|done]. subst. apply Hf.
Qed.

Lemma pure_read_get_cast (o : loc) : pure_read (get_cast o).
Proof. intros st. unfold get_cast. by destruct (objects st !! o). Qed.

Lemma pure_read_read_array (l : loc) : pure_read (read_array l).
Proof. intros st. unfold read_array. by destruct (ndarrays st !! l). Qed.

Lemma pure_read_elems (v : vec) : pure_read (elems v).
Proof. intros st. apply elems_store. Qed.

Lemma pure_read_mapM {A B} (f : A -> M B) (xs : list A) :
  (forall x, pure_read (f x)) -> pure_read (mapM f xs).
Proof.
  intros Hf. induction xs as [|x xs IH]; simpl; [done|].
  apply pure_read_bind; [done|]. intros b.
  apply pure_read_bind; [done|]. intros bs. done.
Qed.

Lemma pure_read_for_each {A B} (e : M B) (xs : list A) :
  pure_read e -> pure_read (for_each e xs).
Proof.
  intros He. induction xs as [|x xs IH]; simpl; [done|].
  apply pure_read_bind; [done|]. intros b.
  apply pure_read_bind; [done|]. intros bs. done.
Qed.

End Frame.

Create HintDb pure_reads.

#[export] Hint Resolve pure_read_get_cast pure_read_read_array pure_read_elems
  pure_read_for_each pure_read_mapM : pure_reads.

Ltac pure_read_step :=
  lazymatch goal with
  | |- pure_read (bind _ _) => apply pure_read_bind; [|intros ?]
  | |- pure_read (ret _) => apply pure_read_ret
  | |- pure_read (raise _) => apply pure_read_raise
  | |- pure_read (lift _) => apply pure_read_lift
  | |- pure_read (match ?x with _ => _ end) => destruct x
  | |- pure_read _ => solve [eauto with pure_reads]
  end.

Ltac pure_read_tac := repeat pure_read_step.

Lemma pure_read_len (v : vec) : pure_read (len v).
Proof. unfold len. pure_read_tac. Qed.
#[export] Hint Resolve pure_read_len : pure_reads.

Lemma pure_read_py_len (val : pyval) : pure_read (py_len val).
Proof. unfold py_len. pure_read_tac. Qed.
#[export] Hint Resolve pure_read_py_len : pure_reads.

Lemma pure_read_row (d : dict vec) (fields : list string) (i : Z) :
  pure_read (row d fields i).
Proof. induction fields as [|a fields IH]; simpl; pure_read_tac. Qed.
#[export] Hint Resolve pure_read_row : pure_reads.

Lemma pure_read_getitem (self : loc) (k : key) : pure_read (Cast__getitem__ self k).
Proof. unfold Cast__getitem__. pure_read_tac. Qed.
#[export] Hint Resolve pure_read_getitem : pure_reads.

Lemma pure_read_cast_vector (self : loc) (k : string) : pure_read (cast_vector self k).
Proof. unfold cast_vector. pure_read_tac. Qed.
#[export] Hint Resolve pure_read_cast_vector : pure_reads.

Lemma pure_read_coords_at (self : loc) (i : Z) : pure_read (coords_at self i).
Proof. unfold coords_at. pure_read_tac. Qed.
#[export] Hint Resolve pure_read_coords_at : pure_reads.

Lemma pure_read_coords (self : loc) : pure_read (coords self).
Proof. unfold coords. pure_read_tac. Qed.
#[export] Hint Resolve pure_read_coords : pure_reads.

Lemma pure_read_property (self : loc) (k : string) : pure_read (property self k).
Proof. unfold property. pure_read_tac. Qed.
#[export] Hint Resolve pure_read_property : pure_reads.

Lemma pure_read_coord_index (cv : pyval) (i : Z) : pure_read (coord_index cv i).
Proof. unfold coord_index. pure_read_tac. Qed.
#[export] Hint Resolve pure_read_coord_index : pure_reads.

Lemma pure_read_avgcolumns (a b : vec) : pure_read (avgcolumns a b).
Proof. unfold avgcolumns. pure_read_tac. Qed.
#[export] Hint Resolve pure_read_avgcolumns : pure_reads.

Lemma pure_read_collection_getitem (self : CastCollection) (k : ckey) :
  pure_read (CastCollection__getitem__ self k).
Proof.
  unfold CastCollection__getitem__. destruct k; pure_read_tac.
  all: apply pure_read_mapM; intros; eauto with pure_reads.
Qed.
#[export] Hint Resolve pure_read_collection_getitem : pure_reads.

Lemma pure_read_cast_at (self : CastCollection) (i : Z) : pure_read (cast_at self i).
Proof. unfold cast_at. pure_read_tac. Qed.
#[export] Hint Resolve pure_read_cast_at : pure_reads.

Lemma pure_read_cast_field (self : CastCollection) (i : Z) (k : string) :
  pure_read (cast_field self i k).
Proof. unfold cast_field. pure_read_tac. Qed.
#[export] Hint Resolve pure_read_cast_field : pure_reads.

Lemma pure_read_projdist_loop {R P} (add : R -> R -> R) (point : pyval -> outcome P)
    (dist : P -> P -> R) (a : P) (last : R) (cs : list loc) :
  pure_read (projdist_loop add point dist a last cs).
Proof.
  revert a last. induction cs as [|c cs IH]; intros a last; simpl; pure_read_tac.
Qed.

Lemma pure_read_projdist {R P} (zero : R) (add : R -> R -> R)
    (point : pyval -> outcome P) (dist : P -> P -> R) (self : CastCollection) :
  pure_read (projdist zero add point dist self).
Proof. unfold projdist. pure_read_tac; apply pure_read_projdist_loop. Qed.
#[export] Hint Resolve pure_read_projdist : pure_reads.

Lemma pure_read_asarray_loop `{E : Externals} (key : string) (i : nat) (cs : list loc)
    (arr : matrix) :
  pure_read (asarray_loop key i cs arr).
Proof.
  revert i arr. induction cs as [|c cs IH]; intros i arr; simpl; pure_read_tac.
Qed.

Lemma pure_read_asarray `{E : Externals} (self : CastCollection) (key : string) :
  pure_read (asarray self key).
Proof.
  unfold asarray. apply pure_read_bind.
  - apply pure_read_mapM. intros. eauto with pure_reads.
  - intros [|c0 rest]; [done|]. destruct (_ <? _)%Z; [done|].
    apply pure_read_asarray_loop.
Qed.
#[export] Hint Resolve pure_read_asarray : pure_reads.

(** ** The methods *)

Lemma stored_fresh (c : Cast) (k : string) (dat : vec) :
  dget (data c) k = None -> stored c k dat = with_field c k dat.
Proof.
  intros H. unfold stored, with_field.
  destruct (bool_decide _); simpl; by rewrite dset_fresh.
Qed.

(** [_addkeydata] either raises and writes nothing, or writes one cast. *)
Lemma addkeydata_outcome (st : store) (self : loc) (k : string) (dat : vec) (ow : bool) :
  (exists e, _addkeydata self k dat ow st = (st, Raise e)) \/
  (exists c key_,
     objects st !! self = Some c /\
     (ow = false -> dget (data c) key_ = None) /\
     _addkeydata self k dat ow st =
       (mkStore (ndarrays st) (<[self := stored c key_ dat]> (objects st)), Ok key_)).
Proof.
  unfold _addkeydata, bind, get_cast.
  destruct (objects st !! self) as [c|] eqn:Hc; [|left; by eexists].
  destruct ow.
  - simpl. right. exists c, k. unfold put_cast. rewrite Hc. split_and!; [done|done|].
    unfold stored. by destruct (bool_decide _).
  - destruct (unused_key_total (data c) k) as (j & Hj & Hfree & _). rewrite Hj. simpl.
    right. exists c, (candidate k j). unfold put_cast. rewrite Hc. split_and!; [done..|].
    unfold stored. by destruct (bool_decide _).
Qed.

Section MethodFrames.
Context (Rc : Cast -> Cast -> Prop) `{!PreOrder Rc} (na no : nat) `{E : Externals}.

Local Abbreviation hoare := (hoare Rc na no).
Local Abbreviation frames := (frames Rc na no).
Local Abbreviation framed := (framed Rc na no).
Local Abbreviation grows_ok := (grows_ok Rc).

Ltac fr_auto :=
  first [ apply frames_lift; done
        | apply frames_alloc; done
        | apply frames_read; [done|solve [pure_read_tac]] ].
Ltac fr_bind tac := eapply frames_bind; [done|tac|intros ? ?].
Ltac h_bind tac :=
  eapply hoare_bind;
  [done|tac|let a := fresh "a" in intros a; cbv beta; apply hoare_pure; intros ?].

Lemma frames_mapM {A B} (f : A -> M B) (phi : B -> Prop) (xs : list A) :
  (forall x, frames (f x) phi) ->
  frames (mapM f xs) (fun bs => Forall phi bs /\ length bs = length xs).
Proof.
  intros Hf. induction xs as [|x xs IH]; simpl.
  - by apply frames_ret.
  - fr_bind ltac:(apply Hf). fr_bind ltac:(apply IH).
    apply frames_ret; [done|]. destruct H0. split; [by constructor|simpl; lia].
Qed.

Lemma frames_np_asarray (v : vec) : frames (np_asarray v) (fun _ => True).
Proof.
  destruct v; simpl.
  - fr_bind ltac:(apply frames_alloc; done). by apply frames_ret.
  - by apply frames_ret.
  - by apply frames_ret.
  - by apply frames_ret.
Qed.

Lemma pure_read_is_field_value (val : pyval) (n : M Z) :
  pure_read n -> pure_read (is_field_value val n).
Proof. intros Hn. unfold is_field_value. destruct (_ && _); pure_read_tac. Qed.

Lemma frames_populate (p : vec) (items : dict pyval) (c : Cast) :
  frames (populate p items c) (fun _ => True).
Proof.
  revert c. induction items as [|[kw val] items IH]; intros c; simpl.
  - by apply frames_ret.
  - fr_bind ltac:(apply frames_read; [done|]; apply pure_read_is_field_value; pure_read_tac).
    destruct a.
    + fr_bind ltac:(apply frames_lift; done).
      fr_bind ltac:(apply frames_np_asarray). apply IH.
    + apply IH.
Qed.

Lemma frames_init (p : vec) (cv : pyval) (props : option (dict pyval)) (pk : string)
    (kwargs : dict pyval) :
  frames (Cast__init__ p cv props pk kwargs) (fun o => no <= o).
Proof.
  unfold Cast__init__.
  fr_bind ltac:(apply frames_np_asarray).
  fr_bind ltac:(apply frames_populate).
  fr_bind fr_auto.
  by apply frames_new_cast.
Qed.

(** On a new cast, [_addkeydata] may write what it likes. *)
Lemma hoare_addkeydata_new (self : loc) (k : string) (dat : vec) (ow : bool) :
  no <= self ->
  hoare (fun _ => True) (_addkeydata self k dat ow)
        (fun key_ st' => exists c, objects st' !! self = Some c /\
                                   dget (data c) key_ = Some dat).
Proof.
  intros Hself st Hw _.
  destruct (addkeydata_outcome st self k dat ow) as [[e ->]|(c & key_ & Hc & _ & ->)]; simpl.
  - split; [by apply framed_refl|done].
  - split.
    + split_and!; simpl; [done| |done|by rewrite length_insert].
      intros o c' Ho Hc'. exists c'. split; [|reflexivity].
      rewrite list_lookup_insert_ne; [done|lia].
    + intros a [= <-]. eexists. split.
      * apply list_lookup_insert_eq. by eapply lookup_lt_Some.
      * simpl. apply dget_dset_eq.
Qed.

(** On any cast, [_addkeydata] without overwriting only adds a field. *)
Lemma frames_addkeydata_grow (self : loc) (k : string) (dat : vec) :
  grows_ok -> frames (_addkeydata self k dat false) (fun _ => True).
Proof.
  intros Hg st Hw _.
  destruct (addkeydata_outcome st self k dat false) as [[e ->]|(c & key_ & Hc & Hfree & ->)];
    simpl.
  - split; [by apply framed_refl|done].
  - split; [|done].
    split_and!; simpl; [done| |done|by rewrite length_insert].
    intros o c' Ho Hc'. destruct (decide (o = self)) as [->|Hne].
    + pose proof (eq_trans (eq_sym Hc) Hc') as [= <-].
      eexists. split; [apply list_lookup_insert_eq; by eapply lookup_lt_Some|].
      rewrite stored_fresh by auto. apply Hg. auto.
    + exists c'. split; [|reflexivity]. by rewrite list_lookup_insert_ne.
Qed.

Lemma frames_addkeydata (self : loc) (k : string) (dat : vec) (ow : bool) :
  no <= self \/ (ow = false /\ grows_ok) ->
  frames (_addkeydata self k dat ow) (fun _ => True).
Proof.
  intros [Hnew|[-> Hg]].
  - eapply hoare_conseq; [| |by apply hoare_addkeydata_new]; done.
  - by apply frames_addkeydata_grow.
Qed.

(** [add_density] on a new cast: the density is a new array, stored in
    the cast under the name that is returned. *)
Lemma hoare_add_density_new (self : loc) :
  no <= self ->
  hoare (fun _ => True) (add_density self)
        (fun key_ st' => exists c l, objects st' !! self = Some c /\
                                     dget (data c) key_ = Some (Arr l) /\ na <= l).
Proof.
  intros Hself. unfold add_density.
  do 13 h_bind fr_auto.
  eapply hoare_conseq; [| |by apply hoare_addkeydata_new]; [done|].
  intros key_ st (c & Hc & Hd). by exists c, a11.
Qed.

(** [add_density] on any cast only adds a field. *)
Lemma frames_add_density_grow (self : loc) :
  grows_ok -> frames (add_density self) (fun _ => True).
Proof.
  intros Hg. unfold add_density.
  do 13 fr_bind fr_auto.
  by apply frames_addkeydata_grow.
Qed.

Lemma frames_guard (b : bool) (e : exn) :
  frames (if b then ret tt else raise e) (fun _ => True).
Proof. destruct b; [by apply frames_ret|by apply frames_raise]. Qed.

Lemma frames_slice_fill (l : loc) (n : nat) (x : float) :
  na <= l -> frames (slice_fill (Arr l) n x) (fun _ => True).
Proof.
  intros Hl. simpl. fr_bind fr_auto. by apply frames_write.
Qed.

(** The integration of [add_depth] writes a new array and one field. *)
Lemma frames_hydrostatic_depth (self : loc) (rho : vec) :
  no <= self \/ grows_ok -> frames (hydrostatic_depth self rho) (fun _ => True).
Proof.
  intros Hself. unfold hydrostatic_depth.
  do 6 fr_bind fr_auto.
  apply frames_addkeydata. destruct Hself; [by left|by right].
Qed.

(** [add_depth()] on a new cast: the only array it overwrites is the
    density that it has just computed. *)
Lemma frames_add_depth_new (self : loc) :
  no <= self -> frames (add_depth self None) (fun _ => True).
Proof.
  intros Hself. unfold add_depth.
  eapply hoare_bind; [done|by apply hoare_add_density_new|]. intros key_.
  eapply hoare_bind; [done|apply hoare_read; [done|pure_read_tac]|]. intros it. cbv beta.
  eapply hoare_conseq with (P := fun _ => exists l, it = Val (PVec (Arr l)) /\ na <= l)
                           (Q := fun _ _ => True); [| done |].
  { intros st [(c & l & Hc & Hd & Hl) Hget]. exists l. split; [|done].
    rewrite (getitem_str_data st self c key_ (Arr l) Hc Hd) in Hget. congruence. }
  apply hoare_pure. intros (l & -> & Hl).
  fr_bind ltac:(apply frames_lift; done). simpl in H. injection H as <-.
  do 3 fr_bind fr_auto.
  fr_bind ltac:(by apply frames_slice_fill).
  apply frames_hydrostatic_depth. by left.
Qed.

(** One turn of the loop of [thermal_wind_inner]: a new cast. *)
Lemma frames_midcast (self : CastCollection) (bottomkey : string) (i : Z) :
  frames (midcast self bottomkey i) (fun o => no <= o).
Proof.
  unfold midcast, CTDCast__init__.
  do 17 fr_bind fr_auto.
  fr_bind ltac:(apply frames_init).
  fr_bind ltac:(by apply frames_add_depth_new).
  do 7 fr_bind fr_auto.
  fr_bind ltac:(by apply frames_put_new).
  by apply frames_ret.
Qed.

(** The last loop of [thermal_wind_inner], over new casts. *)
Lemma frames_store_columns (dudzkey ukey : string) (ow : bool) (dudz u : matrix)
    (ic : nat) (cs : list loc) :
  Forall (fun o => no <= o) cs ->
  frames (store_columns dudzkey ukey ow dudz u ic cs) (fun _ => True).
Proof.
  intros Hcs. revert ic. induction Hcs as [|o cs Ho _ IH]; intros ic; simpl.
  - by apply frames_ret.
  - fr_bind ltac:(apply frames_guard).
    fr_bind fr_auto.
    fr_bind ltac:(apply frames_addkeydata; by left).
    fr_bind ltac:(apply frames_guard).
    fr_bind fr_auto.
    fr_bind ltac:(apply frames_addkeydata; by left).
    apply IH.
Qed.

(** [thermal_wind_inner] writes new objects only, apart from the density
    field that [add_density] adds to every cast of the collection when no
    [rhokey] is given; it returns new casts, one less than it was given. *)
Lemma frames_thermal_wind_inner (self : CastCollection) (rhokey : option string)
    (dudzkey ukey bottomkey : string) (ow : bool) :
  (rhokey = None -> grows_ok) ->
  frames (thermal_wind_inner self rhokey dudzkey ukey bottomkey ow)
         (fun coll => Forall (fun o => no <= o) (casts coll) /\
                      length (casts coll) = length (casts self) - 1).
Proof.
  intros Hg. unfold thermal_wind_inner.
  fr_bind ltac:(idtac).
  { destruct rhokey as [k|].
    - by apply (frames_ret _ _ _ _ (fun _ => True)).
    - eapply frames_bind; [done|apply frames_mapM|].
      + intros o. apply frames_add_density_grow. by apply Hg.
      + intros ks _. destruct ks as [|r0 rest]; [by apply frames_raise|].
        destruct (existsb _ _); [by apply frames_raise|by apply frames_ret]. }
  fr_bind fr_auto.
  fr_bind ltac:(apply frames_mapM; intros; apply frames_midcast).
  do 2 fr_bind fr_auto.
  fr_bind ltac:(apply frames_read; [done|]; apply pure_read_mapM; intros; pure_read_tac).
  do 5 fr_bind fr_auto.
  destruct H1 as [Hnew Hlen].
  fr_bind ltac:(by apply frames_store_columns).
  apply frames_ret; [done|]. simpl. split; [done|]. by rewrite Hlen, length_seq.
Qed.

End MethodFrames.

(** * [thermal_wind_inner] *)

#[export] Instance cast_grows_preorder : PreOrder cast_grows.
Proof.
  split.
  - intros c. by split_and!.
  - intros c1 c2 c3 (? & ? & ? & ? & ?) (? & ? & ? & ? & ?).
    split_and!; try congruence; by etrans.
Qed.

Lemma cast_grows_with_field (c : Cast) (k : string) (d : vec) :
  cast_grows c (with_field c k d).
Proof.
  unfold with_field. split_and!; simpl; try by destruct (bool_decide _).
  - by apply prefix_app_r.
  - destruct (bool_decide _); simpl; [done|by apply prefix_app_r].
Qed.



(** * [add_depth] *)

Lemma leading_nans_spec (k : nat) (a : float) (rest : list float) :
  PrimFloat.is_nan a = false ->
  leading_nans (replicate k NaN ++ a :: rest) = Ok k.
Proof.
  intros Ha. induction k as [|k IH]; simpl.
  - by rewrite Ha.
  - change (PrimFloat.is_nan NaN) with true. cbv iota. by rewrite IH.
Qed.

Lemma dget_prefix {V} (d d' : dict V) (k : string) (v : V) :
  d `prefix_of` d' -> dget d k = Some v -> dget d' k = Some v.
Proof.
  intros [extra ->]. induction d as [|[k' v'] d IH]; simpl; [done|].
  destruct (decide (k = k')); [done|apply IH].
Qed.

Section AddDepth.
Context `{E : Externals}.

(** [add_depth] on a density array that starts with [k] NaNs followed by
    at least two values, the first of which, [a], is not NaN: the array is
    overwritten in place, its first [k] cells receive [b], the value after
    [a], and the integration runs on the result. *)
Lemma add_depth_run (st : store) (self : loc) (c : Cast) (rhokey : string)
    (l : loc) (k : nat) (a b : float) (rest : list float) :
  objects st !! self = Some c ->
  dget (data c) rhokey = Some (Arr l) ->
  ndarrays st !! l = Some (replicate k NaN ++ a :: b :: rest) ->
  PrimFloat.is_nan a = false ->
  add_depth self (Some rhokey) st =
    hydrostatic_depth self (Arr l)
      (mkStore (<[l := replicate k b ++ a :: b :: rest]> (ndarrays st)) (objects st)).
Proof.
  intros Hc Hd Hl Ha. unfold add_depth.
  unfold bind at 1, ret at 1.
  unfold bind at 1. rewrite (getitem_str_data st self c rhokey (Arr l) Hc Hd).
  unfold bind at 1, lift at 1. simpl item_vec.
  unfold bind at 1. simpl elems. unfold read_array at 1. rewrite Hl.
  unfold bind at 1, lift at 1. rewrite (leading_nans_spec k a (b :: rest) Ha).
  assert (Hb : py_index (replicate k NaN ++ a :: b :: rest) (Z.of_nat k + 1) = Ok b).
  { replace (Z.of_nat k + 1)%Z with (Z.of_nat (S k)) by lia. apply py_index_nonneg.
    rewrite lookup_app_r; rewrite length_replicate; [|lia].
    by replace (S k - k) with 1 by lia. }
  unfold bind at 1, lift at 1. rewrite Hb.
  unfold bind at 1. simpl slice_fill. unfold bind at 1, read_array at 1. rewrite Hl.
  unfold write_array. rewrite Hl.
  rewrite length_app, length_replicate.
  replace (k `min` (k + length (a :: b :: rest))) with k by lia.
  rewrite drop_app_length'; [done|by rewrite length_replicate].
Qed.

(** So the stored density vector itself changes: after the call, whether
    the integration succeeded or not, the array that the cast names as
    its density holds [b] where it held NaN. *)
Lemma add_depth_backfill (st : store) (self : loc) (c : Cast) (rhokey : string)
    (l : loc) (k : nat) (a b : float) (rest : list float) :
  objects st !! self = Some c ->
  dget (data c) rhokey = Some (Arr l) ->
  ndarrays st !! l = Some (replicate k NaN ++ a :: b :: rest) ->
  PrimFloat.is_nan a = false ->
  exists st' r c',
    add_depth self (Some rhokey) st = (st', r) /\
    ndarrays st' !! l = Some (replicate k b ++ a :: b :: rest) /\
    objects st' !! self = Some c' /\ dget (data c') rhokey = Some (Arr l).
Proof.
  intros Hc Hd Hl Ha. rewrite (add_depth_run st self c rhokey l k a b rest Hc Hd Hl Ha).
  set (st1 := mkStore _ _).
  assert (Hl1 : ndarrays st1 !! l = Some (replicate k b ++ a :: b :: rest)).
  { simpl. apply list_lookup_insert_eq. by eapply lookup_lt_Some. }
  destruct (frames_hydrostatic_depth cast_grows (length (ndarrays st1)) (length (objects st1))
              self (Arr l)) with (st := st1) as [(Harr & Hobj & _ & _) _]; [|done|done|].
  { right. intros ? ? ? _. apply cast_grows_with_field. }
  destruct (hydrostatic_depth self (Arr l) st1) as [st' r]. simpl in *.
  destruct (Hobj self c) as (c' & Hc' & Hg); [by eapply lookup_lt_Some|done|].
  exists st', r, c'. split_and!; [done| |done|].
  - rewrite Harr; [done|]. by eapply lookup_lt_Some.
  - destruct Hg as (_ & _ & _ & Hp & _). by eapply dget_prefix.
Qed.

(** X17: when a single value follows the NaNs, the read of [rho[nnans+1]] is
    out of range: [add_depth] raises and writes nothing. *)
Lemma add_depth_single_value (st : store) (self : loc) (c : Cast) (rhokey : string)
    (l : loc) (k : nat) (a : float) :
  objects st !! self = Some c ->
  dget (data c) rhokey = Some (Arr l) ->
  ndarrays st !! l = Some (replicate k NaN ++ [a]) ->
  PrimFloat.is_nan a = false ->
  add_depth self (Some rhokey) st = (st, Raise IndexError).
Proof.
  intros Hc Hd Hl Ha. unfold add_depth.
  unfold bind at 1, ret at 1.
  unfold bind at 1. rewrite (getitem_str_data st self c rhokey (Arr l) Hc Hd).
  unfold bind at 1, lift at 1. simpl item_vec.
  unfold bind at 1. simpl elems. unfold read_array at 1. rewrite Hl.
  unfold bind at 1, lift at 1. rewrite (leading_nans_spec k a [] Ha).
  assert (Hb : py_index (replicate k NaN ++ [a]) (Z.of_nat k + 1) = Raise IndexError).
  { unfold py_index. destruct (Z.ltb_spec (Z.of_nat k + 1) 0); [lia|].
    destruct (Z.ltb_spec (Z.of_nat k + 1) 0); [lia|].
    rewrite lookup_ge_None_2; [done|].
    rewrite length_app, length_replicate. simpl. lia. }
  unfold bind, lift. by rewrite Hb.
Qed.

End AddDepth.

Lemma add_depth_backfill_witness :
  (objects gappy_store !! 0 = Some gappy_cast /\ PrimFloat.is_nan 1025%float = false) /\
  exists st' r,
    @add_depth world 0 (Some "rho") gappy_store = (st', r) /\
    ndarrays st' !! 1 = Some [1026%float; 1025%float; 1026%float].
Proof.
  split; [split; reflexivity|].
  destruct (@add_depth_backfill world gappy_store 0 gappy_cast "rho" 1 1 1025%float
              1026%float [] eq_refl eq_refl eq_refl eq_refl)
    as (st' & r & c' & Hrun & Harr & _).
  by exists st', r.
Defined.

Lemma add_depth_single_value_witness :
  @add_depth world 0 (Some "rho") single_store = (single_store, Raise IndexError).
Proof.
  apply (@add_depth_single_value world single_store 0 single_cast "rho" 1 0 1025%float);
    reflexivity.
Defined.

(** C1, on a concrete input: a CTD cast with pressures 0, 10, 20 and the
    density [NaN, 1025, 1026].  [add_depth] fills the leading NaN with
    1026, the value after the first valid one, where the claim (and the
    comment in the code) says the first valid value, 1025; the depth is
    integrated with that density. *)
Theorem add_depth_fills_with_second_value :
  exists st1 st2,
    CTDCast__init__ (Seq [0%float; 10%float; 20%float])
      (PVec (Seq [35%float; 35%float; 35%float]))
      (PVec (Seq [10%float; 10%float; 10%float]))
      (PVec (Seq [0%float; 0%float])) None None
      [("rho", PVec (Seq [NaN; 1025%float; 1026%float]))] (mkStore [] []) = (st1, Ok 0) /\
    cast_vector 0 "rho" st1 = (st1, Ok [NaN; 1025%float; 1026%float]) /\
    @add_depth world 0 (Some "rho") st1 = (st2, Ok "depth") /\
    cast_vector 0 "rho" st2 = (st2, Ok [1026%float; 1025%float; 1026%float]).
Proof.
  eexists _, _. split; [vm_compute; reflexivity|].
  split_and!; vm_compute; reflexivity.
Qed.

(** C10, on a concrete input: a CTD cast with pressures 0, 10 and the
    density [NaN, 1025], one NaN followed by one finite value.
    [add_depth] raises [IndexError], and the density still starts with
    NaN. *)
Theorem add_depth_raises_on_single_value :
  exists st1,
    CTDCast__init__ (Seq [0%float; 10%float])
      (PVec (Seq [35%float; 35%float])) (PVec (Seq [10%float; 10%float]))
      (PVec (Seq [0%float; 0%float])) None None
      [("rho", PVec (Seq [NaN; 1025%float]))] (mkStore [] []) = (st1, Ok 0) /\
    @add_depth world 0 (Some "rho") st1 = (st1, Raise IndexError) /\
    cast_vector 0 "rho" st1 = (st1, Ok [NaN; 1025%float]).
Proof.
  eexists. split; [vm_compute; reflexivity|].
  split; vm_compute; reflexivity.
Qed.

(** * Masks and counts of missing values *)

(** ** NaN *)

Lemma is_nan_Prim2SF (x : float) :
  PrimFloat.is_nan x = true <-> Prim2SF x = S754_nan.
Proof.
  unfold PrimFloat.is_nan. rewrite FloatAxioms.eqb_spec. unfold SFeqb.
  destruct (Prim2SF x) as [s|s| |s m e]; simpl; split; try done.
  - by destruct s.
  - destruct s; rewrite Z.compare_refl, Pos.compare_cont_refl; done.
Qed.

(** A NaN operand makes a sum NaN. *)
Lemma add_nan_l (x y : float) :
  PrimFloat.is_nan x = true -> PrimFloat.is_nan (x + y) = true.
Proof.
  rewrite !is_nan_Prim2SF, FloatAxioms.add_spec. intros ->. reflexivity.
Qed.

Lemma add_nan_r (x y : float) :
  PrimFloat.is_nan y = true -> PrimFloat.is_nan (x + y) = true.
Proof.
  rewrite !is_nan_Prim2SF, FloatAxioms.add_spec. intros ->.
  unfold SF64add. by destruct (Prim2SF x) as [[]|[]| |].
Qed.

(** ** Counting *)

Lemma count_true_app (bs : list bool) (b : bool) :
  count_true (bs ++ [b]) = (count_true bs + if b then 1 else 0)%Z.
Proof. unfold count_true. rewrite foldl_app. simpl. destruct b; lia. Qed.

(** The count of a mask that tabulates [P] is the number of positions
    where [P] holds. *)
Lemma count_true_tab (P : nat -> bool) (bs : list bool) :
  (forall j b, bs !! j = Some b -> b = P j) ->
  count_true bs = Z.of_nat (length (filter (fun j => P j = true) (seq 0 (length bs)))).
Proof.
  induction bs as [|b bs IH] using rev_ind; intros Htab; [done|].
  rewrite length_app, Nat.add_1_r, seq_S, filter_app, length_app, count_true_app.
  rewrite IH by (intros j b' Hj; apply Htab; by apply lookup_app_l_Some).
  rewrite (Htab (length bs) b) by (by apply list_lookup_middle).
  simpl. rewrite filter_cons, filter_nil.
  destruct (P (length bs)); [rewrite decide_True by done|rewrite decide_False by done];
    simpl; lia.
Qed.

Lemma not_nan_lookup (xs : list float) (j : nat) (b : bool) :
  not_nan xs !! j = Some b -> b = valid_at j xs.
Proof.
  unfold not_nan, valid_at. rewrite list_lookup_fmap.
  destruct (xs !! j); simpl; congruence.
Qed.

Lemma length_not_nan (xs : list float) : length (not_nan xs) = length xs.
Proof. apply length_map. Qed.

Lemma broadcast_and_same (xs ys : list bool) :
  length xs = length ys -> broadcast_and xs ys = Ok (zip_with andb xs ys).
Proof. intros H. unfold broadcast_and. by rewrite bool_decide_true. Qed.

(** From its second call on, the lambda of [nvalid] forgets the mask it
    is given: what [reduce] returns is the mask of the last vector. *)
Lemma reduce_masks_last (n : nat) (acc : list bool) (vectors : list (list float))
    (xs : list float) :
  length acc = n ->
  Forall (fun v => length v = n) vectors ->
  last vectors = Some xs ->
  reduce_masks acc vectors = Ok (not_nan xs).
Proof.
  revert acc. induction vectors as [|b rest IH]; intros acc Hacc Hall Hlast; [done|].
  apply Forall_cons in Hall as [Hb Hrest]. simpl.
  rewrite broadcast_and_same
    by (unfold not_nan_mask; rewrite length_map, length_not_nan; congruence).
  assert (Hm : zip_with andb (not_nan_mask acc) (not_nan b) = not_nan b).
  { assert (Hlen : length acc = length (not_nan b)) by (rewrite length_not_nan; congruence).
    clear -Hlen. revert Hlen. generalize (not_nan b) as m.
    induction acc as [|a acc IH]; intros [|x m] Hlen; simpl in *; try done.
    f_equal. apply IH. lia. }
  rewrite Hm. destruct rest as [|b' rest'].
  - simpl in Hlast. by injection Hlast as ->.
  - apply IH; [by rewrite length_not_nan|done|done].
Qed.

Lemma nvalid_vectors (st : store) (c : Cast) (ks : list string)
    (vectors : list (list float)) :
  field_vectors st c ks vectors ->
  mapM (fun k => let* v := lift (dlookup (data c) k) in elems v) ks st
  = (st, Ok vectors).
Proof.
  intros Hv. apply mapM_reads. eapply Forall2_impl; [exact Hv|].
  intros k xs (v & Hk & Hxs). unfold bind, lift, dlookup.
  by rewrite Hk, (elems_Some _ _ _ Hxs).
Qed.

Lemma field_vectors_length (st : store) (c : Cast) (ks : list string)
    (vectors : list (list float)) :
  cast_inv st c -> field_vectors st c ks vectors ->
  Forall (fun v => length v = Z.to_nat (_len c)) vectors.
Proof.
  intros (_ & _ & Hl) Hv. induction Hv as [|k xs ks vs (v & Hk & Hxs) _ IH]; [done|].
  constructor; [|done]. destruct (Hl k v Hk) as (xs' & Hxs' & Hn).
  assert (xs' = xs) as -> by congruence. lia.
Qed.

(** X1: with one or two fields, [nvalid] returns the number of complete
    observations: the rows where none of the fields holds a NaN. *)
Theorem nvalid_one_or_two (st : store) (self : loc) (c : Cast)
    (fields : option fieldsel) (vectors : list (list float)) :
  objects st !! self = Some c ->
  cast_inv st c ->
  field_vectors st c (nvalid_fields c fields) vectors ->
  1 <= length vectors <= 2 ->
  nvalid self fields st = (st, Ok (complete_rows (Z.to_nat (_len c)) vectors)).
Proof.
  intros Hc Hinv Hv Hn. pose proof (field_vectors_length st c _ _ Hinv Hv) as Hlen.
  unfold nvalid. unfold bind at 1, get_cast at 1. rewrite Hc.
  unfold bind at 1. rewrite (nvalid_vectors st c _ _ Hv).
  destruct vectors as [|a [|b [|]]]; simpl in Hn; try lia.
  - apply Forall_cons in Hlen as [Ha _]. unfold ret, complete_rows. do 2 f_equal.
    rewrite (count_true_tab (fun j => forallb (valid_at j) [a])).
    + by rewrite length_not_nan, Ha.
    + intros j b Hj. simpl. rewrite andb_true_r. by apply not_nan_lookup.
  - apply Forall_cons in Hlen as [Ha Hlen]. apply Forall_cons in Hlen as [Hb _].
    unfold bind, lift. rewrite broadcast_and_same by (rewrite !length_not_nan; congruence).
    simpl. unfold ret, complete_rows. do 2 f_equal.
    rewrite (count_true_tab (fun j => forallb (valid_at j) [a; b])).
    + by rewrite length_zip_with, !length_not_nan, Ha, Hb, Nat.min_id.
    + intros j m Hj. simpl. rewrite andb_true_r.
      apply lookup_zip_with_Some in Hj as (x & y & -> & Hx & Hy).
      by rewrite (not_nan_lookup _ _ _ Hx), (not_nan_lookup _ _ _ Hy).
Qed.

(** X2: with three or more fields, and so by default on a CTD cast,
    [nvalid] returns the number of values of the last field that are not
    NaN, whatever the other fields hold. *)
Theorem nvalid_counts_last_field (st : store) (self : loc) (c : Cast)
    (fields : option fieldsel) (vectors : list (list float)) (xs : list float) :
  objects st !! self = Some c ->
  cast_inv st c ->
  field_vectors st c (nvalid_fields c fields) vectors ->
  3 <= length vectors ->
  last vectors = Some xs ->
  nvalid self fields st = (st, Ok (complete_rows (Z.to_nat (_len c)) [xs])).
Proof.
  intros Hc Hinv Hv Hn Hlast. pose proof (field_vectors_length st c _ _ Hinv Hv) as Hlen.
  unfold nvalid. unfold bind at 1, get_cast at 1. rewrite Hc.
  unfold bind at 1. rewrite (nvalid_vectors st c _ _ Hv).
  destruct vectors as [|a [|b [|b' rest]]]; simpl in Hn; try lia.
  apply Forall_cons in Hlen as [Ha Hlen]. apply Forall_cons in Hlen as [Hb Hrest].
  unfold bind, lift. rewrite broadcast_and_same by (rewrite !length_not_nan; congruence).
  rewrite (reduce_masks_last (Z.to_nat (_len c)) _ (b' :: rest) xs); [| |done|done].
  - unfold ret, complete_rows. do 2 f_equal.
    assert (Hx : length xs = Z.to_nat (_len c)).
    { rewrite Forall_forall in Hrest. apply Hrest. by apply last_Some_elem_of. }
    rewrite (count_true_tab (fun j => forallb (valid_at j) [xs])).
    + by rewrite length_not_nan, Hx.
    + intros j m Hj. simpl. rewrite andb_true_r. by apply not_nan_lookup.
  - by rewrite length_zip_with, !length_not_nan, Ha, Hb, Nat.min_id.
Qed.

Lemma ctd_cast_inv : cast_inv ctd_store ctd_cast.
Proof.
  split; [|split].
  - compute_done.
  - by exists (Arr 0).
  - intros k v. simpl.
    repeat (case_decide; [intros [= <-]; eexists; split; [reflexivity|done]|]).
    done.
Qed.

Lemma nvalid_one_or_two_witness :
  nvalid 0 (Some (FSeq ["sal"; "temp"])) ctd_store = (ctd_store, Ok 2%Z) /\
  nvalid 0 (Some (FStr "sal")) ctd_store = (ctd_store, Ok 2%Z).
Proof.
  split.
  - apply (nvalid_one_or_two ctd_store 0 ctd_cast (Some (FSeq ["sal"; "temp"]))
             [[NaN; 35%float; 35%float]; [4%float; 3%float; 2%float]]
             eq_refl ctd_cast_inv).
    + repeat constructor; eexists; split; reflexivity.
    + simpl. lia.
  - apply (nvalid_one_or_two ctd_store 0 ctd_cast (Some (FStr "sal"))
             [[NaN; 35%float; 35%float]] eq_refl ctd_cast_inv).
    + repeat constructor; eexists; split; reflexivity.
    + simpl. lia.
Defined.

Lemma nvalid_counts_last_field_witness :
  complete_rows 3 [[0%float; 10%float; 20%float]; [NaN; 35%float; 35%float];
                   [4%float; 3%float; 2%float]] = 2%Z /\
  nvalid 0 None ctd_store = (ctd_store, Ok 3%Z).
Proof.
  split; [reflexivity|].
  apply (nvalid_counts_last_field ctd_store 0 ctd_cast None
           [[0%float; 10%float; 20%float]; [NaN; 35%float; 35%float];
            [4%float; 3%float; 2%float]] [4%float; 3%float; 2%float]
           eq_refl ctd_cast_inv).
  - repeat constructor; eexists; split; reflexivity.
  - simpl. lia.
  - reflexivity.
Defined.

(** ** [nanmask] *)

(** A NaN in the running sum stays. *)
Lemma sum_rows_nan_acc (n j : nat) (rest : list (list float)) (acc : list float) (a : float) :
  Forall (fun r => length r = n) rest ->
  length acc = n ->
  acc !! j = Some a -> PrimFloat.is_nan a = true ->
  exists y, foldl (zip_with PrimFloat.add) acc rest !! j = Some y /\
            PrimFloat.is_nan y = true.
Proof.
  revert acc a. induction rest as [|b rest IH]; intros acc a Hall Hacc Ha Hnan; simpl.
  - by exists a.
  - apply Forall_cons in Hall as [Hb Hrest].
    destruct (lookup_lt_is_Some_2 b j) as [y Hy].
    { rewrite Hb, <-Hacc. by eapply lookup_lt_Some. }
    apply (IH _ (a + y)%float); [done| | |by apply add_nan_l].
    + by rewrite length_zip_with, Hacc, Hb, Nat.min_id.
    + apply lookup_zip_with_Some. by exists a, y.
Qed.

(** A NaN in any row makes the sum of its column NaN. *)
Lemma sum_rows_nan (n j : nat) (rest : list (list float)) (acc xs : list float) (x : float) :
  Forall (fun r => length r = n) rest ->
  length acc = n ->
  xs ∈ acc :: rest ->
  xs !! j = Some x -> PrimFloat.is_nan x = true ->
  exists y, foldl (zip_with PrimFloat.add) acc rest !! j = Some y /\
            PrimFloat.is_nan y = true.
Proof.
  revert acc. induction rest as [|b rest IH]; intros acc Hall Hacc Hin Hx Hnan.
  - apply list_elem_of_singleton in Hin as ->. by exists x.
  - apply elem_of_cons in Hin as [->|Hin].
    { by apply (sum_rows_nan_acc n j (b :: rest) acc x). }
    apply Forall_cons in Hall as [Hb Hrest]. simpl.
    assert (Hlen : length (zip_with PrimFloat.add acc b) = n)
      by (by rewrite length_zip_with, Hacc, Hb, Nat.min_id).
    apply elem_of_cons in Hin as [->|Hin].
    + destruct (lookup_lt_is_Some_2 acc j) as [a Ha].
      { rewrite Hacc, <-Hb. by eapply lookup_lt_Some. }
      apply (sum_rows_nan_acc n j rest _ (a + x)%float); [done|done| |by apply add_nan_r].
      apply lookup_zip_with_Some. by exists a, x.
    + apply IH; [done|done| |done|done]. by right.
Qed.

Lemma length_sum_rows (n : nat) (rest : list (list float)) (acc : list float) :
  Forall (fun r => length r = n) rest ->
  length acc = n ->
  length (foldl (zip_with PrimFloat.add) acc rest) = n.
Proof.
  revert acc. induction rest as [|b rest IH]; intros acc Hall Hacc; [done|].
  apply Forall_cons in Hall as [Hb Hrest]. simpl. apply IH; [done|].
  by rewrite length_zip_with, Hacc, Hb, Nat.min_id.
Qed.

(** The vectors that [nanmask] stacks: those of the selected keys of
    [data], in the order of the dictionary. *)
Lemma nanmask_vectors (st : store) (d : dict vec) (sel : fieldsel) (n : Z) :
  (forall kv, kv ∈ d -> has_len st kv.2 n) ->
  exists vectors,
    mapM (fun kv : string * vec => elems kv.2)
         (filter (fun kv : string * vec => py_in kv.1 sel = true) d) st
    = (st, Ok vectors) /\
    Forall (fun r => length r = Z.to_nat n) vectors /\
    (vectors = [] <-> forall kv, kv ∈ d -> py_in kv.1 sel = false) /\
    forall kv xs, kv ∈ d -> py_in kv.1 sel = true ->
                  vec_elems st kv.2 = Some xs -> xs ∈ vectors.
Proof.
  unfold dict in *. induction d as [|[k0 v0] d IH]; intros Hall.
  - exists []. split_and!; [done|done| |].
    + split; [|done]. intros _ kv Hkv. by apply elem_of_nil in Hkv.
    + intros kv xs Hkv. by apply elem_of_nil in Hkv.
  - destruct IH as (vs & Hrun & Hlen & Hnil & Hin).
    { intros kv Hkv. apply Hall. by right. }
    destruct (Hall (k0, v0)) as (xs0 & Hxs0 & Hn0); [by left|]. simpl in Hxs0.
    destruct (decide (py_in k0 sel = true)) as [Hsel|Hsel].
    + exists (xs0 :: vs). rewrite filter_cons_True by done.
      simpl. unfold bind at 1. rewrite (elems_Some _ _ _ Hxs0).
      unfold bind. rewrite Hrun. split_and!; [done| | |].
      * constructor; [lia|done].
      * split; [done|]. intros Hnone. specialize (Hnone (k0, v0)). simpl in Hnone.
        rewrite Hnone in Hsel; [done|by left].
      * intros kv xs Hkv Hk Hxs. apply elem_of_cons in Hkv as [->|Hkv].
        -- simpl in Hxs. assert (xs = xs0) as -> by congruence. by left.
        -- right. by apply (Hin kv).
    + exists vs. rewrite filter_cons_False by done. split_and!; [done|done| |].
      * split.
        -- intros Hvs kv Hkv. apply elem_of_cons in Hkv as [->|Hkv].
           ++ simpl. by destruct (py_in k0 sel).
           ++ by apply Hnil.
        -- intros Hnone. apply Hnil. intros kv Hkv. apply Hnone. by right.
      * intros kv xs Hkv Hk Hxs. apply elem_of_cons in Hkv as [->|Hkv]; [done|].
        by apply (Hin kv).
Qed.

(** X3: [nanmask] marks every row at which one of the selected fields
    holds a NaN; the names of [fields] that are not keys of [data] are
    passed over, and when no key of [data] is selected the call raises
    [ValueError]. *)
Theorem nanmask_marks_nan (st : store) (self : loc) (c : Cast) (fields : option fieldsel) :
  objects st !! self = Some c ->
  cast_inv st c ->
  ((forall k, k ∈ keys (data c) -> py_in k (nanmask_fields c fields) = false) ->
   nanmask self fields st = (st, Raise ValueError)) /\
  ((exists k, k ∈ keys (data c) /\ py_in k (nanmask_fields c fields) = true) ->
   exists mask,
     nanmask self fields st = (st, Ok mask) /\
     Z.of_nat (length mask) = _len c /\
     forall k v xs j x,
       py_in k (nanmask_fields c fields) = true ->
       dget (data c) k = Some v -> vec_elems st v = Some xs ->
       xs !! j = Some x -> PrimFloat.is_nan x = true ->
       mask !! j = Some true).
Proof.
  intros Hc Hinv. pose proof Hinv as (Hnd & [vp Hvp] & Hl).
  destruct (nanmask_vectors st (data c) (nanmask_fields c fields) (_len c))
    as (vs & Hrun & Hlen & Hnil & Hin).
  { intros [k v] Hkv. apply (Hl k v). by apply elem_of_dget. }
  assert (Hpos : (0 <= _len c)%Z) by (destruct (Hl _ _ Hvp) as (? & _ & <-); lia).
  assert (Heq : nanmask self fields st =
                 (let* m := lift (np_vstack vs) in ret (np_isnan (sum_axis0 m))) st).
  { unfold nanmask. unfold bind at 1, get_cast at 1. rewrite Hc.
    unfold dict in *. unfold bind at 1. by rewrite Hrun. }
  rewrite Heq. clear Heq. split.
  - intros Hnone. rewrite (proj2 Hnil); [done|].
    intros [k v] Hkv. apply Hnone. unfold keys. apply list_elem_of_fmap. by exists (k, v).
  - intros (k & Hk & Hsel).
    assert (Hvs : vs <> []).
    { intros Hvs. apply dmem_true_keys in Hk. unfold dmem in Hk.
      destruct (dget (data c) k) as [v|] eqn:Hg; [|done].
      pose proof (proj1 Hnil Hvs (k, v) (dget_elem_of _ _ _ Hg)) as Hno.
      simpl in Hno. congruence. }
    unfold bind, lift. rewrite (np_vstack_same_length vs (Z.to_nat (_len c)) Hvs Hlen).
    unfold ret, sum_axis0. simpl. destruct vs as [|r rest]; [done|].
    apply Forall_cons in Hlen as [Hr Hrest].
    eexists. split; [reflexivity|]. split.
    + unfold np_isnan. rewrite length_map, (length_sum_rows (Z.to_nat (_len c))) by done. lia.
    + intros k' v xs j x Hk' Hg Hxs Hx Hnan.
      destruct (sum_rows_nan (Z.to_nat (_len c)) j rest r xs x) as (y & Hy & Hynan);
        [done|done| |done|done|].
      { apply (Hin (k', v) xs); [by apply dget_elem_of|done|done]. }
      unfold np_isnan. by rewrite list_lookup_fmap, Hy; simpl; rewrite Hynan.
Qed.

Lemma nanmask_marks_nan_witness :
  nanmask 0 None ctd_store = (ctd_store, Ok [true; false; false]) /\
  nanmask 0 (Some (FSeq ["oxygen"])) ctd_store = (ctd_store, Raise ValueError).
Proof.
  split.
  - destruct (nanmask_marks_nan ctd_store 0 ctd_cast None eq_refl ctd_cast_inv) as [_ H].
    destruct H as (mask & Hrun & _ & _).
    { exists "sal". split; [|reflexivity]. right; left. }
    rewrite Hrun. vm_compute in Hrun. congruence.
  - apply (nanmask_marks_nan ctd_store 0 ctd_cast (Some (FSeq ["oxygen"])) eq_refl ctd_cast_inv).
    intros k Hk. simpl in Hk.
    repeat (apply elem_of_cons in Hk as [->|Hk]; [reflexivity|]).
    by apply elem_of_nil in Hk.
Defined.

(** * [CastCollection.asarray] *)

Section Asarray.
Context `{E : Externals}.

(** The column of the cast [c] under [key]: a vector of [len(c)] elements. *)
Local Abbreviation column st key :=
  (fun (c : Cast) (xs : list float) =>
     exists v, dget (data c) key = Some v /\ vec_elems st v = Some xs /\
               Z.of_nat (length xs) = _len c).

(** The loop of [asarray] writes the column of the cast at position [i]
    into the rows above its length, and nothing else. *)
Lemma asarray_loop_spec (key : string) (st : store) (R n : nat)
    (os : list loc) (cs : list Cast) (cols : list (list float)) (i : nat) (arr : matrix) :
  Forall2 (fun o c => objects st !! o = Some c) os cs ->
  Forall2 (column st key) cs cols ->
  Forall (fun xs => length xs <= R) cols ->
  nrows arr = R -> ncols arr = n -> i + length cols <= n ->
  exists m,
    asarray_loop key i os arr st = (st, Ok m) /\
    nrows m = R /\ ncols m = n /\
    forall r j, r < R -> j < n ->
      mget m r j =
        match (if decide (i <= j) then cols !! (j - i) else None) with
        | Some xs => default (mget arr r j) (xs !! r)
        | None => mget arr r j
        end.
Proof.
  intros Hos Hcols. revert cols Hcols i arr.
  induction Hos as [|o c os cs Ho _ IH]; intros cols Hcols i arr Hle HR Hn Hi.
  - apply Forall2_nil_inv_l in Hcols as ->. exists arr. split_and!; [done..|].
    intros r j _ _. by destruct (decide (i <= j)); [rewrite lookup_nil|].
  - apply Forall2_cons_inv_l in Hcols as (xs & cols' & (v & Hv & Hxs & Hlen) & Hcols & ->).
    apply Forall_cons in Hle as [Hxle Hle]. simpl in Hi.
    simpl. unfold bind at 1, get_cast at 1. rewrite Ho.
    unfold bind at 1. rewrite (getitem_str_data st o c key v Ho Hv).
    unfold bind at 1. rewrite (elems_Some _ _ _ Hxs).
    assert (Hrows : rows_upto (_len c) (nrows arr) = length xs).
    { unfold rows_upto. destruct (Z.ltb_spec (_len c) 0); lia. }
    unfold bind at 1, lift at 1, set_column. rewrite Hrows, bool_decide_true by done.
    set (arr' := mtab _ _ _).
    destruct (IH cols' Hcols (S i) arr') as (m & Hrun & HmR & Hmn & Hm);
      [done|done|done|lia|].
    exists m. split_and!; [done..|].
    intros r j Hr Hj. rewrite (Hm r j Hr Hj).
    assert (Harr' : mget arr' r j =
              if bool_decide (j = i /\ r < length xs) then default NaN (xs !! r)
              else mget arr r j).
    { unfold arr'. rewrite mget_mtab by lia. done. }
    rewrite Harr'. destruct (decide (S i <= j)) as [Hj'|Hj'].
    + rewrite decide_True by lia. rewrite bool_decide_false by lia.
      replace (j - i) with (S (j - S i)) by lia. done.
    + destruct (decide (i <= j)) as [Hij|Hij].
      * assert (j = i) as -> by lia. rewrite Nat.sub_diag. simpl.
        case_bool_decide as Hb.
        -- destruct Hb as [_ Hb]. by destruct (lookup_lt_is_Some_2 xs r Hb) as [x ->].
        -- rewrite lookup_ge_None_2 by lia. done.
      * rewrite bool_decide_false by lia. done.
Qed.

Lemma max_len_foldr (c0 : Cast) (rest : list Cast) (x0 : list float) (cols : list (list float)) :
  Z.of_nat (length x0) = _len c0 ->
  Forall2 (fun (c : Cast) (xs : list float) => Z.of_nat (length xs) = _len c) rest cols ->
  foldr (fun c m => Z.max (_len c) m) (_len c0) rest
  = Z.of_nat (max_list (length <$> (x0 :: cols))).
Proof.
  intros H0 Hall. simpl. induction Hall as [|c xs rest cols Hc _ IH]; simpl.
  - lia.
  - rewrite IH. lia.
Qed.

(** X4: [asarray(key)] on a collection that is not empty, where every
    cast holds a vector of its length under [key]: the array has as many
    rows as the longest cast and one column for every cast, and the column
    of a cast holds its vector followed by NaN. *)
Theorem asarray_spec (st : store) (self : CastCollection) (key : string)
    (cs : list Cast) (cols : list (list float)) :
  casts self <> [] ->
  Forall2 (fun o c => objects st !! o = Some c) (casts self) cs ->
  Forall2 (fun (c : Cast) (xs : list float) =>
             exists v, dget (data c) key = Some v /\ vec_elems st v = Some xs /\
                       Z.of_nat (length xs) = _len c) cs cols ->
  exists m,
    asarray self key st = (st, Ok m) /\
    nrows m = max_list (length <$> cols) /\
    ncols m = length (casts self) /\
    forall i xs r, cols !! i = Some xs -> r < nrows m ->
      mget m r i = default NaN (xs !! r).
Proof.
  intros Hne Hos Hcols. unfold asarray.
  unfold bind at 1. rewrite (mapM_reads get_cast st (casts self) cs).
  2:{ eapply Forall2_impl; [exact Hos|]. intros o c Ho. unfold get_cast. by rewrite Ho. }
  destruct cs as [|c0 rest].
  { apply Forall2_nil_inv_r in Hos. done. }
  pose proof Hcols as Hcols'.
  apply Forall2_cons_inv_l in Hcols' as (x0 & cols' & (v0 & _ & _ & Hl0) & Hrest & ->).
  rewrite (max_len_foldr c0 rest x0 cols' Hl0).
  2:{ eapply Forall2_impl; [exact Hrest|]. by intros c xs (v & _ & _ & Hl). }
  destruct (Z.ltb_spec (Z.of_nat (max_list (length <$> x0 :: cols'))) 0); [lia|].
  rewrite Nat2Z.id.
  set (R := max_list (length <$> x0 :: cols')).
  set (n := length (c0 :: rest)).
  assert (Hn : n = length (casts self)) by (symmetry; by eapply Forall2_length).
  destruct (asarray_loop_spec key st R n (casts self) (c0 :: rest) (x0 :: cols') 0
              (mtab R n (fun i j => PrimFloat.mul NaN (uninit (i * n + j)))))
    as (m & Hrun & HmR & Hmn & Hm); [done|done| |done|done| |].
  { apply Forall_forall. intros xs Hxs. apply max_list_elem_of_le.
    apply list_elem_of_fmap. by exists xs. }
  { apply Forall2_length in Hcols. simpl in *. unfold n. simpl. lia. }
  exists m. split_and!; [done|done|congruence|].
  intros i xs r Hi Hr. rewrite HmR in Hr.
  assert (Hin : i < n).
  { apply lookup_lt_Some in Hi. apply Forall2_length in Hcols. unfold n. lia. }
  rewrite (Hm r i Hr Hin). rewrite decide_True by lia. rewrite Nat.sub_0_r, Hi.
  by rewrite mget_mtab, mul_nan_l by done.
Qed.

End Asarray.

(** * [CastCollection.defray] *)

Section DefrayFacts.
Context `{E : Externals}.

Lemma memo_ok_prefix (st st' : store) (memo : list (loc * loc)) :
  ndarrays st `prefix_of` ndarrays st' -> memo_ok st memo -> memo_ok st' memo.
Proof.
  intros Hp Hm a b Hab. destruct (Hm a b Hab) as (xs & Ha & Hb).
  exists xs. split; by eapply prefix_lookup_Some.
Qed.

Lemma deepcopy_vec_content (memo : list (loc * loc)) (v : vec) (xs : list float)
    (st : store) :
  vec_elems st v = Some xs ->
  memo_ok st memo ->
  exists st' memo' v',
    deepcopy_vec memo v st = (st', Ok (memo', v')) /\
    objects st' = objects st /\
    ndarrays st `prefix_of` ndarrays st' /\
    vec_elems st' v' = Some xs /\
    memo_ok st' memo'.
Proof.
  intros Hxs Hm. destruct v as [ys|l| |]; simpl in *; [| |done|done].
  - by eexists _, _, _.
  - destruct (memo_get memo l) as [l'|] eqn:Hl.
    + destruct (Hm l l' Hl) as (zs & Ha & Hb).
      eexists _, _, _. split; [reflexivity|]. split_and!; [done..| |done].
      simpl. congruence.
    + unfold bind, read_array, alloc_array, ret. rewrite Hxs.
      eexists _, _, _. split; [reflexivity|]. simpl.
      assert (Hp : ndarrays st `prefix_of` ndarrays st ++ [xs]) by (by apply prefix_app_r).
      split_and!; [done|done|apply lookup_last|].
      intros a b. simpl. case_decide as Ha.
      * intros [= <-]. subst a. exists xs. split; [|apply lookup_last].
        by eapply prefix_lookup_Some.
      * intros Hab. destruct (Hm a b Hab) as (zs & Hza & Hzb).
        exists zs. split; by eapply prefix_lookup_Some.
Qed.

Lemma deepcopy_props_memo (memo : list (loc * loc)) (d : dict pyval) (st : store) :
  Forall (fun kv => val_ok st kv.2) d ->
  memo_ok st memo ->
  exists st' memo' r,
    deepcopy_props memo d st = (st', Ok (memo', r)) /\
    objects st' = objects st /\
    ndarrays st `prefix_of` ndarrays st' /\
    memo_ok st' memo'.
Proof.
  revert memo st. induction d as [|[k val] d IH]; intros memo st Hok Hm; simpl.
  - by eexists _, _, _.
  - apply Forall_cons in Hok as [Hval Hok]. simpl in Hval.
    assert (Hstep : forall st1, ndarrays st `prefix_of` ndarrays st1 ->
                      Forall (fun kv : string * pyval => val_ok st1 kv.2) d).
    { intros st1 Hp1. eapply Forall_impl; [exact Hok|]. intros [k' v'] Hv. simpl in *.
      destruct v'; try done. destruct Hv as [ys Hys]. exists ys.
      by eapply vec_elems_prefix. }
    destruct val as [| x | s | w].
    1-3: destruct (IH memo st Hok Hm) as (st' & memo2 & rest' & Hrun & Hobj & Hp & Hm');
         unfold bind; rewrite Hrun; by eexists _, _, _.
    destruct Hval as [xs Hxs].
    destruct (deepcopy_vec_content memo w xs st Hxs Hm)
      as (st1 & memo1 & v' & Hrun1 & Hobj1 & Hp1 & _ & Hm1).
    destruct (IH memo1 st1 (Hstep st1 Hp1) Hm1) as (st' & memo2 & rest' & Hrun & Hobj & Hp & Hm').
    unfold bind. rewrite Hrun1, Hrun. eexists _, _, _. split; [reflexivity|].
    split_and!; [congruence|by etrans|done].
Qed.

Lemma deepcopy_data_content (memo : list (loc * loc)) (d : dict vec) (st : store) :
  Forall (fun kv => is_Some (vec_elems st kv.2)) d ->
  memo_ok st memo ->
  exists st' memo' d',
    deepcopy_data memo d st = (st', Ok (memo', d')) /\
    objects st' = objects st /\
    ndarrays st `prefix_of` ndarrays st' /\
    keys d' = keys d /\
    forall k v xs, dget d k = Some v -> vec_elems st v = Some xs ->
      exists v', dget d' k = Some v' /\ vec_elems st' v' = Some xs.
Proof.
  revert memo st. induction d as [|[k0 v0] d IH]; intros memo st Hok Hm; simpl.
  - eexists _, _, _. split; [reflexivity|]. by split_and!.
  - apply Forall_cons in Hok as [[xs0 Hxs0] Hok]. simpl in Hxs0.
    destruct (deepcopy_vec_content memo v0 xs0 st Hxs0 Hm)
      as (st1 & memo1 & v0' & Hrun1 & Hobj1 & Hp1 & Hv0' & Hm1).
    destruct (IH memo1 st1) as (st' & memo2 & rest' & Hrun & Hobj & Hp & Hk & Hget);
      [|done|].
    { eapply Forall_impl; [exact Hok|]. intros [k' w] [ys Hys]. exists ys.
      by eapply vec_elems_prefix. }
    unfold bind. rewrite Hrun1, Hrun. eexists _, _, _. split; [reflexivity|].
    simpl. split_and!; [congruence|by etrans|by rewrite Hk|].
    intros k v xs. case_decide as Hkk.
    + intros [= <-] Hxs. exists v0'. split; [done|].
      assert (xs = xs0) as -> by congruence. by eapply vec_elems_prefix.
    + intros Hv Hxs. apply (Hget k v xs Hv). by eapply vec_elems_prefix.
Qed.

(** [copy.deepcopy] of a cast: a new object with the same names and
    length whose vectors hold the same elements, and that satisfies the
    invariant. *)
Lemma deepcopy_content (self : loc) (st : store) (c : Cast) :
  objects st !! self = Some c ->
  cast_inv st c ->
  Forall (fun kv => val_ok st kv.2) (properties c) ->
  exists st' rc,
    deepcopy self st = (st', Ok (length (objects st))) /\
    objects st' = objects st ++ [rc] /\
    ndarrays st `prefix_of` ndarrays st' /\
    _len rc = _len c /\
    padded_copy st st' c rc [] /\
    cast_inv st' rc.
Proof.
  intros Hc Hinv Hprops. unfold deepcopy, bind, get_cast. rewrite Hc.
  destruct (deepcopy_props_memo [] (properties c) st Hprops)
    as (st1 & memo1 & props & Hrun1 & Hobj1 & Hp1 & Hm1); [by intros a b|].
  rewrite Hrun1.
  destruct (deepcopy_data_content memo1 (data c) st1)
    as (st2 & memo2 & d & Hrun2 & Hobj2 & Hp2 & Hk & Hget); [|done|].
  { eapply Forall_impl; [exact (cast_inv_data_ok st c Hinv)|].
    intros [k w] [ys Hys]. exists ys. by eapply vec_elems_prefix. }
  rewrite Hrun2. unfold new_cast. rewrite Hobj2, Hobj1.
  eexists _, _. split; [reflexivity|]. simpl.
  assert (Hp : ndarrays st `prefix_of` ndarrays st2) by (by etrans).
  assert (Hcopy : forall k v xs, dget (data c) k = Some v -> vec_elems st v = Some xs ->
            exists v', dget d k = Some v' /\ vec_elems st2 v' = Some xs).
  { intros k v xs Hv Hxs. apply (Hget k v xs Hv). by eapply vec_elems_prefix. }
  destruct Hinv as (Hnd & [vp Hvp] & Hl).
  split_and!; [done|done|done| |].
  - split; [done|]. intros k v xs Hv Hxs. rewrite app_nil_r. by apply (Hcopy k v).
  - split_and!; simpl.
    + by rewrite Hk.
    + destruct (Hl _ _ Hvp) as (xp & Hxp & _).
      destruct (Hcopy _ _ _ Hvp Hxp) as (v' & Hv' & _). by exists v'.
    + intros k v' Hv'.
      destruct (dget (data c) k) as [v|] eqn:Hv.
      * destruct (Hl _ _ Hv) as (xs & Hxs & Hn).
        destruct (Hcopy _ _ _ Hv Hxs) as (v'' & Hv'' & Hxs'').
        assert (v'' = v') as -> by congruence. by exists xs.
      * apply dget_None_keys in Hv. rewrite <-Hk in Hv.
        apply dget_None_keys in Hv. congruence.
Qed.

Lemma builtin_len_run (st : store) (o : loc) (c : Cast) :
  objects st !! o = Some c -> (0 <= _len c)%Z ->
  builtin_len o st = (st, Ok (_len c)).
Proof.
  intros Ho Hpos. unfold builtin_len, Cast__len__, bind, get_cast. rewrite Ho.
  unfold ret. by destruct (Z.ltb_spec (_len c) 0); [lia|].
Qed.

Lemma cast_inv_len_nonneg (st : store) (c : Cast) : cast_inv st c -> (0 <= _len c)%Z.
Proof.
  intros (_ & [vp Hvp] & Hl). destruct (Hl _ _ Hvp) as (xs & _ & <-). lia.
Qed.

(** The cells that [defray] appends to a cast of length [l] to reach [n]. *)
Local Abbreviation padding padvalue n l :=
  (map (PrimFloat.mul padvalue) (np_empty (Z.to_nat (n - l)))).

(** One turn of the loop of [defray], after the copy: the copy [rc] of
    [c], the last object of the store, is extended to [n] levels. *)
Lemma defray_extend (n : Z) (padvalue : float) (st0 st1 : store) (c rc : Cast) :
  objects st1 = objects st0 ++ [rc] ->
  cast_inv st1 rc -> _len rc = _len c -> (_len c <= n)%Z ->
  padded_copy st0 st1 c rc [] ->
  exists st2 c2,
    (if (_len rc <? n)%Z
     then let* l' := builtin_len (length (objects st0)) in
          extend (length (objects st0)) (n - l') padvalue
     else ret tt) st1 = (st2, Ok tt) /\
    objects st2 = objects st0 ++ [c2] /\
    ndarrays st1 `prefix_of` ndarrays st2 /\
    cast_inv st2 c2 /\ _len c2 = n /\
    padded_copy st0 st2 c c2 (padding padvalue n (_len c)).
Proof.
  intros Hobj Hinv Hlen Hle (Hk & Hcopy).
  assert (Hrc : objects st1 !! length (objects st0) = Some rc)
    by (rewrite Hobj; apply lookup_last).
  destruct (Z.ltb_spec (_len rc) n) as [Hlt|Hge].
  - unfold bind. rewrite (builtin_len_run st1 _ rc Hrc) by (by eapply cast_inv_len_nonneg).
    destruct (extend_spec (length (objects st0)) (n - _len rc) padvalue st1 rc Hrc Hinv)
      as (st2 & c2 & Hrun & Hp & Hobj2 & Hlen2 & Hk2 & _ & _ & _ & Hget); [lia|].
    destruct (extend_inv (length (objects st0)) (n - _len rc) padvalue st1 rc Hrc Hinv)
      as (st2' & c2' & Hrun' & Hc2' & _ & Hinv2); [lia|].
    rewrite Hrun in Hrun'. injection Hrun' as <-.
    rewrite Hobj, insert_last in Hobj2.
    rewrite Hobj2, lookup_last in Hc2'. injection Hc2' as <-.
    exists st2, c2. split_and!; [done|done|done|done|lia|].
    split; [congruence|]. intros k v xs Hv Hxs.
    destruct (Hcopy k v xs Hv Hxs) as (v1 & Hv1 & Hxs1). rewrite app_nil_r in Hxs1.
    destruct (Hget k v1 Hv1) as (xs' & l & Hxs' & Hd & _ & Hnew).
    assert (xs' = xs) as -> by congruence.
    exists (Arr l). split; [done|]. simpl. by rewrite Hnew, Hlen.
  - exists st1, rc. split_and!; [done|done|done|done|lia|].
    split; [done|]. intros k v xs Hv Hxs.
    destruct (Hcopy k v xs Hv Hxs) as (v1 & Hv1 & Hxs1).
    exists v1. split; [done|].
    replace (Z.to_nat (n - _len c)) with 0 by lia. done.
Qed.

(** The input of [defray]: valid casts that are not longer than [n]. *)
Local Abbreviation input st n :=
  (fun (o : loc) (c : Cast) =>
     objects st !! o = Some c /\ cast_inv st c /\
     Forall (fun kv : string * pyval => val_ok st kv.2) (properties c) /\
     (_len c <= n)%Z).

Lemma padded_copy_prefix (st0 st st' : store) (c c' : Cast) (pad : list float) :
  ndarrays st `prefix_of` ndarrays st' ->
  padded_copy st0 st c c' pad -> padded_copy st0 st' c c' pad.
Proof.
  intros Hp (Hk & Hcopy). split; [done|]. intros k v xs Hv Hxs.
  destruct (Hcopy k v xs Hv Hxs) as (v' & Hv' & Hxs').
  exists v'. split; [done|]. by eapply vec_elems_prefix.
Qed.

Lemma padded_copy_from (st0 st0' st : store) (c c' : Cast) (pad : list float) :
  ndarrays st0 `prefix_of` ndarrays st0' ->
  (forall k v, dget (data c) k = Some v -> is_Some (vec_elems st0 v)) ->
  padded_copy st0' st c c' pad -> padded_copy st0 st c c' pad.
Proof.
  intros Hp Hok (Hk & Hcopy). split; [done|]. intros k v xs Hv Hxs.
  apply (Hcopy k v xs Hv). by eapply vec_elems_prefix.
Qed.

Lemma defray_loop_spec (n : Z) (padvalue : float) (os : list loc) (cs : list Cast)
    (st : store) :
  Forall2 (input st n) os cs ->
  exists st',
    defray_loop n padvalue os st = (st', Ok (seq (length (objects st)) (length os))) /\
    objects st `prefix_of` objects st' /\
    ndarrays st `prefix_of` ndarrays st' /\
    forall i c, cs !! i = Some c ->
      exists c', objects st' !! (length (objects st) + i) = Some c' /\
                 cast_inv st' c' /\ _len c' = n /\
                 padded_copy st st' c c' (padding padvalue n (_len c)).
Proof.
  revert cs st. induction os as [|o os IH]; intros cs st Hin.
  - apply Forall2_nil_inv_l in Hin as ->. exists st. split_and!; [done..|].
    intros i c Hi. by rewrite lookup_nil in Hi.
  - apply Forall2_cons_inv_l in Hin as (c & cs' & (Ho & Hinv & Hprops & Hle) & Hin & ->).
    destruct (deepcopy_content o st c Ho Hinv Hprops)
      as (st1 & rc & Hrun1 & Hobj1 & Hp1 & Hlen1 & Hcopy1 & Hinv1).
    destruct (defray_extend n padvalue st st1 c rc Hobj1 Hinv1 Hlen1 Hle Hcopy1)
      as (st2 & c2 & Hrun2 & Hobj2 & Hp2 & Hinv2 & Hlen2 & Hcopy2).
    assert (Hp02 : ndarrays st `prefix_of` ndarrays st2) by (by etrans).
    assert (Ho02 : objects st `prefix_of` objects st2)
      by (rewrite Hobj2; by apply prefix_app_r).
    destruct (IH cs' st2) as (st' & Hrun & Hobj & Hp & Hres).
    { eapply Forall2_impl; [exact Hin|]. intros o' c' (Ho' & Hinv' & Hprops' & Hle').
      split_and!; [by eapply prefix_lookup_Some|by eapply cast_inv_prefix| |done].
      eapply Forall_impl; [exact Hprops'|]. intros [k v] Hv. simpl in *.
      destruct v; try done. destruct Hv as [ys Hys]. exists ys.
      by eapply vec_elems_prefix. }
    exists st'. simpl. unfold bind at 1. rewrite Hrun1.
    unfold bind at 1.
    rewrite (builtin_len_run st1 (length (objects st)) rc)
      by (first [rewrite Hobj1; apply lookup_last | by eapply cast_inv_len_nonneg]).
    unfold bind at 1. rewrite Hrun2.
    unfold bind. rewrite Hrun. unfold ret.
    assert (Hlen : length (objects st2) = S (length (objects st)))
      by (rewrite Hobj2, length_app; simpl; lia).
    rewrite Hlen. split_and!; [done|by etrans|by etrans|].
    intros [|i] c' Hi; simpl in Hi.
    + injection Hi as <-. exists c2. rewrite Nat.add_0_r. split_and!; [|by eapply cast_inv_prefix|done|].
      * eapply prefix_lookup_Some; [|exact Hobj]. rewrite Hobj2. apply lookup_last.
      * by eapply padded_copy_prefix.
    + destruct (Hres i c' Hi) as (c'' & Hc'' & Hinv'' & Hlen'' & Hcopy'').
      exists c''. rewrite Hlen in Hc''.
      replace (length (objects st) + S i) with (S (length (objects st)) + i) by lia.
      split_and!; [done..|].
      eapply padded_copy_from; [exact Hp02| |exact Hcopy''].
      intros k v Hv.
      destruct (Forall2_lookup_r _ _ _ _ _ Hin Hi) as (o' & _ & _ & (_ & _ & Hl) & _).
      destruct (Hl k v Hv) as (xs & Hxs & _). by exists xs.
Qed.

Lemma defray_lens (st : store) (os : list loc) (cs : list Cast) :
  Forall2 (fun o c => objects st !! o = Some c /\ (0 <= _len c)%Z) os cs ->
  mapM builtin_len os st = (st, Ok (map _len cs)).
Proof.
  intros H. apply mapM_reads. induction H as [|o c os cs [Ho Hc] _ IH]; simpl.
  - constructor.
  - constructor; [by apply builtin_len_run|done].
Qed.

Lemma foldl_max_ge (l0 : Z) (rest : list Z) :
  (l0 <= foldl Z.max l0 rest)%Z /\
  Forall (fun l => l <= foldl Z.max l0 rest)%Z rest /\
  foldl Z.max l0 rest ∈ l0 :: rest.
Proof.
  revert l0. induction rest as [|l rest IH]; intros l0; simpl.
  - split_and!; [lia|constructor|by left].
  - destruct (IH (Z.max l0 l)) as (H1 & H2 & H3). split_and!; [lia| |].
    + constructor; [lia|done].
    + apply elem_of_cons in H3 as [H3|H3]; [|by right; right].
      rewrite H3. destruct (Z.max_spec l0 l) as [[_ ->]|[_ ->]]; [right; left|left].
Qed.


End DefrayFacts.

Lemma short_cast_inv : cast_inv ragged_store short_cast.
Proof.
  split; [|split].
  - compute_done.
  - by exists (Arr 0).
  - intros k v. simpl.
    repeat (case_decide; [intros [= <-]; eexists; split; [reflexivity|done]|]).
    done.
Qed.

Lemma long_cast_inv : cast_inv ragged_store long_cast.
Proof.
  split; [|split].
  - compute_done.
  - by exists (Arr 1).
  - intros k v. simpl.
    repeat (case_decide; [intros [= <-]; eexists; split; [reflexivity|done]|]).
    done.
Qed.

Lemma asarray_spec_witness :
  exists m,
    @asarray world ragged "pres" ragged_store = (ragged_store, Ok m) /\
    nrows m = 3 /\ ncols m = 2 /\
    mget m 2 0 = NaN /\ mget m 2 1 = 20%float.
Proof.
  destruct (@asarray_spec world ragged_store ragged "pres" [short_cast; long_cast]
              [[0%float; 10%float]; [0%float; 10%float; 20%float]])
    as (m & Hrun & HR & Hn & Hm).
  - done.
  - repeat constructor.
  - repeat constructor; eexists; (split; [reflexivity|split; reflexivity]).
  - exists m. split_and!; [done|done|done| |].
    + apply (Hm 0 [0%float; 10%float] 2 eq_refl). rewrite HR. simpl. lia.
    + apply (Hm 1 [0%float; 10%float; 20%float] 2 eq_refl). rewrite HR. simpl. lia.
Defined.


(** * Items of a cast *)

(** ** Integer keys *)

Lemma row_nonneg (st : store) (d : dict vec) (fields : list string) (n : Z) (i : nat) :
  (forall a, a ∈ fields -> exists v, dget d a = Some v /\ has_len st v n) ->
  (Z.of_nat i < n)%Z ->
  exists cells, row d fields (Z.of_nat i) st = (st, Ok cells) /\
                observation_at st d fields i cells.
Proof.
  intros Hf Hi. induction fields as [|a fields IH]; simpl.
  - exists []. split; [done|constructor].
  - destruct (Hf a) as (v & Hv & xs & Hxs & Hn); [by left|].
    destruct IH as (cells & IH1 & IH2); [intros; apply Hf; by right|].
    destruct (lookup_lt_is_Some_2 xs i) as [x Hx]; [lia|].
    unfold bind, lift, dlookup.
    rewrite Hv, (elems_Some _ _ _ Hxs), (py_index_nonneg xs i x Hx), IH1.
    exists ((a, x) :: cells). split; [done|].
    constructor; [|done]. split; [done|]. by exists v, xs.
Qed.

Lemma py_index_below {A} (xs : list A) (i : Z) :
  (i < - Z.of_nat (length xs))%Z -> py_index xs i = Raise IndexError.
Proof.
  intros Hi. unfold py_index.
  destruct (Z.ltb_spec i 0); [|lia].
  by destruct (Z.ltb_spec (i + Z.of_nat (length xs)) 0); [|lia].
Qed.

(** X7: [cast[i]] for an integer [i], on a cast that satisfies the data
    model: for [0 <= i < len(cast)] it is the observation at row [i], one
    (field, value) pair for every field; for [i >= len(cast)] it raises
    [IndexError]; and so it does for [i < -len(cast)], where the bounds
    check passes and the first field refuses the index. *)
Theorem getitem_int_index (st : store) (self : loc) (c : Cast) (i : Z) :
  objects st !! self = Some c ->
  cast_inv st c ->
  fields_in_data c ->
  ((0 <= i < _len c)%Z ->
   exists cells,
     Cast__getitem__ self (KInt i) st = (st, Ok (Row cells)) /\
     observation_at st (data c) (_fields c) (Z.to_nat i) cells) /\
  ((_len c <= i)%Z ->
   Cast__getitem__ self (KInt i) st = (st, Raise IndexError)) /\
  ((i < - _len c)%Z -> _fields c <> [] ->
   Cast__getitem__ self (KInt i) st = (st, Raise IndexError)).
Proof.
  intros Hc (_ & [vp Hvp] & Hlen) Hf.
  assert (Hfields : forall a, a ∈ _fields c ->
            exists v, dget (data c) a = Some v /\ has_len st v (_len c)).
  { intros a Ha. destruct (Hf a Ha) as [v Hv]. exists v. eauto. }
  unfold Cast__getitem__, bind, get_cast. rewrite Hc. split_and!.
  - intros Hi. destruct (Z.ltb_spec i (_len c)); [|lia].
    destruct (row_nonneg st (data c) (_fields c) (_len c) (Z.to_nat i) Hfields)
      as (cells & Hrow & Hobs); [lia|].
    rewrite Z2Nat.id in Hrow by lia. exists cells. by rewrite Hrow.
  - intros Hi. by destruct (Z.ltb_spec i (_len c)); [lia|].
  - intros Hi Hne. destruct (Hlen _ _ Hvp) as (xp & _ & Hn).
    destruct (Z.ltb_spec i (_len c)); [|lia].
    destruct (_fields c) as [|a fields] eqn:Hfs; [done|].
    destruct (Hfields a) as (v & Hv & xs & Hxs & Hxn); [by left|].
    simpl. unfold bind, lift, dlookup.
    rewrite Hv, (elems_Some _ _ _ Hxs), py_index_below by lia. done.
Qed.

Lemma ex_fields_in_data : fields_in_data ex_cast.
Proof.
  intros a Ha. simpl in Ha.
  repeat (apply elem_of_cons in Ha as [->|Ha]; [by eexists|]).
  by apply elem_of_nil in Ha.
Qed.

Lemma getitem_int_index_witness :
  Cast__getitem__ 0 (KInt 1) ex_store =
    (ex_store, Ok (Row [("pres", 10%float); ("rho", 1026%float)])) /\
  Cast__getitem__ 0 (KInt 2) ex_store = (ex_store, Raise IndexError) /\
  Cast__getitem__ 0 (KInt (-3)) ex_store = (ex_store, Raise IndexError).
Proof.
  destruct (getitem_int_index ex_store 0 ex_cast 1 eq_refl ex_cast_inv ex_fields_in_data)
    as (H1 & _ & _).
  destruct (getitem_int_index ex_store 0 ex_cast 2 eq_refl ex_cast_inv ex_fields_in_data)
    as (_ & H2 & _).
  destruct (getitem_int_index ex_store 0 ex_cast (-3) eq_refl ex_cast_inv ex_fields_in_data)
    as (_ & _ & H3).
  split_and!.
  - destruct H1 as (cells & Hrun & _); [simpl; lia|].
    rewrite Hrun. vm_compute in Hrun. congruence.
  - apply H2. simpl. lia.
  - apply H3; [simpl; lia|done].
Defined.

(** ** Assignment and lookup by name *)

Lemma vector_of_len_dec (st : store) (val : pyval) (n : Z) :
  vector_of_len st val n \/ ~ vector_of_len st val n.
Proof.
  destruct val as [| x | s | w]; try (right; by intros (w' & ? & _)).
  destruct (vec_elems st w) as [xs|] eqn:Hxs.
  - destruct (decide (Z.of_nat (length xs) = n)) as [Hn|Hn].
    + left. exists w. split; [done|]. by exists xs.
    + right. intros (w' & [= <-] & xs' & Hxs' & Hn'). congruence.
  - right. intros (w' & [= <-] & xs' & Hxs' & _). congruence.
Qed.



(** ** [_addkeydata] and the length of the data *)

(** X9: [_addkeydata] does not look at the length of the data.  In both
    modes it succeeds and stores the data, under [key] itself with
    [overwrite=True], and leaves the other fields alone; the cast
    satisfies the invariant afterwards exactly when the data has the
    length of the cast. *)
Theorem addkeydata_length_unchecked (st : store) (self : loc) (c : Cast)
    (key : string) (dat : vec) (overwrite : bool) (xs : list float) :
  objects st !! self = Some c ->
  cast_inv st c ->
  vec_elems st dat = Some xs ->
  exists st' c' key_,
    _addkeydata self key dat overwrite st = (st', Ok key_) /\
    objects st' !! self = Some c' /\
    (overwrite = true -> key_ = key) /\
    dget (data c') key_ = Some dat /\
    (forall k, k <> key_ -> dget (data c') k = dget (data c) k) /\
    _len c' = _len c /\
    (cast_inv st' c' <-> Z.of_nat (length xs) = _len c).
Proof.
  intros Hc (Hnd & [vp Hvp] & Hl) Hxs.
  destruct (addkeydata_outcome st self key dat overwrite) as [[e He]|(c0 & key_ & Hc0 & _ & Hrun)].
  { exfalso. revert He. unfold _addkeydata, bind, get_cast, put_cast. rewrite Hc.
    destruct overwrite.
    - simpl. by rewrite Hc.
    - destruct (unused_key_total (data c) key) as (j & Hj & _). rewrite Hj.
      simpl. by rewrite Hc. }
  assert (c0 = c) as -> by congruence.
  assert (Hdata : data (stored c key_ dat) = dset (data c) key_ dat).
  { unfold stored. by destruct (bool_decide _). }
  assert (Hlen : _len (stored c key_ dat) = _len c).
  { unfold stored. by destruct (bool_decide _). }
  assert (Hpk : primarykey (stored c key_ dat) = primarykey c).
  { unfold stored. by destruct (bool_decide _). }
  set (st' := mkStore (ndarrays st) (<[self := stored c key_ dat]> (objects st))) in *.
  assert (Hve : forall v, vec_elems st' v = vec_elems st v) by (by intros []).
  exists st', (stored c key_ dat), key_. split; [exact Hrun|].
  split_and!.
  - simpl. apply list_lookup_insert_eq. by eapply lookup_lt_Some.
  - intros ->. revert Hrun. unfold _addkeydata, bind, get_cast, put_cast, ret. rewrite Hc.
    simpl. rewrite Hc. by intros [= _ ->].
  - rewrite Hdata. apply dget_dset_eq.
  - intros k Hk. rewrite Hdata. by apply dget_dset_ne.
  - done.
  - split.
    + intros (_ & _ & Hl'). destruct (Hl' key_ dat) as (xs' & Hxs' & Hn).
      { rewrite Hdata. apply dget_dset_eq. }
      rewrite Hve in Hxs'. rewrite Hlen in Hn. congruence.
    + intros Hn. split_and!.
      * rewrite Hdata. by apply keys_dset_NoDup.
      * rewrite Hdata, Hpk, dget_dset. case_decide; [by eexists|by exists vp].
      * intros k v. rewrite Hdata, Hlen, dget_dset. case_decide.
        -- intros [= <-]. exists xs. by rewrite Hve.
        -- intros Hv. destruct (Hl k v Hv) as (ys & Hys & Hyn). exists ys. by rewrite Hve.
Qed.

Lemma addkeydata_length_unchecked_witness :
  exists st' c',
    _addkeydata 0 "rho" (Seq [1%float]) true ex_store = (st', Ok "rho") /\
    objects st' !! 0 = Some c' /\
    dget (data c') "rho" = Some (Seq [1%float]) /\
    ~ cast_inv st' c'.
Proof.
  destruct (addkeydata_length_unchecked ex_store 0 ex_cast "rho" (Seq [1%float]) true
              [1%float] eq_refl ex_cast_inv eq_refl)
    as (st' & c' & key_ & Hrun & Hc' & Hkey & Hget & _ & _ & Hiff).
  rewrite (Hkey eq_refl) in *.
  exists st', c'. split_and!; [done..|].
  intros Hinv. apply Hiff in Hinv. done.
Defined.

(** * [thermal_wind_inner] on short collections *)

Lemma always_raises_bind_l {A B} (m : M A) (k : A -> M B) :
  always_raises m -> always_raises (bind m k).
Proof. intros Hm st. destruct (Hm st) as (st' & e & H). exists st', e. unfold bind. by rewrite H. Qed.

Lemma always_raises_bind_r {A B} (m : M A) (k : A -> M B) :
  (forall a, always_raises (k a)) -> always_raises (bind m k).
Proof.
  intros Hk st. unfold bind. destruct (m st) as [st1 [a|e]].
  - apply Hk.
  - by exists st1, e.
Qed.

Section ThermalWindEdges.
Context `{E : Externals}.

(** [max] of no lengths: [asarray] raises on an empty collection. *)
Lemma asarray_empty (key : string) : always_raises (asarray (mkColl []) key).
Proof. intros st. by exists st, ValueError. Qed.

(** X10: [thermal_wind_inner] needs two casts.  On a collection of fewer
    it raises, whatever its arguments: there is no cast between two
    stations, and the array of the depths of no casts cannot be built. *)
Theorem thermal_wind_inner_needs_two_casts (self : CastCollection)
    (rhokey : option string) (dudzkey ukey bottomkey : string) (overwrite : bool) :
  length (casts self) < 2 ->
  always_raises (thermal_wind_inner self rhokey dudzkey ukey bottomkey overwrite).
Proof.
  intros Hlen. unfold thermal_wind_inner.
  apply always_raises_bind_r. intros rk.
  apply always_raises_bind_r. intros rho.
  assert (Hseq : seq 0 (length (casts self) - 1) = []).
  { destruct (casts self) as [|o [|o' cs]]; simpl in *; [done|done|lia]. }
  rewrite Hseq. simpl.
  intros st. unfold bind at 1, ret at 1. revert st.
  apply always_raises_bind_r. intros pd.
  apply always_raises_bind_r. intros drho.
  intros st. unfold bind at 1, ret at 1. revert st.
  apply always_raises_bind_r. intros rhosum.
  apply always_raises_bind_r. intros num.
  apply always_raises_bind_r. intros dudz.
  apply always_raises_bind_l. apply asarray_empty.
Qed.

End ThermalWindEdges.

Lemma thermal_wind_inner_needs_two_casts_witness :
  exists st' e,
    @thermal_wind_inner world (mkColl [0]) (Some "rho") "dudz" "u" "depth" false ex_store
    = (st', Raise e).
Proof.
  apply (@thermal_wind_inner_needs_two_casts world (mkColl [0]) (Some "rho")
           "dudz" "u" "depth" false).
  simpl. lia.
Defined.

(** * What [regrid] computes *)

Section RegridValues.
Context `{E : Externals}.

(** The loop of [regrid] stores, under every key but the primary one, a
    new array with the interpolation of that field of [self] at the
    levels. *)
Lemma regrid_fields_values (self ret_ : loc) (levels : vec) (x xp : list float)
    (vp : vec) (ks : list string) (st : store) (c rc : Cast) :
  objects st !! self = Some c ->
  objects st !! ret_ = Some rc ->
  self <> ret_ ->
  cast_inv st c ->
  vec_elems st levels = Some x ->
  dget (data c) (primarykey c) = Some vp ->
  vec_elems st vp = Some xp ->
  (0 < _len c)%Z ->
  (forall k, k ∈ ks -> is_Some (dget (data c) k) /\ is_Some (dget (data rc) k)) ->
  exists st' rc',
    regrid_fields self ret_ levels (primarykey c) ks st = (st', Ok tt) /\
    ndarrays st `prefix_of` ndarrays st' /\
    objects st' = <[ret_ := rc']> (objects st) /\
    keys (data rc') = keys (data rc) /\
    _fields rc' = _fields rc /\
    (forall k v fp, k ∈ ks -> k <> primarykey c ->
       dget (data c) k = Some v -> vec_elems st v = Some fp ->
       exists l r, dget (data rc') k = Some (Arr l) /\
                   ndarrays st' !! l = Some r /\
                   np_interp x xp fp (Some NaN) (Some NaN) = Ok r) /\
    (forall k, k ∉ ks \/ k = primarykey c -> dget (data rc') k = dget (data rc) k).
Proof.
  revert st rc. induction ks as [|k ks IH];
    intros st rc Hc Hrc Hne Hinv Hx Hvp Hxp Hpos Hks; simpl.
  - exists st, rc. split; [done|]. split; [done|].
    split; [by rewrite list_insert_id|]. split_and!; try done.
    intros k v fp Hk. by apply elem_of_nil in Hk.
  - destruct (decide (k = primarykey c)) as [->|Hk].
    + rewrite bool_decide_false by (by intros ?). unfold bind at 1, ret at 1.
      destruct (IH st rc) as (st' & rc' & Hrun & Hp & Hobj & Hkeys & Hfs & Hnew & Hold);
        try done.
      { intros k' Hk'. apply Hks. by right. }
      exists st', rc'. split; [done|]. split_and!; try done.
      * intros k' v fp [->|Hk']%elem_of_cons Hne'; [done|]. by apply Hnew.
      * intros k' [Hk'| ->]; [|apply Hold; by right].
        apply not_elem_of_cons in Hk' as [_ Hk']. apply Hold. by left.
    + rewrite bool_decide_true by done.
      destruct (Hks k) as [[v Hv] Hrk]; [by left|].
      pose proof Hinv as (Hnd & _ & Hl).
      destruct (Hl _ _ Hvp) as (xp' & Hxp' & Hxpn).
      assert (xp' = xp) as -> by congruence.
      destruct (Hl _ _ Hv) as (fp & Hfp & Hfpn).
      destruct (np_interp_ok x xp fp (Some NaN) (Some NaN)) as (r & Hr & Hrlen); [lia|lia|].
      unfold bind at 1. unfold bind at 1. rewrite (elems_Some _ _ _ Hx).
      unfold bind at 1. rewrite (cast_vector_data st self c _ vp xp Hc Hvp Hxp).
      unfold bind at 1. rewrite (cast_vector_data st self c _ v fp Hc Hv Hfp).
      unfold bind at 1, lift at 1. rewrite Hr.
      unfold bind at 1, alloc_array at 1.
      unfold bind at 1, get_cast at 1. simpl. rewrite Hrc.
      unfold put_cast at 1. simpl. rewrite Hrc.
      set (st1 := mkStore (ndarrays st ++ [r]) _).
      set (rc1 := set_data rc (dset (data rc) k (Arr (length (ndarrays st))))).
      assert (Hp1 : ndarrays st `prefix_of` ndarrays st1) by (by apply prefix_app_r).
      destruct (IH st1 rc1) as (st' & rc' & Hrun & Hp & Hobj & Hkeys & Hfs & Hnew & Hold).
      { simpl. by rewrite list_lookup_insert_ne. }
      { simpl. apply list_lookup_insert_eq. by eapply lookup_lt_Some. }
      { done. }
      { by eapply cast_inv_prefix. }
      { by eapply vec_elems_prefix. }
      { done. }
      { by eapply vec_elems_prefix. }
      { done. }
      { intros k' Hk'. destruct (Hks k') as [? ?]; [by right|]. split; [done|].
        simpl. rewrite dget_dset. case_decide; [by eexists|done]. }
      exists st', rc'. split; [done|]. split; [by etrans|].
      split; [by rewrite Hobj; simpl; rewrite list_insert_insert_eq|].
      split; [by rewrite Hkeys; simpl; apply keys_dset_old|].
      split; [done|]. split.
      * intros k' v' fp' Hk' Hne' Hv' Hfp'.
        destruct (decide (k' ∈ ks)) as [Hin|Hnin].
        { apply (Hnew k' v' fp' Hin Hne' Hv'). by eapply vec_elems_prefix. }
        apply elem_of_cons in Hk' as [->|?]; [|done].
        assert (v' = v) as -> by congruence. assert (fp' = fp) as -> by congruence.
        rewrite Hold by (by left). simpl. rewrite dget_dset_eq.
        exists (length (ndarrays st)), r. split; [done|]. split; [|done].
        eapply prefix_lookup_Some; [|exact Hp]. simpl. by apply list_lookup_middle.
      * intros k' Hk'. rewrite Hold.
        -- simpl. apply dget_dset_ne. destruct Hk' as [Hk'| ->]; [|done].
           apply not_elem_of_cons in Hk' as [? _]. done.
        -- destruct Hk' as [Hk'| ->]; [|by right].
           apply not_elem_of_cons in Hk' as [_ ?]. by left.
Qed.

(** [copy.deepcopy] keeps the names of the fields. *)
Lemma regrid_start_fields (self : loc) (levels : vec) (x : list float) (st : store)
    (c : Cast) :
  objects st !! self = Some c ->
  cast_inv st c ->
  Forall (fun kv => val_ok st kv.2) (properties c) ->
  vec_elems st levels = Some x ->
  exists st2 rc2,
    ndarrays st `prefix_of` ndarrays st2 /\
    objects st2 = objects st ++ [rc2] /\
    keys (data rc2) = keys (data c) /\
    _fields rc2 = _fields c /\
    regrid self levels st =
      (let* _ := regrid_fields self (length (objects st)) levels (primarykey c)
                   (keys (data c)) in
       let* rc := get_cast (length (objects st)) in
       let* _ := put_cast (length (objects st))
                   (set_data rc (dset (data rc) (primarykey c) levels)) in
       ret (length (objects st))) st2.
Proof.
  intros Hc Hinv Hprops Hx. unfold regrid.
  destruct (deepcopy_spec self st c Hc Hinv Hprops)
    as (st1 & rc & Hrun1 & Hobj1 & Hp1 & Hkeys1 & Hpk1 & Hf1).
  assert (Hself : self < length (objects st)) by (by eapply lookup_lt_Some).
  unfold bind at 1. rewrite Hrun1.
  unfold bind at 1.
  rewrite (len_has_len st1 levels (Z.of_nat (length x)))
    by (exists x; eauto using vec_elems_prefix).
  unfold bind at 1, get_cast at 1. rewrite Hobj1, lookup_last.
  unfold bind at 1, put_cast at 1. rewrite Hobj1, lookup_last, insert_last.
  set (rc2 := set_len rc (Z.of_nat (length x))).
  set (st2 := mkStore (ndarrays st1) (objects st ++ [rc2])).
  assert (Hc2 : objects st2 !! self = Some c) by (simpl; by rewrite lookup_app_l).
  unfold bind at 1, get_cast at 1. rewrite Hc2.
  exists st2, rc2. by split_and!.
Qed.

(** What [regrid] returns on a cast that is not empty. *)
Lemma regrid_values (self : loc) (levels : vec) (x xp : list float)
    (vp : vec) (st : store) (c : Cast) :
  objects st !! self = Some c ->
  cast_inv st c ->
  Forall (fun kv => val_ok st kv.2) (properties c) ->
  vec_elems st levels = Some x ->
  dget (data c) (primarykey c) = Some vp ->
  vec_elems st vp = Some xp ->
  (0 < _len c)%Z ->
  exists st' c',
    regrid self levels st = (st', Ok (length (objects st))) /\
    objects st' = objects st ++ [c'] /\
    ndarrays st `prefix_of` ndarrays st' /\
    keys (data c') = keys (data c) /\
    _fields c' = _fields c /\
    dget (data c') (primarykey c) = Some levels /\
    forall k v fp, k <> primarykey c ->
      dget (data c) k = Some v -> vec_elems st v = Some fp ->
      exists v' r, dget (data c') k = Some v' /\ vec_elems st' v' = Some r /\
                   np_interp x xp fp (Some NaN) (Some NaN) = Ok r.
Proof.
  intros Hc Hinv Hprops Hx Hvp Hxp Hpos.
  destruct (regrid_start_fields self levels x st c Hc Hinv Hprops Hx)
    as (st2 & rc2 & Hp1 & Hobj2 & Hkeys1 & Hf1 & ->).
  assert (Hself : self < length (objects st)) by (by eapply lookup_lt_Some).
  assert (Hc2 : objects st2 !! self = Some c) by (rewrite Hobj2; by rewrite lookup_app_l).
  destruct (regrid_fields_values self (length (objects st)) levels x xp vp
              (keys (data c)) st2 c rc2)
    as (st3 & rc3 & Hrun3 & Hp3 & Hobj3 & Hkeys3 & Hf3 & Hnew & Hold).
  { done. }
  { rewrite Hobj2. apply lookup_last. }
  { lia. }
  { by eapply cast_inv_prefix. }
  { by eapply vec_elems_prefix. }
  { done. }
  { by eapply vec_elems_prefix. }
  { done. }
  { intros k Hk. split.
    - destruct (dget (data c) k) eqn:Hd; [by eexists|]. by apply dget_None_keys in Hd.
    - destruct (dget (data rc2) k) eqn:Hd; [by eexists|].
      apply dget_None_keys in Hd. by rewrite Hkeys1 in Hd. }
  unfold bind at 1. rewrite Hrun3.
  unfold bind at 1, get_cast at 1. rewrite Hobj3, Hobj2, insert_last, lookup_last.
  unfold bind, put_cast. rewrite Hobj3, Hobj2. simpl.
  rewrite insert_last, lookup_last, insert_last.
  eexists _, _. split; [reflexivity|]. simpl.
  split; [done|]. split; [by etrans|].
  assert (Hpkin : is_Some (dget (data rc3) (primarykey c))).
  { destruct (dget (data rc3) (primarykey c)) eqn:Hd; [by eexists|].
    apply dget_None_keys in Hd. rewrite Hkeys3, Hkeys1 in Hd.
    apply dget_None_keys in Hd. congruence. }
  change (data (set_data rc3 (dset (data rc3) (primarykey c) levels)))
    with (dset (data rc3) (primarykey c) levels).
  split; [by rewrite (keys_dset_old _ _ _ Hpkin), Hkeys3, Hkeys1|].
  split; [simpl; congruence|].
  split; [apply dget_dset_eq|].
  intros k v fp Hk Hv Hfp.
  destruct (Hnew k v fp) as (l & r & Hl & Hr & Hint); [|done|done| |].
  { apply dget_elem_of in Hv. unfold keys. apply list_elem_of_fmap. by exists (k, v). }
  { by eapply vec_elems_prefix. }
  exists (Arr l), r. split; [|done].
  rewrite dget_dset_ne by done. done.
Qed.

(** X11: [regrid(levels)] on a cast that is not empty returns a new cast
    with the names of the old one.  Its primary vector is [levels] itself,
    not a copy, and every other field holds
    [np.interp(levels, self[primarykey], self[field], left=nan, right=nan)]
    in a new array; the cast it was called on and the arrays that existed
    are as before. *)
Theorem regrid_interpolates (self : loc) (levels : vec) (x xp : list float)
    (vp : vec) (st : store) (c : Cast) :
  objects st !! self = Some c ->
  cast_inv st c ->
  Forall (fun kv => val_ok st kv.2) (properties c) ->
  vec_elems st levels = Some x ->
  dget (data c) (primarykey c) = Some vp ->
  vec_elems st vp = Some xp ->
  (0 < _len c)%Z ->
  exists st' c',
    regrid self levels st = (st', Ok (length (objects st))) /\
    objects st' = objects st ++ [c'] /\
    ndarrays st `prefix_of` ndarrays st' /\
    keys (data c') = keys (data c) /\
    dget (data c') (primarykey c) = Some levels /\
    forall k v fp, k <> primarykey c ->
      dget (data c) k = Some v -> vec_elems st v = Some fp ->
      exists v' r, dget (data c') k = Some v' /\ vec_elems st' v' = Some r /\
                   np_interp x xp fp (Some NaN) (Some NaN) = Ok r.
Proof.
  intros Hc Hinv Hprops Hx Hvp Hxp Hpos.
  destruct (regrid_values self levels x xp vp st c Hc Hinv Hprops Hx Hvp Hxp Hpos)
    as (st' & c' & ? & ? & ? & ? & _ & ? & ?).
  by exists st', c'.
Qed.

End RegridValues.

Lemma regrid_interpolates_witness :
  exists st' c',
    @regrid world 0 (Seq [5%float; 15%float]) ex_store = (st', Ok 1) /\
    objects st' !! 0 = Some ex_cast /\
    objects st' !! 1 = Some c' /\
    dget (data c') "pres" = Some (Seq [5%float; 15%float]) /\
    exists v', dget (data c') "rho" = Some v' /\
               vec_elems st' v' = Some [1025%float; 1026%float].
Proof.
  destruct (@regrid_interpolates world 0 (Seq [5%float; 15%float])
              [5%float; 15%float] [0%float; 10%float] (Arr 0) ex_store ex_cast
              eq_refl ex_cast_inv)
    as (st' & c' & Hrun & Hobj & _ & _ & Hpk & Hget); [repeat constructor|done..|].
  destruct (Hget "rho" (Arr 1) [1025%float; 1026%float]) as (v' & r & Hv' & Hr & Hint);
    [done..|].
  exists st', c'. split; [done|]. rewrite Hobj. split; [done|]. split; [done|].
  split; [done|]. exists v'. split; [done|]. rewrite Hr. vm_compute in Hint. congruence.
Defined.

(** * The names of the fields and the keys of [data] *)

Lemma keys_dset_elem {V} (d : dict V) (k a : string) (v : V) :
  a ∈ keys (dset d k v) <-> a ∈ keys d \/ a = k.
Proof.
  induction d as [|[k' v'] d IH]; simpl.
  - rewrite list_elem_of_singleton. split; [by right|]. intros [H|H]; [|done].
    by apply elem_of_nil in H.
  - case_decide as Hk; simpl.
    + subst. rewrite elem_of_cons. split; [by left|]. intros [H| ->]; [done|by left].
    + rewrite !elem_of_cons, IH. tauto.
Qed.

(** Storing a vector under a name, as [__init__], [__setitem__] and
    [_addkeydata] do, keeps the names and the keys in step. *)
Lemma fields_sync_store (c : Cast) (k : string) (v : vec) (fs : list string) :
  fields_sync c ->
  (forall a, a ∈ fs <-> a ∈ _fields c \/ a = k) ->
  fields_sync (set_fields (set_data c (dset (data c) k v)) fs).
Proof.
  intros Hs Hfs a. simpl. rewrite Hfs, keys_dset_elem, (Hs a). done.
Qed.

Lemma fields_sync_stored (c : Cast) (k : string) (dat : vec) :
  fields_sync c -> fields_sync (stored c k dat).
Proof.
  intros Hs a. unfold stored. case_bool_decide as Hk; simpl.
  - rewrite keys_dset_elem, <-(Hs a). split; [by left|]. by intros [?| ->].
  - rewrite keys_dset_elem, <-(Hs a), elem_of_app, list_elem_of_singleton. done.
Qed.

Lemma populate_sync (p : vec) (items : dict pyval) (c c' : Cast) (st st' : store) :
  populate p items c st = (st', Ok c') -> fields_sync c -> fields_sync c'.
Proof.
  revert c st. induction items as [|[kw val] items IH]; intros c st Hrun Hs;
    simpl in Hrun.
  - by injection Hrun as _ <-.
  - unfold bind at 1 in Hrun.
    destruct (is_field_value val (len p) st) as [st1 [[|]|e]]; [| |done].
    + unfold bind at 1, lift at 1 in Hrun. destruct (as_vec val) as [w|e]; [|done].
      unfold bind at 1 in Hrun. destruct (np_asarray w st1) as [st2 [a|e]]; [|done].
      apply IH in Hrun; [done|]. apply fields_sync_store; [done|].
      intros a'. by rewrite elem_of_app, list_elem_of_singleton.
    + by apply IH in Hrun.
Qed.

Lemma init_sync (p : vec) (coords : pyval) (props : option (dict pyval))
    (pk : string) (kwargs : dict pyval) (st st' : store) (o : loc) :
  Cast__init__ p coords props pk kwargs st = (st', Ok o) ->
  exists c, objects st' !! o = Some c /\ fields_sync c.
Proof.
  unfold Cast__init__. intros Hrun.
  unfold bind at 1 in Hrun. destruct (np_asarray p st) as [st1 [a|e]]; [|done].
  unfold bind at 1 in Hrun.
  destruct (populate p kwargs _ st1) as [st2 [c1|e]] eqn:Hpop; [|done].
  unfold bind at 1 in Hrun. destruct (len p st2) as [st3 [n|e]]; [|done].
  unfold new_cast in Hrun. injection Hrun as <- <-.
  exists (set_len c1 n). split; [apply lookup_last|].
  apply populate_sync in Hpop; [done|].
  intros a'. simpl. done.
Qed.

Lemma setitem_sync (st st' : store) (self : loc) (c : Cast) (s : string) (val : pyval) :
  Cast__setitem__ self (KStr s) val st = (st', Ok tt) ->
  objects st !! self = Some c ->
  fields_sync c ->
  exists c', objects st' !! self = Some c' /\ fields_sync c'.
Proof.
  unfold Cast__setitem__. intros Hrun Hc Hs.
  assert (Hlt : self < length (objects st)) by (by eapply lookup_lt_Some).
  unfold bind at 1, get_cast at 1 in Hrun. rewrite Hc in Hrun.
  unfold bind at 1 in Hrun.
  destruct (is_field_value val _ st) as [st1 [[|]|e]] eqn:Hf; [| |done].
  - unfold bind at 1, lift at 1 in Hrun. destruct (as_vec val) as [w|e]; [|done].
    unfold put_cast in Hrun. destruct (objects st1 !! self) eqn:H1; [|done].
    injection Hrun as <-. eexists. split.
    { simpl. apply list_lookup_insert_eq. by eapply lookup_lt_Some. }
    case_bool_decide as Hin.
    + intros a. simpl. rewrite keys_dset_elem, <-(Hs a). split; [by left|].
      by intros [?| ->].
    + apply fields_sync_store; [done|].
      intros a. by rewrite elem_of_app, list_elem_of_singleton.
  - unfold put_cast in Hrun. destruct (objects st1 !! self) eqn:H1; [|done].
    injection Hrun as <-. eexists. split.
    { simpl. apply list_lookup_insert_eq. by eapply lookup_lt_Some. }
    done.
Qed.

Lemma addkeydata_stored (st : store) (self : loc) (c : Cast) (key : string) (dat : vec)
    (overwrite : bool) :
  objects st !! self = Some c ->
  exists key_,
    _addkeydata self key dat overwrite st =
      (mkStore (ndarrays st) (<[self := stored c key_ dat]> (objects st)), Ok key_).
Proof.
  intros Hc.
  destruct (addkeydata_outcome st self key dat overwrite)
    as [[e He]|(c0 & key_ & Hc0 & _ & Hrun)].
  - exfalso. revert He. unfold _addkeydata, bind, get_cast, put_cast. rewrite Hc.
    destruct overwrite.
    + simpl. by rewrite Hc.
    + destruct (unused_key_total (data c) key) as (j & Hj & _). rewrite Hj.
      simpl. by rewrite Hc.
  - assert (c0 = c) as -> by congruence. by exists key_.
Qed.

(** X12: the names of [fields] and the keys of [data] are kept in step.
    They are the same names in the cast that [Cast.__init__] returns, and
    every operation that adds or replaces vectors keeps them the same: an
    assignment [cast[s] = val], [_addkeydata] in both modes, [extend], and
    [regrid] for its new cast. *)
Theorem fields_follow_data `{E : Externals} :
  (forall (p : vec) (coords : pyval) (props : option (dict pyval)) (pk : string)
          (kwargs : dict pyval) (st : store) (n : Z),
      has_len st p n ->
      Forall (fun kv => val_ok st kv.2) kwargs ->
      exists st' c,
        Cast__init__ p coords props pk kwargs st = (st', Ok (length (objects st))) /\
        objects st' !! length (objects st) = Some c /\
        fields_sync c) /\
  (forall (st : store) (self : loc) (c : Cast) (s : string) (val : pyval),
      objects st !! self = Some c -> cast_inv st c -> val_ok st val ->
      fields_sync c ->
      exists st' c',
        Cast__setitem__ self (KStr s) val st = (st', Ok tt) /\
        objects st' !! self = Some c' /\
        fields_sync c') /\
  (forall (st : store) (self : loc) (c : Cast) (key : string) (dat : vec)
          (overwrite : bool),
      objects st !! self = Some c ->
      fields_sync c ->
      exists st' c' key_,
        _addkeydata self key dat overwrite st = (st', Ok key_) /\
        objects st' !! self = Some c' /\
        fields_sync c') /\
  (forall (st : store) (self : loc) (c : Cast) (n : Z) (padvalue : float),
      objects st !! self = Some c -> cast_inv st c -> (0 < n)%Z ->
      fields_sync c ->
      exists st' c',
        extend self n padvalue st = (st', Ok tt) /\
        objects st' !! self = Some c' /\
        fields_sync c') /\
  (forall (st : store) (self : loc) (c : Cast) (levels : vec) (x : list float),
      objects st !! self = Some c -> cast_inv st c ->
      Forall (fun kv => val_ok st kv.2) (properties c) ->
      vec_elems st levels = Some x ->
      (0 < _len c)%Z ->
      fields_sync c ->
      exists st' r c',
        regrid self levels st = (st', Ok r) /\
        objects st' !! r = Some c' /\
        fields_sync c').
Proof.
  split_and!.
  - intros p coords props pk kwargs st n Hp Hok.
    destruct (init_spec p coords props pk kwargs st n Hp Hok) as (st' & c & Hrun & _).
    destruct (init_sync _ _ _ _ _ _ _ _ Hrun) as (c' & Hc' & Hs).
    by exists st', c'.
  - intros st self c s val Hc Hinv Hok Hs.
    destruct (setitem_spec st self c s val Hc Hinv Hok) as (c0 & Hrun & _).
    destruct (setitem_sync _ _ _ _ _ _ Hrun Hc Hs) as (c' & Hc' & Hs').
    by eexists _, c'.
  - intros st self c key dat overwrite Hc Hs.
    destruct (addkeydata_stored st self c key dat overwrite Hc) as (key_ & Hrun).
    eexists _, _, key_. split; [exact Hrun|]. split.
    + simpl. apply list_lookup_insert_eq. by eapply lookup_lt_Some.
    + by apply fields_sync_stored.
  - intros st self c n padvalue Hc Hinv Hn Hs.
    destruct (extend_spec self n padvalue st c Hc Hinv Hn)
      as (st' & c' & Hrun & _ & Hobj & _ & Hkeys & _ & Hf & _).
    exists st', c'. split_and!; [done| |].
    + rewrite Hobj. apply list_lookup_insert_eq. by eapply lookup_lt_Some.
    + intros a. by rewrite Hf, Hkeys.
  - intros st self c levels x Hc Hinv Hprops Hx Hpos Hs.
    pose proof Hinv as (_ & [vp Hvp] & Hl). destruct (Hl _ _ Hvp) as (xp & Hxp & _).
    destruct (regrid_values self levels x xp vp st c Hc Hinv Hprops Hx Hvp Hxp Hpos)
      as (st' & c' & Hrun & Hobj & _ & Hkeys & Hf & _).
    exists st', (length (objects st)), c'. split_and!; [done| |].
    + rewrite Hobj. apply lookup_last.
    + intros a. by rewrite Hf, Hkeys.
Qed.

Lemma ex_fields_sync : fields_sync ex_cast.
Proof. by intros a. Qed.

Lemma fields_follow_data_witness :
  (exists st' c',
      Cast__setitem__ 0 (KStr "oxy") (PVec (Seq [5%float; 6%float])) ex_store = (st', Ok tt) /\
      objects st' !! 0 = Some c' /\ fields_sync c') /\
  (exists st' c' key_,
      _addkeydata 0 "rho" (Arr 0) false ex_store = (st', Ok key_) /\
      objects st' !! 0 = Some c' /\ fields_sync c').
Proof.
  destruct (@fields_follow_data world) as (_ & Hset & Hadd & _ & _).
  split.
  - apply (Hset ex_store 0 ex_cast "oxy" (PVec (Seq [5%float; 6%float])) eq_refl
             ex_cast_inv); [by eexists|apply ex_fields_sync].
  - apply (Hadd ex_store 0 ex_cast "rho" (Arr 0) false eq_refl ex_fields_sync).
Defined.

(** * What [Cast.__init__] stores *)

(** The loop of the constructor, for the keyword values that are
    vectors of the length [n] of [p]: an ndarray becomes a field as it
    is, a sequence as a new array with its elements; the fields under
    other names are not touched, and no array that existed is written. *)
Lemma populate_vectors (p : vec) (items : dict pyval) (c c' : Cast) (st st' : store)
    (n : Z) :
  populate p items c st = (st', Ok c') ->
  has_len st p n ->
  Forall (fun kv => val_ok st kv.2) items ->
  NoDup (keys items) ->
  ndarrays st `prefix_of` ndarrays st' /\
  (forall k, k ∉ keys items -> dget (data c') k = dget (data c) k) /\
  (forall kw w ys, (kw, PVec w) ∈ items ->
     vec_elems st w = Some ys -> Z.of_nat (length ys) = n ->
     exists a, dget (data c') kw = Some a /\ vec_elems st' a = Some ys /\
               (forall l, w = Arr l -> a = Arr l)).
Proof.
  revert c st. induction items as [|[kw0 val0] items IH];
    intros c st Hrun Hp Hok Hnd; simpl in Hrun.
  - injection Hrun as <- <-. split_and!; [done|done|].
    intros kw w ys Hin. by apply elem_of_nil in Hin.
  - apply Forall_cons in Hok as [Hval Hok]. simpl in Hval.
    apply NoDup_cons in Hnd as [Hkw0 Hnd].
    destruct (is_field_value_spec st val0 (len p) n) as (b & Hb & Hbn);
      [by apply len_has_len|done|].
    unfold bind at 1 in Hrun. rewrite Hb in Hrun.
    assert (Hstep : forall st1, ndarrays st `prefix_of` ndarrays st1 ->
              has_len st1 p n /\ Forall (fun kv : string * pyval => val_ok st1 kv.2) items).
    { intros st1 Hp1. split; [by eapply has_len_prefix|].
      eapply Forall_impl; [exact Hok|]. intros [k v] Hv. simpl in *.
      destruct v; try done. destruct Hv as [zs Hzs]. exists zs.
      by eapply vec_elems_prefix. }
    destruct b.
    + destruct Hbn as [Hbn _]. destruct (Hbn eq_refl) as (w0 & -> & xs0 & Hxs0 & Hn0).
      destruct (np_asarray_spec st w0 xs0 Hxs0) as (st1 & a0 & Ha0 & Hobj1 & Hp1 & Hxa0).
      unfold bind at 1, lift at 1 in Hrun. simpl in Hrun.
      unfold bind at 1 in Hrun. rewrite Ha0 in Hrun.
      destruct (Hstep st1 Hp1) as [Hp' Hok'].
      destruct (IH _ _ Hrun Hp' Hok' Hnd) as (Hpre & Hother & Hvec).
      split_and!; [by etrans| |].
      * intros k Hk. apply not_elem_of_cons in Hk as [Hne Hk].
        rewrite (Hother k Hk). simpl. by apply dget_dset_ne.
      * intros kw w ys [[= -> ->]|Hin]%elem_of_cons Hys Hlen.
        -- exists a0. rewrite (Hother kw0 Hkw0). simpl. rewrite dget_dset_eq.
           assert (ys = xs0) as -> by congruence.
           split_and!; [done|by eapply vec_elems_prefix|].
           intros l ->. simpl in Ha0. unfold ret in Ha0. congruence.
        -- apply (Hvec kw w ys Hin); [by eapply vec_elems_prefix|done].
    + destruct (IH _ _ Hrun Hp Hok Hnd) as (Hpre & Hother & Hvec).
      split_and!; [done| |].
      * intros k Hk. apply not_elem_of_cons in Hk as [Hne Hk]. by rewrite (Hother k Hk).
      * intros kw w ys [[= -> <-]|Hin]%elem_of_cons Hys Hlen.
        -- assert (Hv : vector_of_len st (PVec w) n).
           { exists w. split; [done|]. by exists ys. }
           apply Hbn in Hv. done.
        -- by apply (Hvec kw w ys Hin).
Qed.

(** X13: [Cast.__init__] does not copy the arrays it is given.  The
    primary vector [p] and every keyword value that is a vector of the
    length of [p] become fields with the same elements: an ndarray is
    stored as it is, so that the cast and the caller share it, and a
    sequence is stored as a new array.  No array that existed is
    written. *)
Theorem init_stores_vectors (p : vec) (coords : pyval) (props : option (dict pyval))
    (pk : string) (kwargs : dict pyval) (st : store) (xs : list float) :
  vec_elems st p = Some xs ->
  Forall (fun kv => val_ok st kv.2) kwargs ->
  NoDup (keys kwargs) ->
  exists st' c,
    Cast__init__ p coords props pk kwargs st = (st', Ok (length (objects st))) /\
    objects st' !! length (objects st) = Some c /\
    ndarrays st `prefix_of` ndarrays st' /\
    (pk ∉ keys kwargs ->
     exists a, dget (data c) pk = Some a /\ vec_elems st' a = Some xs /\
               (forall l, p = Arr l -> a = Arr l)) /\
    (forall kw w ys, (kw, PVec w) ∈ kwargs ->
       vec_elems st w = Some ys -> length ys = length xs ->
       exists a, dget (data c) kw = Some a /\ vec_elems st' a = Some ys /\
                 (forall l, w = Arr l -> a = Arr l)).
Proof.
  intros Hxs Hok Hnd.
  assert (Hp : has_len st p (Z.of_nat (length xs))) by (by exists xs).
  destruct (init_spec p coords props pk kwargs st _ Hp Hok) as (st' & c & Hrun & Hobj & _).
  exists st', c. split; [done|]. split; [rewrite Hobj; apply lookup_last|].
  revert Hrun. unfold Cast__init__.
  destruct (np_asarray_spec st p xs Hxs) as (st1 & a & Ha & Hobj1 & Hp1 & Hxa).
  unfold bind at 1. rewrite Ha.
  unfold bind at 1.
  destruct (populate p kwargs _ st1) as [st2 [c1|e]] eqn:Hpop; [|done].
  unfold bind at 1. rewrite (len_has_len st2 p (Z.of_nat (length xs))).
  2:{ apply populate_vectors with (n := Z.of_nat (length xs)) in Hpop as (Hpre & _);
        [|by eapply has_len_prefix| |done].
      - eapply has_len_prefix; [exact Hpre|]. by eapply has_len_prefix.
      - eapply Forall_impl; [exact Hok|]. intros [k v] Hv. simpl in *.
        destruct v; try done. destruct Hv as [zs Hzs]. exists zs.
        by eapply vec_elems_prefix. }
  unfold new_cast. intros [= <- Hlen].
  simpl in Hobj.
  apply populate_vectors with (n := Z.of_nat (length xs)) in Hpop
    as (Hpre & Hother & Hvec); [|by eapply has_len_prefix| |done].
  2:{ eapply Forall_impl; [exact Hok|]. intros [k v] Hv. simpl in *.
      destruct v; try done. destruct Hv as [zs Hzs]. exists zs.
      by eapply vec_elems_prefix. }
  assert (Hc : c = set_len c1 (Z.of_nat (length xs))).
  { apply app_inj_tail in Hobj as [_ Hc]. done. }
  subst c. simpl. split_and!.
  - by etrans.
  - intros Hpk. exists a. rewrite (Hother pk Hpk). simpl. rewrite decide_True by done.
    split_and!; [done|by eapply vec_elems_prefix|].
    intros l ->. simpl in Ha. unfold ret in Ha. congruence.
  - intros kw w ys Hin Hys Hlen'.
    apply (Hvec kw w ys Hin); [by eapply vec_elems_prefix|lia].
Qed.

Lemma init_stores_vectors_witness :
  exists st' c,
    Cast__init__ (Arr 0) PNone None "pres"
      [("temp", PVec (Seq [4%float; 3%float])); ("rho", PVec (Arr 1))] ex_store
    = (st', Ok 1) /\
    objects st' !! 1 = Some c /\
    dget (data c) "pres" = Some (Arr 0) /\
    dget (data c) "rho" = Some (Arr 1) /\
    exists a, dget (data c) "temp" = Some a /\
              vec_elems st' a = Some [4%float; 3%float].
Proof.
  destruct (init_stores_vectors (Arr 0) PNone None "pres"
              [("temp", PVec (Seq [4%float; 3%float])); ("rho", PVec (Arr 1))]
              ex_store [0%float; 10%float] eq_refl)
    as (st' & c & Hrun & Hc & _ & Hpk & Hkw).
  { repeat constructor; by eexists. }
  { compute_done. }
  destruct Hpk as (a & Ha & _ & Hsame); [compute_done|].
  destruct (Hkw "rho" (Arr 1) [1025%float; 1026%float]) as (a1 & Ha1 & _ & Hsame1);
    [right; left|done|done|].
  destruct (Hkw "temp" (Seq [4%float; 3%float]) [4%float; 3%float]) as (a2 & Ha2 & Hx2 & _);
    [left|done|done|].
  exists st', c. split; [done|]. split; [done|].
  rewrite (Hsame 0 eq_refl) in Ha. rewrite (Hsame1 1 eq_refl) in Ha1.
  split; [done|]. split; [done|]. by exists a2.
Defined.

(** * [plot_ts_average] and the type tags *)

Section PlottingFacts.
Context {A : Type}.
Context (as_cast : narwhal_class -> A).
Context (ccmeanp : list narwhal_class -> outcome A) (ccmeanp1 : narwhal_class -> outcome A).
Context (plot_ts : list A -> outcome unit).

(** X14: [plot_ts_average] tests its arguments for the type tags
    ["ctd_cast"] and ["ctd_collection"], which no class of [cast.py]
    carries.  Called with one or more casts or collections of the
    module, it raises [TypeError]; nothing is averaged and nothing is
    plotted. *)
Theorem plot_ts_average_rejects_casts (casts : list narwhal_class) :
  casts <> [] ->
  plot_ts_average _type as_cast ccmeanp ccmeanp1 plot_ts casts = Raise TypeError.
Proof.
  intros Hne. destruct casts as [|k rest]; [done|].
  unfold plot_ts_average.
  assert (H1 : bool_decide (_type k = "ctd_cast") = false) by (by destruct k).
  assert (H2 : bool_decide (_type k = "ctd_collection") = false) by (by destruct k).
  simpl. by rewrite H1, H2.
Qed.

End PlottingFacts.

Lemma plot_ts_average_rejects_casts_witness :
  plot_ts_average _type (fun k => k) (fun _ => Ok ClassCTDCast) (fun k => Ok k)
    (fun _ => Ok tt) [ClassCTDCast; ClassCastCollection] = Raise TypeError.
Proof.
  apply (plot_ts_average_rejects_casts (fun k => k) (fun _ => Ok ClassCTDCast)
           (fun k => Ok k) (fun _ => Ok tt) [ClassCTDCast; ClassCastCollection]).
  done.
Defined.

(** * What [thermal_wind] writes *)

Section ThermalWindFrames.
Context (Rc : Cast -> Cast -> Prop) `{!PreOrder Rc} (na no : nat) `{E : Externals}.
Context (diff2_dinterp : matrix -> list float -> outcome matrix).

Local Abbreviation hoare := (hoare Rc na no).
Local Abbreviation frames := (frames Rc na no).
Local Abbreviation grows_ok := (grows_ok Rc).

Ltac tw_auto :=
  first [ apply frames_lift; done
        | apply frames_alloc; done
        | apply frames_read; [done|solve [pure_read_tac]] ].
Ltac tw_bind tac := eapply frames_bind; [done|tac|intros ? ?].
Ltac tw_hbind tac :=
  eapply hoare_bind;
  [done|tac|let a := fresh "a" in intros a; cbv beta; apply hoare_pure; intros ?].

(** Without overwriting, [_addkeydata] only adds a field to the cast,
    and the field holds the data. *)
Lemma hoare_addkeydata_grow (self : loc) (k : string) (dat : vec) :
  grows_ok ->
  hoare (fun _ => True) (_addkeydata self k dat false)
        (fun key_ st' => exists c, objects st' !! self = Some c /\
                                   dget (data c) key_ = Some dat).
Proof.
  intros Hg st Hw _.
  destruct (addkeydata_outcome st self k dat false) as [[e ->]|(c & key_ & Hc & Hfree & ->)];
    simpl.
  - split; [by apply framed_refl|done].
  - split.
    + split_and!; simpl; [done| |done|by rewrite length_insert].
      intros o c' Ho Hc'. destruct (decide (o = self)) as [->|Hne].
      * pose proof (eq_trans (eq_sym Hc) Hc') as [= <-].
        eexists. split; [apply list_lookup_insert_eq; by eapply lookup_lt_Some|].
        rewrite stored_fresh by auto. apply Hg. auto.
      * exists c'. split; [|reflexivity]. by rewrite list_lookup_insert_ne.
    + intros a [= <-]. eexists. split.
      * apply list_lookup_insert_eq. by eapply lookup_lt_Some.
      * unfold stored. destruct (bool_decide _); simpl; apply dget_dset_eq.
Qed.

(** [add_density] on any cast: the density is a new array, added as a
    field under the name that is returned. *)
Lemma hoare_add_density_grow (self : loc) :
  grows_ok ->
  hoare (fun _ => True) (add_density self)
        (fun key_ st' => exists c l, objects st' !! self = Some c /\
                                     dget (data c) key_ = Some (Arr l) /\ na <= l).
Proof.
  intros Hg. unfold add_density.
  do 13 tw_hbind tw_auto.
  eapply hoare_conseq; [| |by apply hoare_addkeydata_grow]; [done|].
  intros key_ st (c & Hc & Hd). by exists c, a11.
Qed.

(** [add_depth()] on any cast only adds fields: the only array it
    overwrites is the density that it has just computed. *)
Lemma frames_add_depth_grow (self : loc) :
  grows_ok -> frames (add_depth self None) (fun _ => True).
Proof.
  intros Hg. unfold add_depth.
  eapply hoare_bind; [done|by apply hoare_add_density_grow|]. intros key_.
  eapply hoare_bind; [done|apply hoare_read; [done|pure_read_tac]|]. intros it. cbv beta.
  eapply hoare_conseq with (P := fun _ => exists l, it = Val (PVec (Arr l)) /\ na <= l)
                           (Q := fun _ _ => True); [| done |].
  { intros st [(c & l & Hc & Hd & Hl) Hget]. exists l. split; [|done].
    rewrite (getitem_str_data st self c key_ (Arr l) Hc Hd) in Hget. congruence. }
  apply hoare_pure. intros (l & -> & Hl).
  tw_bind ltac:(apply frames_lift; done). simpl in H. injection H as <-.
  do 3 tw_bind tw_auto.
  tw_bind ltac:(by apply frames_slice_fill).
  apply frames_hydrostatic_depth; [done|]. by right.
Qed.

Lemma frames_add_depths (cs : list loc) :
  grows_ok -> frames (add_depths cs) (fun _ => True).
Proof.
  intros Hg. induction cs as [|o cs IH]; simpl.
  - by apply frames_ret.
  - tw_bind tw_auto.
    tw_bind ltac:(idtac).
    { destruct (dmem _ _).
      - by apply (frames_ret _ _ _ _ (fun _ => True)).
      - eapply frames_bind; [done|by apply frames_add_depth_grow|].
        intros ? _. by apply (frames_ret _ _ _ _ (fun _ => True)). }
    apply IH.
Qed.

(** The last loop of [thermal_wind], without overwriting. *)
Lemma frames_store_columns_grow (dudzkey ukey : string) (dudz u : matrix)
    (ic : nat) (cs : list loc) :
  grows_ok ->
  frames (store_columns dudzkey ukey false dudz u ic cs) (fun _ => True).
Proof.
  intros Hg. revert ic. induction cs as [|o cs IH]; intros ic; simpl.
  - by apply frames_ret.
  - tw_bind ltac:(by apply frames_guard).
    tw_bind tw_auto.
    tw_bind ltac:(apply frames_addkeydata; [done|by right]).
    tw_bind ltac:(by apply frames_guard).
    tw_bind tw_auto.
    tw_bind ltac:(apply frames_addkeydata; [done|by right]).
    apply IH.
Qed.

(** Without overwriting, [thermal_wind] only adds fields to the casts
    and writes no array that existed. *)
Lemma frames_thermal_wind (self : CastCollection) (rhokey : option string)
    (dudzkey ukey : string) :
  grows_ok ->
  frames (thermal_wind diff2_dinterp self rhokey dudzkey ukey false) (fun _ => True).
Proof.
  intros Hg. unfold thermal_wind.
  tw_bind ltac:(idtac).
  { destruct rhokey as [k|].
    - by apply (frames_ret _ _ _ _ (fun _ => True)).
    - eapply frames_bind; [done|apply frames_mapM|].
      + done.
      + intros o. by apply frames_add_density_grow.
      + intros ks _. destruct ks as [|r0 rest]; [by apply frames_raise|].
        destruct (existsb _ _); [by apply frames_raise|by apply frames_ret]. }
  tw_bind tw_auto.
  tw_bind ltac:(by apply frames_add_depths).
  do 2 tw_bind tw_auto.
  tw_bind ltac:(apply frames_read; [done|]; apply pure_read_mapM; intros; pure_read_tac).
  do 4 tw_bind tw_auto.
  by apply frames_store_columns_grow.
Qed.

End ThermalWindFrames.

(** X15: with [overwrite=False], whatever the collection, the keys and
    the store, and whether the call returns or raises, [thermal_wind]
    - writes no array that existed before the call, and
    - leaves every cast that existed with its properties, its primary
      key, its length and all its fields and vectors: a cast only gains
      fields. *)
Theorem thermal_wind_only_adds_fields `{E : Externals}
    (diff2_dinterp : matrix -> list float -> outcome matrix)
    (self : CastCollection) (rhokey : option string) (dudzkey ukey : string)
    (st : store) :
  (forall l xs, ndarrays st !! l = Some xs ->
     ndarrays (thermal_wind diff2_dinterp self rhokey dudzkey ukey false st).1 !! l
     = Some xs) /\
  (forall o c, objects st !! o = Some c ->
     exists c',
       objects (thermal_wind diff2_dinterp self rhokey dudzkey ukey false st).1 !! o
       = Some c' /\
       cast_grows c c').
Proof.
  destruct (frames_thermal_wind cast_grows (length (ndarrays st)) (length (objects st))
              diff2_dinterp self rhokey dudzkey ukey) with (st := st)
    as [(Harr & Hobj & _ & _) _]; [|done|done|].
  { intros c k d _. apply cast_grows_with_field. }
  split.
  - intros l xs Hl. rewrite Harr; [done|]. by eapply lookup_lt_Some.
  - intros o c Hc. destruct (Hobj o c) as (c' & Hc' & Hg); [by eapply lookup_lt_Some|done|].
    by exists c'.
Qed.

Lemma thermal_wind_only_adds_fields_witness :
  exists st' c0',
    @thermal_wind world (fun m _ => Ok m) track None "dudz" "u" false track_store
    = (st', Ok tt) /\
    objects st' !! 0 = Some c0' /\
    cast_grows (station 0%float 0 1 2) c0' /\
    _fields c0' = ["pres"; "sal"; "temp"; "rho"; "rho_2"; "depth"; "dudz"; "u"].
Proof.
  destruct (@thermal_wind_only_adds_fields world (fun m _ => Ok m) track None "dudz" "u"
              track_store) as [_ Hobj].
  destruct (Hobj 0 (station 0%float 0 1 2) eq_refl) as (c0' & Hc0' & Hg).
  eexists _, c0'. split; [vm_compute; reflexivity|].
  split; [exact Hc0'|]. split; [exact Hg|].
  vm_compute in Hc0'. injection Hc0' as <-. reflexivity.
Defined.

(** * What [add_depth] computes *)

Lemma length_np_diff (xs : list float) : length (np_diff xs) = length xs - 1.
Proof. unfold np_diff. rewrite length_zip_with. destruct xs; simpl; lia. Qed.

Lemma length_cumsum_from (acc : float) (xs : list float) :
  length (cumsum_from acc xs) = length xs.
Proof. revert acc. induction xs as [|x xs IH]; intros acc; simpl; [done|]. by rewrite IH. Qed.

Lemma length_np_cumsum (xs : list float) : length (np_cumsum xs) = length xs.
Proof. destruct xs; simpl; [done|]. by rewrite length_cumsum_from. Qed.

(** A field added under a free name keeps the invariant when its vector
    has the length of the cast. *)
Lemma cast_inv_with_field (st : store) (c : Cast) (k : string) (dat : vec) :
  cast_inv st c -> dget (data c) k = None -> has_len st dat (_len c) ->
  cast_inv st (with_field c k dat).
Proof.
  intros (Hnd & [vp Hvp] & Hl) Hk Hdat.
  assert (Hdata : data (with_field c k dat) = dset (data c) k dat).
  { unfold with_field. rewrite dset_fresh by done. by destruct (bool_decide _). }
  assert (Hlen : _len (with_field c k dat) = _len c).
  { unfold with_field. by destruct (bool_decide _). }
  assert (Hpk : primarykey (with_field c k dat) = primarykey c).
  { unfold with_field. by destruct (bool_decide _). }
  split_and!.
  - rewrite Hdata. by apply keys_dset_NoDup.
  - rewrite Hdata, Hpk, dget_dset. case_decide; [by eexists|by exists vp].
  - intros k' v. rewrite Hdata, Hlen, dget_dset. case_decide; [by intros [= <-]|apply Hl].
Qed.

Section AddDepthValues.
Context `{E : Externals}.

(** X16: [add_depth(rhokey)] on a cast that satisfies the invariant, with
    a pressure field and a density array that starts with [k] NaNs
    followed by at least two values, the first of which is not NaN.  The
    call succeeds and returns the name of a new field, ["depth"] or the
    first free ["depth_i"]; the density array is overwritten in place,
    its leading NaNs by the second of the values that follow them; the
    new field holds [cumsum(dp / (rho * G) * 1e4)] for that density, and
    the cast still satisfies the invariant. *)
Theorem add_depth_integrates (st : store) (self : loc) (c : Cast) (rhokey : string)
    (l : loc) (k : nat) (a b : float) (rest : list float) (vp : vec)
    (p0 : float) (pres : list float) :
  objects st !! self = Some c ->
  cast_inv st c ->
  dget (data c) rhokey = Some (Arr l) ->
  ndarrays st !! l = Some (replicate k NaN ++ a :: b :: rest) ->
  PrimFloat.is_nan a = false ->
  dget (data c) "pres" = Some vp ->
  vp <> Arr l ->
  vec_elems st vp = Some (p0 :: pres) ->
  exists st' c' j ld,
    add_depth self (Some rhokey) st = (st', Ok (candidate "depth" j)) /\
    dget (data c) (candidate "depth" j) = None /\
    objects st' !! self = Some c' /\
    cast_inv st' c' /\
    data c' = data c ++ [(candidate "depth" j, Arr ld)] /\
    ndarrays st' !! l = Some (replicate k b ++ a :: b :: rest) /\
    ndarrays st' !! ld =
      Some (np_cumsum
              (map (fun d => PrimFloat.mul d 1e4%float)
                   (zip_with PrimFloat.div (p0 :: np_diff (p0 :: pres))
                      (map (fun r => PrimFloat.mul r G)
                           (replicate k b ++ a :: b :: rest))))).
Proof.
  intros Hc Hinv Hd Hl Ha Hvp Hne Hpres.
  rewrite (add_depth_run st self c rhokey l k a b rest Hc Hd Hl Ha).
  set (rho' := replicate k b ++ a :: b :: rest).
  set (st1 := mkStore (<[l := rho']> (ndarrays st)) (objects st)).
  assert (Hl1 : ndarrays st1 !! l = Some rho').
  { simpl. apply list_lookup_insert_eq. by eapply lookup_lt_Some. }
  assert (Hrholen : length rho' = length (replicate k NaN ++ a :: b :: rest)).
  { unfold rho'. by rewrite !length_app, !length_replicate. }
  assert (Hkeep : forall v m, has_len st v m -> has_len st1 v m).
  { intros [ys|l'| |] m (zs & Hzs & Hm); [by exists zs| |done|done].
    destruct (decide (l' = l)) as [->|Hl'].
    - exists rho'. split; [done|]. simpl in Hzs. rewrite Hl in Hzs.
      injection Hzs as <-. by rewrite Hrholen.
    - exists zs. split; [|done]. simpl. by rewrite list_lookup_insert_ne. }
  assert (Hinv1 : cast_inv st1 c).
  { destruct Hinv as (? & ? & Hlen). split_and!; [done..|]. intros k' v Hv.
    apply Hkeep. by eapply Hlen. }
  assert (Hpres1 : vec_elems st1 vp = Some (p0 :: pres)).
  { destruct vp as [ys|l'| |]; [done| |done|done]. simpl in *.
    rewrite list_lookup_insert_ne; [done|]. intros ->. done. }
  pose proof Hinv as (_ & _ & Hlenc).
  destruct (Hlenc _ _ Hvp) as (ps & Hps & Hpn).
  assert (ps = p0 :: pres) as -> by congruence.
  destruct (Hlenc _ _ Hd) as (rs & Hrs & Hrn). simpl in Hrs. rewrite Hl in Hrs.
  injection Hrs as <-.
  change (length (p0 :: pres)) with (S (length pres)) in Hpn.
  assert (Hdp : length (p0 :: np_diff (p0 :: pres)) = S (length pres)).
  { cbn [length]. rewrite length_np_diff. cbn [length]. lia. }
  unfold hydrostatic_depth.
  unfold bind at 1. rewrite (cast_vector_data st1 self c "pres" vp (p0 :: pres) Hc Hvp Hpres1).
  unfold bind at 1, lift at 1.
  change (py_index (p0 :: pres) 0) with (py_index (p0 :: pres) (Z.of_nat 0)).
  rewrite (py_index_nonneg (p0 :: pres) 0 p0 eq_refl).
  unfold bind at 1. rewrite (cast_vector_data st1 self c "pres" vp (p0 :: pres) Hc Hvp Hpres1).
  unfold bind at 1. simpl elems. unfold read_array at 1. rewrite Hl1.
  unfold bind at 1, lift at 1, broadcast1.
  rewrite bool_decide_true.
  2:{ rewrite Hdp, length_map, Hrholen. lia. }
  set (depth := np_cumsum _).
  unfold bind at 1, alloc_array at 1.
  set (st2 := mkStore (ndarrays st1 ++ [depth]) (objects st1)).
  assert (Hc2 : objects st2 !! self = Some c) by done.
  destruct (addkeydata_run st2 self c "depth" (Arr (length (ndarrays st1))) Hc2)
    as (j & Hrun & _ & Hfree).
  rewrite Hrun.
  eexists _, _, j, (length (ndarrays st1)). split; [reflexivity|]. simpl.
  split; [done|].
  split; [apply list_lookup_insert_eq; by eapply lookup_lt_Some|].
  split; [|split; [unfold with_field; by destruct (bool_decide _)|split]].
  - assert (Hp12 : ndarrays st1 `prefix_of` ndarrays st2) by (by apply prefix_app_r).
    apply (cast_inv_prefix st2); [done|].
    apply cast_inv_with_field; [by eapply cast_inv_prefix|done|].
    exists depth. split; [simpl; by apply list_lookup_middle|].
    unfold depth. rewrite length_np_cumsum, length_map, length_zip_with.
    rewrite Hdp, length_map, Hrholen. lia.
  - rewrite lookup_app_l; [done|]. by eapply lookup_lt_Some.
  - by apply list_lookup_middle.
Qed.

End AddDepthValues.

Lemma add_depth_integrates_witness :
  exists st' c' ld,
    @add_depth world 0 (Some "rho") gappy_store = (st', Ok "depth") /\
    objects st' !! 0 = Some c' /\
    dget (data c') "depth" = Some (Arr ld) /\
    ndarrays st' !! 1 = Some [1026%float; 1025%float; 1026%float].
Proof.
  assert (Hinv : cast_inv gappy_store gappy_cast).
  { split; [|split].
    - compute_done.
    - by exists (Arr 0).
    - intros k v. simpl.
      repeat (case_decide; [intros [= <-]; eexists; split; [reflexivity|done]|]).
      done. }
  destruct (@add_depth_integrates world gappy_store 0 gappy_cast "rho" 1 1 1025%float
              1026%float [] (Arr 0) 0%float [10%float; 20%float] eq_refl Hinv
              eq_refl eq_refl eq_refl eq_refl)
    as (st' & c' & j & ld & Hrun & Hfree & Hc' & _ & Hdata & Hrho & _); [done|done|].
  assert (Hval : (@add_depth world 0 (Some "rho") gappy_store).2 = Ok "depth")
    by (vm_compute; reflexivity).
  rewrite Hrun in Hval. simpl in Hval. injection Hval as Hj.
  rewrite Hj in *.
  exists st', c', ld. split; [done|]. split; [done|]. split; [|done].
  rewrite Hdata. reflexivity.
Defined.

(** * Equality and NaN *)

Section EqualityFacts.
Context (properties_ne coords_ne : loc -> loc -> M bool).
Context (sequence_ne : list float -> list float -> M bool).
Context (mismatch_ne : M bool).

(** A comparison does not write. *)
Hypothesis properties_ne_reads : forall a b, pure_read (properties_ne a b).
Hypothesis coords_ne_reads : forall a b, pure_read (coords_ne a b).
Hypothesis sequence_ne_reads : forall xs ys, pure_read (sequence_ne xs ys).
Hypothesis mismatch_ne_reads : pure_read mismatch_ne.

Local Abbreviation any_ne' := (any_ne sequence_ne mismatch_ne).
Local Abbreviation any_field_ne' := (any_field_ne sequence_ne mismatch_ne).
Local Abbreviation Cast__eq__' :=
  (Cast__eq__ properties_ne coords_ne sequence_ne mismatch_ne).
Local Abbreviation Cast__ne__' :=
  (Cast__ne__ properties_ne coords_ne sequence_ne mismatch_ne).
Local Abbreviation casts_equal' :=
  (casts_equal properties_ne coords_ne sequence_ne mismatch_ne).
Local Abbreviation CastCollection__eq__' :=
  (CastCollection__eq__ properties_ne coords_ne sequence_ne mismatch_ne).

Local Ltac differ := simpl; unfold ret; simpl; congruence.

Lemma pure_read_any_ne (a b : vec) : pure_read (any_ne' a b).
Proof.
  unfold any_ne. destruct a, b; try apply sequence_ne_reads;
    (apply pure_read_bind; [apply pure_read_elems|]; intros us;
     apply pure_read_bind; [apply pure_read_elems|]; intros vs;
     destruct (np_not_equal us vs); [apply pure_read_ret|apply mismatch_ne_reads]).
Qed.

Lemma pure_read_any_field_ne (d d' : dict vec) (fields : list string) :
  pure_read (any_field_ne' d d' fields).
Proof.
  induction fields as [|k rest IH]; simpl; [apply pure_read_ret|].
  apply pure_read_bind; [apply pure_read_lift|]. intros a.
  apply pure_read_bind; [apply pure_read_lift|]. intros b.
  apply pure_read_bind; [apply pure_read_any_ne|]. intros [|]; [apply pure_read_ret|done].
Qed.

Lemma pure_read_Cast__eq__ (self other : loc) : pure_read (Cast__eq__' self other).
Proof.
  unfold Cast__eq__.
  apply pure_read_bind; [apply pure_read_get_cast|]. intros c.
  apply pure_read_bind; [apply pure_read_get_cast|]. intros c'.
  destruct (negb _); [apply pure_read_ret|].
  apply pure_read_bind; [done|]. intros [|]; [apply pure_read_ret|].
  apply pure_read_bind; [done|]. intros [|]; [apply pure_read_ret|].
  apply pure_read_bind; [apply pure_read_any_field_ne|]. intros ?. apply pure_read_ret.
Qed.

(** An array that holds a NaN differs from itself. *)
Lemma any_ne_nan (st : store) (l : loc) (xs : list float) (x : float) :
  ndarrays st !! l = Some xs -> x ∈ xs -> PrimFloat.is_nan x = true ->
  any_ne' (Arr l) (Arr l) st = (st, Ok true).
Proof.
  intros Hl Hx Hnan. unfold any_ne. simpl.
  unfold bind, read_array. rewrite Hl. cbv beta iota. rewrite Hl. cbv beta iota.
  unfold np_not_equal. rewrite bool_decide_true by done. unfold ret. do 2 f_equal.
  apply existsb_exists. exists true. split; [|done].
  apply list_elem_of_In. apply list_elem_of_lookup in Hx as [i Hi].
  apply (list_elem_of_lookup_2 _ i). apply lookup_zip_with_Some.
  exists x, x. split; [|done]. unfold PrimFloat.is_nan in Hnan.
  by destruct (PrimFloat.eqb x x).
Qed.

Lemma any_field_ne_nan (st st' : store) (d : dict vec) (fields : list string)
    (k : string) (l : loc) (xs : list float) (x : float) :
  k ∈ fields -> dget d k = Some (Arr l) ->
  ndarrays st !! l = Some xs -> x ∈ xs -> PrimFloat.is_nan x = true ->
  any_field_ne' d d fields st <> (st', Ok false).
Proof.
  intros Hk Hd Hl Hx Hnan. induction fields as [|k0 rest IH]; [by apply elem_of_nil in Hk|].
  simpl. unfold bind at 1, lift at 1, dlookup.
  destruct (dget d k0) as [a|] eqn:Ha; [|differ].
  unfold bind at 1, lift at 1. unfold bind at 1.
  pose proof (pure_read_any_ne a a st) as Hpure.
  destruct (decide (k0 = k)) as [->|Hne].
  - assert (a = Arr l) as -> by congruence.
    by rewrite (any_ne_nan st l xs x Hl Hx Hnan).
  - destruct (any_ne' a a st) as [st1 [[|]|e]]; simpl in Hpure; subst; [differ| |differ].
    apply IH. apply elem_of_cons in Hk as [->|Hk]; done.
Qed.

Lemma eq_self_nan (st st' : store) (self : loc) (c : Cast) (k : string) (l : loc)
    (xs : list float) (x : float) :
  objects st !! self = Some c ->
  k ∈ _fields c -> dget (data c) k = Some (Arr l) ->
  ndarrays st !! l = Some xs -> x ∈ xs -> PrimFloat.is_nan x = true ->
  Cast__eq__' self self st <> (st', Ok true).
Proof.
  intros Hc Hk Hd Hl Hx Hnan. unfold Cast__eq__.
  unfold bind at 1, get_cast at 1. rewrite Hc.
  unfold bind at 1, get_cast at 1. rewrite Hc.
  rewrite bool_decide_true by done. cbn [negb]. cbv beta iota.
  unfold bind at 1. pose proof (properties_ne_reads self self st) as Hp.
  destruct (properties_ne self self st) as [st1 [[|]|e]]; simpl in Hp; subst;
    [differ| |differ].
  unfold bind at 1. pose proof (coords_ne_reads self self st) as Hp.
  destruct (coords_ne self self st) as [st1 [[|]|e]]; simpl in Hp; subst;
    [differ| |differ].
  unfold bind.
  pose proof (any_field_ne_nan st) as Hany.
  destruct (any_field_ne' (data c) (data c) (_fields c) st) as [st1 [[|]|e]] eqn:Hrun;
    [differ| |differ].
  exfalso. by eapply (Hany st1).
Qed.

(** X18: a cast that holds a NaN in an ndarray field is not equal to
    itself: [cast == cast] returns [False] or raises, but never returns
    [True], whatever the comparisons of the properties, the coordinates
    and the sequences give.  So it is for [collection == collection] when
    the collection holds such a cast. *)
Theorem nan_breaks_equality (st : store) (self : loc) (c : Cast) (k : string)
    (l : loc) (xs : list float) (x : float) :
  objects st !! self = Some c ->
  k ∈ _fields c -> dget (data c) k = Some (Arr l) ->
  ndarrays st !! l = Some xs -> x ∈ xs -> PrimFloat.is_nan x = true ->
  (forall st', Cast__eq__' self self st <> (st', Ok true)) /\
  (forall coll st', self ∈ casts coll ->
     CastCollection__eq__' coll coll st <> (st', Ok true)).
Proof.
  intros Hc Hk Hd Hl Hx Hnan. split.
  - intros st'. by eapply eq_self_nan.
  - intros [cs] st' Hin. unfold CastCollection__eq__. simpl in *.
    rewrite bool_decide_true by done. cbn [negb]. cbv beta iota.
    induction cs as [|o cs IH]; [by apply elem_of_nil in Hin|].
    simpl. unfold bind at 1. unfold Cast__ne__ at 1. unfold bind at 1.
    pose proof (pure_read_Cast__eq__ o o st) as Hp.
    pose proof (fun st1 => eq_self_nan st st1 self c k l xs x Hc Hk Hd Hl Hx Hnan) as Hself.
    destruct (decide (o = self)) as [->|Hne].
    + destruct (Cast__eq__' self self st) as [st1 [[|]|e]]; simpl in Hp; subst;
        [by destruct (Hself st)|differ|differ].
    + destruct (Cast__eq__' o o st) as [st1 [[|]|e]]; simpl in Hp; subst; [|differ|differ].
      simpl. apply IH. apply elem_of_cons in Hin as [->|Hin]; done.
Qed.

End EqualityFacts.

Lemma nan_breaks_equality_witness :
  Cast__eq__ (fun _ _ => ret false) (fun _ _ => ret false) (fun _ _ => ret false)
    (ret false) 0 0 gappy_store <> (gappy_store, Ok true).
Proof.
  apply (nan_breaks_equality (fun _ _ => ret false) (fun _ _ => ret false)
           (fun _ _ => ret false) (ret false)
           (fun _ _ _ => eq_refl) (fun _ _ _ => eq_refl) (fun _ _ _ => eq_refl)
           (fun _ => eq_refl)
           gappy_store 0 gappy_cast "rho" 1 [NaN; 1025%float; 1026%float] NaN
           eq_refl).
  - right; left.
  - reflexivity.
  - reflexivity.
  - left.
  - reflexivity.
Defined.
